(** * PushToFolders: a shallow embedding of [src/main.cpp]

    The program moves every supported image file into a sibling folder
    named after the file's stem.  This development embeds the POSIX
    branch of the single translation unit ([#else] arms of the
    [_WIN32] conditionals): [PathString] is a narrow string,
    [PATH_LITERAL] is the identity, [u8string] returns the native
    string and [normaliseArguments] returns its argument.

    Layout: paths and the classifier first, then the operating-system
    model (file tree, refusals, clock, console), the logger, the mover,
    the scanner and the dispatcher, and finally the theorems. *)

From Stdlib Require Import Ascii String List Bool Arith Lia.
From stdpp Require Import base option strings list gmap fin_maps.

Local Open Scope string_scope.

(** ** Paths ([std::filesystem::path], generic POSIX format) *)

Module Path.

Definition PathString := string.

Definition sep : ascii := "/"%char.
Definition dot : ascii := "."%char.

Definition is_sep (c : ascii) : bool := Ascii.eqb c sep.
Definition is_dot (c : ascii) : bool := Ascii.eqb c dot.

Fixpoint has_sep (s : string) : bool :=
  match s with
  | EmptyString => false
  | String c r => is_sep c || has_sep r
  end.

Fixpoint has_dot (s : string) : bool :=
  match s with
  | EmptyString => false
  | String c r => is_dot c || has_dot r
  end.

(** [path::filename]: what follows the last directory separator; empty
    when the path ends in a separator. *)
Fixpoint filename (p : string) : string :=
  match p with
  | EmptyString => EmptyString
  | String c r =>
      if has_sep r then filename r
      else if is_sep c then r else p
  end.

(** The suffix of [s] that starts at its rightmost period. *)
Fixpoint last_dot_suffix (s : string) : option string :=
  match s with
  | EmptyString => None
  | String c r =>
      match last_dot_suffix r with
      | Some e => Some e
      | None => if is_dot c then Some s else None
      end
  end.

(** [path::extension]: the substring of the filename from its rightmost
    period on; a period in first position does not count, and the
    special names dot and dot-dot have no extension. *)
Definition extension (p : string) : string :=
  match filename p with
  | EmptyString => EmptyString
  | String c r =>
      if String.eqb (String c r) ".." then EmptyString
      else match last_dot_suffix r with
           | Some e => e
           | None => EmptyString
           end
  end.

(** [path::stem]: the filename without its extension. *)
Definition stem (p : string) : string :=
  let f := filename p in
  substring 0 (String.length f - String.length (extension p)) f.

(** Drops the separators that end [s]. *)
Fixpoint strip_trailing_seps (s : string) : string :=
  match s with
  | EmptyString => EmptyString
  | String c r =>
      match strip_trailing_seps r with
      | EmptyString => if is_sep c then EmptyString else String c EmptyString
      | r' => String c r'
      end
  end.

(** [path::parent_path]: the path without its last element; the root
    directory is its own parent. *)
Definition parent_path (p : string) : string :=
  let d := substring 0 (String.length p - String.length (filename p)) p in
  match d with
  | EmptyString => EmptyString
  | String _ _ =>
      match strip_trailing_seps d with
      | EmptyString => "/"
      | d' => d'
      end
  end.

Definition is_absolute (p : string) : bool :=
  match p with
  | String c _ => is_sep c
  | EmptyString => false
  end.

(** [path::has_relative_path]: something follows the root directory. *)
Fixpoint has_relative_path (p : string) : bool :=
  match p with
  | EmptyString => false
  | String c r => negb (is_sep c) || has_relative_path r
  end.

Definition has_filename (p : string) : bool :=
  match filename p with
  | EmptyString => false
  | String _ _ => true
  end.

(** [operator/]: an absolute right operand replaces the left one;
    otherwise a separator is inserted when the left operand has a
    filename. *)
Definition append (a b : string) : string :=
  if is_absolute b then b
  else if has_filename a then a +:+ "/" +:+ b
  else a +:+ b.

End Path.

Notation "a </> b" := (Path.append a b) (at level 40, left associativity).

(** ** Classifier *)

(** [std::tolower] on an [unsigned char] in the "C" locale, the only
    locale the program ever runs in (it never calls [setlocale]). *)
Definition tolower (ch : ascii) : ascii :=
  let n := nat_of_ascii ch in
  if ((65 <=? n)%nat && (n <=? 90)%nat)%bool then ascii_of_nat (n + 32) else ch.

Fixpoint toLowerCopy (text : string) : string :=
  match text with
  | EmptyString => EmptyString
  | String ch rest => String (tolower ch) (toLowerCopy rest)
  end.

Definition kExtensions : list string :=
  [".jpg"; ".jpeg"; ".png"; ".bmp"; ".webp"].

Definition isImageFile (p : string) : bool :=
  let ext := toLowerCopy (Path.extension p) in
  (0 <? count_occ string_dec kExtensions ext)%nat.

(** ** Operating system

    The file tree maps a path to the node it names.  Only regular files
    and directories are modelled (no symbolic links, devices or
    sockets), one node per path string.  Every call that the operating
    system may refuse for reasons outside the tree (permissions, volume
    boundaries, quotas) consults [w_fails], which gives the message of
    the error code when it refuses. *)

Inductive node : Type :=
| File (data : string)
| Dir.

Inductive OsCall : Type :=
| Mkdir (p : string)
| Rename (src dst : string)
| OpenAppend (p : string)
| OpenTrunc (p : string)
| OpenRead (p : string).

Record World : Type := mkWorld {
  w_fs : gmap string node;            (* the file tree *)
  w_fails : OsCall -> option string;  (* calls the system refuses *)
  w_scan_fault : string -> option nat;(* directory reads that fail *)
  w_tmpdir : string;                  (* TMPDIR, or /tmp *)
  w_now : string;                     (* local time, formatted *)
  w_bufsiz : nat;                     (* capacity of a file stream buffer *)
  w_out : string;                     (* standard output so far *)
  w_err : string                      (* standard error so far *)
}.

Definition set_fs (f : gmap string node) (w : World) : World :=
  mkWorld f (w_fails w) (w_scan_fault w) (w_tmpdir w) (w_now w)
          (w_bufsiz w) (w_out w) (w_err w).

Definition add_out (s : string) (w : World) : World :=
  mkWorld (w_fs w) (w_fails w) (w_scan_fault w) (w_tmpdir w) (w_now w)
          (w_bufsiz w) (w_out w +:+ s) (w_err w).

Definition add_err (s : string) (w : World) : World :=
  mkWorld (w_fs w) (w_fails w) (w_scan_fault w) (w_tmpdir w) (w_now w)
          (w_bufsiz w) (w_out w) (w_err w +:+ s).

(** [fs::status]: the empty path names nothing. *)
Definition status (w : World) (p : string) : option node :=
  if String.eqb p "" then None else w_fs w !! p.

Definition fs_exists (w : World) (p : string) : bool :=
  match status w p with Some _ => true | None => false end.

Definition is_directory (w : World) (p : string) : bool :=
  match status w p with Some Dir => true | _ => false end.

Definition is_regular_file (w : World) (p : string) : bool :=
  match status w p with Some (File _) => true | _ => false end.

(** An error code: [None] when clear, else its message. *)
Definition error_code := option string.

Definition is_dot_or_dotdot (f : string) : bool :=
  String.eqb f "." || String.eqb f "..".

(** First phase of [fs::create_directories]: climbs from a path that
    does not exist to its first existing ancestor and collects what is
    missing, deepest first.  An ancestor that is not a directory is an
    error.  The climb stops at the root directory, which is its own
    parent.  The fuel is a bound on the climb: the length of the path is
    enough ([missing_dirs_fuel]). *)
Fixpoint missing_dirs (fuel : nat) (w : World) (pp : string)
  : string + list string :=
  match fuel with
  | 0 => inl "File name too long"
  | S fuel' =>
      let next := Path.parent_path pp in
      let rest :=
        if String.eqb next "" || String.eqb next pp then inr []
        else match status w next with
             | Some Dir => inr []
             | Some (File _) => inl "Not a directory"
             | None => missing_dirs fuel' w next
             end in
      if is_dot_or_dotdot (Path.filename pp) then rest
      else match rest with
           | inl e => inl e
           | inr l => inr (pp :: l)
           end
  end.

(** [fs::create_directory]: an existing directory is not an error. *)
Definition create_directory (w : World) (p : string) : error_code * World :=
  match status w p with
  | Some Dir => (None, w)
  | Some (File _) => (Some "File exists", w)
  | None =>
      if String.eqb p "" then (Some "No such file or directory", w)
      else match w_fails w (Mkdir p) with
           | Some e => (Some e, w)
           | None => (None, set_fs (<[p := Dir]> (w_fs w)) w)
           end
  end.

(** Second phase: creates the missing directories, shallowest first, and
    stops at the first error; what was created before stays. *)
Fixpoint create_all (todo : list string) (w : World) : error_code * World :=
  match todo with
  | [] => (None, w)
  | p :: rest =>
      match create_directory w p with
      | (Some e, w') => (Some e, w')
      | (None, w') => create_all rest w'
      end
  end.

Definition create_directories (w : World) (p : string) : error_code * World :=
  if String.eqb p "" then (Some "Invalid argument", w)
  else match status w p with
       | Some Dir => (None, w)
       | Some (File _) => (Some "Not a directory", w)
       | None =>
           let pp := if Path.has_relative_path p && negb (Path.has_filename p)
                     then Path.parent_path p else p in
           match missing_dirs (S (String.length pp)) w pp with
           | inl e => (Some e, w)
           | inr missing =>
               if (1000 <? List.length missing)%nat
               then (Some "File name too long", w)
               else create_all (rev missing) w
           end
       end.

(** [fs::rename] as the mover uses it, on a regular file: the node moves
    from [src] to [dst] in one step or not at all.  (Renaming a directory
    would carry its contents along; the program never does that.) *)
Definition rename (w : World) (src dst : string) : error_code * World :=
  match status w src with
  | None => (Some "No such file or directory", w)
  | Some n =>
      match w_fails w (Rename src dst) with
      | Some e => (Some e, w)
      | None => (None, set_fs (<[dst := n]> (delete src (w_fs w))) w)
      end
  end.

(** The entries of directory [d], as [fs::directory_iterator] names
    them: [d / name] for every name in [d]. *)
Definition is_entry_of (d k : string) : bool :=
  negb (String.eqb (Path.filename k) "") && String.eqb (d </> Path.filename k) k.

Definition entries (w : World) (d : string) : list string :=
  List.filter (is_entry_of d) (map fst (map_to_list (w_fs w))).

(** What a range-based [for] over [fs::directory_iterator(d, ec)] sees.
    The constructor reports a failure through [ec] and is then the end
    iterator.  The loop advances with [operator++], which has no
    [error_code] argument and throws [fs::filesystem_error].
    [w_scan_fault w d = Some k]: the read that follows [k] delivered
    entries fails. *)
Record scan : Type := mkScan {
  scan_ec : error_code;      (* set by the constructor *)
  scan_seen : list string;   (* the entries the loop body runs on *)
  scan_throws : bool         (* an increment throws after them *)
}.

Definition directory_iterator (w : World) (d : string) : scan :=
  let es := entries w d in
  match w_scan_fault w d with
  | None => mkScan None es false
  | Some 0 => mkScan (Some "Permission denied") [] false
  | Some (S k) =>
      if (S k <=? List.length es)%nat then mkScan None (firstn (S k) es) true
      else mkScan None es false
  end.

(** [fs::temp_directory_path(ec)]: the directory named by the
    environment, which must exist. *)
Definition temp_directory_path (w : World) : error_code * string :=
  if is_directory w (w_tmpdir w) then (None, w_tmpdir w)
  else (Some "Not a directory", "").

(** Opening a stream creates the file when it is absent. *)
Definition open_append (w : World) (p : string) : option World :=
  match w_fails w (OpenAppend p) with
  | Some _ => None
  | None =>
      match status w p with
      | Some (File _) => Some w
      | Some Dir => None
      | None => if String.eqb p "" then None
                else Some (set_fs (<[p := File ""]> (w_fs w)) w)
      end
  end.

Definition open_trunc (w : World) (p : string) : option World :=
  match w_fails w (OpenTrunc p) with
  | Some _ => None
  | None =>
      match status w p with
      | Some Dir => None
      | _ => if String.eqb p "" then None
             else Some (set_fs (<[p := File ""]> (w_fs w)) w)
      end
  end.

(** Opening for reading gives a stream on the node the path names.  A
    directory opens too: the system does not refuse to open one for
    reading, it refuses to read from it. *)
Definition open_read (w : World) (p : string) : option node :=
  match w_fails w (OpenRead p) with
  | Some _ => None
  | None => status w p
  end.

(** Writes [s] at the end of the file behind an append-mode descriptor.
    Nothing is written when the path no longer names a regular file. *)
Definition write_append (p s : string) (w : World) : World :=
  match w_fs w !! p with
  | Some (File d) => set_fs (<[p := File (d +:+ s)]> (w_fs w)) w
  | _ => w
  end.


(** ** State threading

    Every function of the program that takes [Logger &logger] runs in
    the state monad over the logger and the world. *)

Record Logger : Type := mkLogger {
  logFilePath_ : string;
  stream_ : option string   (* [None]: failed stream; else the unwritten buffer *)
}.

Definition St : Type := (Logger * World)%type.
Definition M (A : Type) : Type := St -> A * St.

Definition ret {A : Type} (a : A) : M A := fun s => (a, s).

Definition bind {A B : Type} (m : M A) (k : A -> M B) : M B :=
  fun s => let (a, s') := m s in k a s'.

Notation "x <~ m ;; k" := (bind m (fun x => k))
  (at level 200, m at level 99, right associativity, only parsing).
Notation "m ;;; k" := (bind m (fun _ => k))
  (at level 200, right associativity, only parsing).

Definition get_world : M World := fun s => (snd s, s).
Definition get_logger : M Logger := fun s => (fst s, s).

Definition lift_os {A : Type} (f : World -> A * World) : M A :=
  fun s => let (a, w') := f (snd s) in (a, (fst s, w')).

Definition cout (s : string) : M unit := fun st => (tt, (fst st, add_out s (snd st))).
Definition cerr (s : string) : M unit := fun st => (tt, (fst st, add_err s (snd st))).

Definition nl : string := String (ascii_of_nat 10) EmptyString.
Definition dquote : string := String (ascii_of_nat 34) EmptyString.

(** ** Logger *)

Definition timestampForLog (w : World) : string := w_now w.

Definition detectLogFilePath (w : World) : string :=
  match temp_directory_path w with
  | (Some _, _) => "PushToFolders.log"
  | (None, fallback) => fallback </> "PushToFolders.log"
  end.

(** One line sent to [stream_]: the pieces that one statement chains
    with [<<].  The line joins the buffer; a buffer over capacity is
    written out whole.  A failed stream ([None]) takes nothing.  The
    mutex of the class is left out: the program has one thread. *)
Definition stream_put (line : string) : M unit :=
  fun st =>
    let (lg, w) := st in
    match stream_ lg with
    | None => (tt, st)
    | Some pending =>
        let pending' := pending +:+ line in
        if (w_bufsiz w <? String.length pending')%nat
        then (tt, (mkLogger (logFilePath_ lg) (Some ""),
                   write_append (logFilePath_ lg) pending' w))
        else (tt, (mkLogger (logFilePath_ lg) (Some pending'), w))
    end.

(** [Logger::Logger] *)
Definition Logger_new (w : World) : St :=
  let p := detectLogFilePath w in
  match open_append w p with
  | None =>
      (mkLogger p None,
       add_err ("Warning: Unable to open log file at " +:+ p +:+ nl) w)
  | Some w' =>
      snd (stream_put ("--- Run started at " +:+ timestampForLog w' +:+ " ---" +:+ nl)
                      (mkLogger p (Some ""), w'))
  end.

(** The destructor of [stream_] writes out what is still buffered. *)
Definition Logger_close (st : St) : World :=
  let (lg, w) := st in
  match stream_ lg with
  | Some pending => write_append (logFilePath_ lg) pending w
  | None => w
  end.

Definition error_line (ts target message : string) : string :=
  "[" +:+ ts +:+ "] ERROR: " +:+ message
  +:+ (if String.eqb target "" then "" else " | Target: " +:+ target)
  +:+ nl.

Definition info_line (ts message : string) : string :=
  "[" +:+ ts +:+ "] INFO: " +:+ message +:+ nl.

Definition logError (target message : string) : M unit :=
  w <~ get_world ;;
  stream_put (error_line (timestampForLog w) target message).

Definition logInfo (message : string) : M unit :=
  w <~ get_world ;;
  stream_put (info_line (timestampForLog w) message).

Definition printUsage (logPath : string) : M unit :=
  cout ("PushToFolders - Organise images into same-named folders" +:+ nl +:+ nl
        +:+ "Usage:" +:+ nl
        +:+ "  PushToFolders " +:+ dquote +:+ "C:/path/to/folder" +:+ dquote
        +:+ "  (command line folder mode)" +:+ nl
        +:+ "  PushToFolders <image1> <image2> ...     (Explorer selection mode)" +:+ nl
        +:+ "  PushToFolders --show-log               (display error log)" +:+ nl
        +:+ "  PushToFolders --clear-log              (clear error log)" +:+ nl +:+ nl
        +:+ "Log file: " +:+ logPath +:+ nl).

(** ** Mover *)

Definition ensureDirectory (dir : string) : M bool :=
  w <~ get_world ;;
  if fs_exists w dir then
    if negb (is_directory w dir) then
      logError dir "A non-directory with the desired folder name already exists." ;;;
      cerr ("Cannot create folder '" +:+ dir
            +:+ "' because a file exists with that name." +:+ nl) ;;;
      ret false
    else ret true
  else
    ec <~ lift_os (fun w => create_directories w dir) ;;
    match ec with
    | Some msg =>
        logError dir ("Failed to create folder: " +:+ msg) ;;;
        cerr ("Failed to create folder '" +:+ dir +:+ "': " +:+ msg +:+ nl) ;;;
        ret false
    | None => ret true
    end.

Definition destinationFolder (filePath : string) : string :=
  Path.parent_path filePath </> Path.stem filePath.

Definition destinationFile (filePath : string) : string :=
  destinationFolder filePath </> Path.filename filePath.

Definition moveFileToFolder (filePath : string) : M bool :=
  w <~ get_world ;;
  if negb (fs_exists w filePath) then
    logError filePath "File does not exist." ;;;
    cerr ("File not found: " +:+ filePath +:+ nl) ;;;
    ret false
  else if negb (is_regular_file w filePath) then
    logError filePath "Path is not a regular file." ;;;
    cerr ("Not a file: " +:+ filePath +:+ nl) ;;;
    ret false
  else if negb (isImageFile filePath) then
    logInfo ("Skipping non-image file: " +:+ filePath) ;;;
    ret false
  else
    ok <~ ensureDirectory (destinationFolder filePath) ;;
    if negb ok then ret false
    else
      w1 <~ get_world ;;
      if fs_exists w1 (destinationFile filePath) then
        logError (destinationFile filePath) "Destination file already exists." ;;;
        cerr ("Destination already exists: " +:+ destinationFile filePath +:+ nl) ;;;
        ret false
      else
        ec <~ lift_os (fun w => rename w filePath (destinationFile filePath)) ;;
        match ec with
        | Some msg =>
            logError (destinationFile filePath) ("Failed to move file: " +:+ msg) ;;;
            cerr ("Failed to move '" +:+ filePath +:+ "': " +:+ msg +:+ nl) ;;;
            ret false
        | None =>
            logInfo ("Moved " +:+ filePath +:+ " to " +:+ destinationFolder filePath) ;;;
            cout ("Moved '" +:+ Path.filename filePath +:+ "' into '"
                  +:+ Path.filename (destinationFolder filePath) +:+ "'" +:+ nl) ;;;
            ret true
        end.

(** ** Scanner *)

(** How control leaves the body of a loop. *)
Inductive loop_exit : Type :=
| LoopDone (anyProcessed : bool)   (* ran to the end *)
| LoopReturn (result : bool).      (* [return] inside the body *)

(** The body of the range-based [for] of [processDirectory], run on the
    entries the iterator delivers; [ec] is the error code the iterator's
    constructor left. *)
Fixpoint scan_loop (ec : error_code) (directoryPath : string)
         (seen : list string) (anyProcessed : bool) : M loop_exit :=
  match seen with
  | [] => ret (LoopDone anyProcessed)
  | entry :: rest =>
      match ec with
      | Some msg =>
          logError directoryPath ("Failed to scan directory: " +:+ msg) ;;;
          cerr ("Failed to scan directory '" +:+ directoryPath +:+ "': " +:+ msg +:+ nl) ;;;
          ret (LoopReturn false)
      | None =>
          w <~ get_world ;;
          if negb (is_regular_file w entry) then
            scan_loop ec directoryPath rest anyProcessed
          else if isImageFile entry then
            moved <~ moveFileToFolder entry ;;
            scan_loop ec directoryPath rest (if moved then true else anyProcessed)
          else scan_loop ec directoryPath rest anyProcessed
      end
  end.

(** A call returns, or the process ends in [std::terminate] because an
    exception is not caught. *)
Inductive outcome (A : Type) : Type :=
| Returned (a : A)
| Terminated.
Arguments Returned {A} a.
Arguments Terminated {A}.

Definition processDirectory (directoryPath : string) : M (outcome bool) :=
  w <~ get_world ;;
  if negb (fs_exists w directoryPath) || negb (is_directory w directoryPath) then
    logError directoryPath "The supplied path is not a directory." ;;;
    cerr ("The path is not a folder: " +:+ directoryPath +:+ nl) ;;;
    ret (Returned false)
  else
    let it := directory_iterator w directoryPath in
    r <~ scan_loop (scan_ec it) directoryPath (scan_seen it) false ;;
    match r with
    | LoopReturn b => ret (Returned b)
    | LoopDone anyProcessed =>
        if scan_throws it then ret Terminated
        else
          (if negb anyProcessed
           then cout ("No image files found in " +:+ directoryPath +:+ nl)
           else ret tt) ;;;
          ret (Returned anyProcessed)
    end.

Fixpoint files_loop (files : list string) (anyProcessed : bool) : M bool :=
  match files with
  | [] => ret anyProcessed
  | file :: rest =>
      moved <~ moveFileToFolder file ;;
      files_loop rest (if moved then true else anyProcessed)
  end.

Definition processFiles (files : list string) : M bool :=
  anyProcessed <~ files_loop files false ;;
  (if negb anyProcessed then cout ("No image files were processed." +:+ nl)
   else ret tt) ;;;
  ret anyProcessed.

(** ** Dispatcher *)

(** [readFileContents].  A stream that did not open gives [nullopt].  On
    a regular file [tellg] at the end is the length and the contents are
    read.  On a directory the position [tellg] answers is no length: it
    is past [max_size], [contents.resize] throws [std::length_error],
    and nothing catches it. *)
Definition readFileContents (w : World) (p : string) : outcome (option string) :=
  match open_read w p with
  | None => Returned None
  | Some (File contents) => Returned (Some contents)
  | Some Dir => Terminated
  end.

Definition clearLogFile (p : string) : M bool :=
  lift_os (fun w => match open_trunc w p with
                    | Some w' => (true, w')
                    | None => (false, w)
                    end).

Definition normaliseArguments (args : list string) : list string := args.

Definition showLogLong : string := "--show-log".
Definition showLogShort : string := "/showlog".
Definition clearLogLong : string := "--clear-log".
Definition clearLogShort : string := "/clearlog".

Definition is_show_token (a : string) : bool :=
  String.eqb a showLogLong || String.eqb a showLogShort.

Definition is_clear_token (a : string) : bool :=
  String.eqb a clearLogLong || String.eqb a clearLogShort.

(** The show-log branch of [runApplication]. *)
Definition showLogCommand : M (outcome nat) :=
  lg <~ get_logger ;;
  w <~ get_world ;;
  match readFileContents w (logFilePath_ lg) with
  | Terminated => ret Terminated
  | Returned None =>
      cerr ("No log file found at " +:+ logFilePath_ lg +:+ nl) ;;;
      ret (Returned 1)
  | Returned (Some contents) =>
      cout ("Log file: " +:+ logFilePath_ lg +:+ nl +:+ contents) ;;;
      ret (Returned 0)
  end.

(** The clear-log branch of [runApplication]. *)
Definition clearLogCommand : M nat :=
  lg <~ get_logger ;;
  cleared <~ clearLogFile (logFilePath_ lg) ;;
  if cleared then
    cout ("Log file cleared: " +:+ logFilePath_ lg +:+ nl) ;;;
    ret 0
  else
    cerr ("Unable to clear log file at " +:+ logFilePath_ lg +:+ nl) ;;;
    ret 1.

(** The folder branch of [runApplication]. *)
Definition folderMode (potentialDirectory : string) : M (outcome nat) :=
  lg <~ get_logger ;;
  r <~ processDirectory potentialDirectory ;;
  match r with
  | Terminated => ret Terminated
  | Returned success =>
      cout ("Finished processing folder." +:+ nl) ;;;
      cout ("Check the log for any errors: " +:+ logFilePath_ lg +:+ nl) ;;;
      ret (Returned (if success then 0 else 1))
  end.

(** The last part of [runApplication]: every argument is a file path. *)
Definition fileMode (args : list string) : M (outcome nat) :=
  lg <~ get_logger ;;
  success <~ processFiles args ;;
  cout ("Finished processing files. Check the log for any errors: "
        +:+ logFilePath_ lg +:+ nl) ;;;
  ret (Returned (if success then 0 else 1)).

(** [runApplication] between the construction of the logger and its
    destruction. *)
Definition dispatch (args : list string) : M (outcome nat) :=
  lg <~ get_logger ;;
  w <~ get_world ;;
  match args with
  | [] => printUsage (logFilePath_ lg) ;;; ret (Returned 1)
  | [a] =>
      if is_show_token a then showLogCommand
      else if is_clear_token a then c <~ clearLogCommand ;; ret (Returned c)
      else if fs_exists w a && is_directory w a then folderMode a
      else fileMode args
  | _ => fileMode args
  end.

(** A normal return runs the logger's destructor; [std::terminate] does
    not, and the buffered log lines are lost. *)
Definition runApplication (args : list string) (w : World) : outcome nat * World :=
  let args := normaliseArguments args in
  match dispatch args (Logger_new w) with
  | (Returned code, st) => (Returned code, Logger_close st)
  | (Terminated, st) => (Terminated, snd st)
  end.

(** ** Vocabulary of the statements *)

Definition is_upper (c : ascii) : bool :=
  ((65 <=? nat_of_ascii c)%nat && (nat_of_ascii c <=? 90)%nat)%bool.

(** [u] is the capital of the small letter [l]. *)
Definition capital_of (u l : ascii) : Prop :=
  97 <= nat_of_ascii l <= 122 /\ nat_of_ascii u + 32 = nat_of_ascii l.

(** [x] is [e] up to the case of its letters. *)
Fixpoint case_variation (e x : string) : Prop :=
  match e, x with
  | EmptyString, EmptyString => True
  | String a e', String b x' => (b = a \/ capital_of b a) /\ case_variation e' x'
  | _, _ => False
  end.

Fixpoint no_upper (e : string) : bool :=
  match e with
  | EmptyString => true
  | String a e' => negb (is_upper a) && no_upper e'
  end.

(** [q] is [dir] or one of the directories above it. *)
Definition above (dir q : string) : Prop :=
  exists k, q = Nat.iter k Path.parent_path dir.

(** How one path of the tree may differ after a call that moved nothing:
    the node is the same, or the path is the log file and text was added
    at its end, or the path was free and is now a new, empty directory,
    at one of the places [made] allows. *)
Definition path_kept (lp : string) (made : string -> Prop)
           (old new : option node) (q : string) : Prop :=
  new = old
  \/ (q = lp /\ exists d s, old = Some (File d) /\ new = Some (File (d +:+ s)))
  \/ (old = None /\ new = Some Dir /\ made q).

Definition nowhere : string -> Prop := fun _ => False.

(** Nothing but the log file and new directories differs between two
    worlds: same refusals, same clock, same environment. *)
Record quiet (lp : string) (made : string -> Prop) (w w' : World) : Prop := mkQuiet {
  quiet_fails : w_fails w' = w_fails w;
  quiet_fault : w_scan_fault w' = w_scan_fault w;
  quiet_tmpdir : w_tmpdir w' = w_tmpdir w;
  quiet_now : w_now w' = w_now w;
  quiet_bufsiz : w_bufsiz w' = w_bufsiz w;
  quiet_tree : forall q, path_kept lp made (w_fs w !! q) (w_fs w' !! q) q
}.

(** A computation that leaves the logger on its file and the world
    [quiet]. *)
Definition keeps (lp : string) (made : string -> Prop) {A : Type} (m : M A) : Prop :=
  forall lg w, logFilePath_ lg = lp ->
    logFilePath_ (fst (snd (m (lg, w)))) = lp
    /\ quiet lp made w (snd (snd (m (lg, w)))).

(** (c) of the mover's invariant: the folder is there as a directory, or
    is absent and can be created. *)
Definition folder_available (w : World) (dir : string) : bool :=
  is_directory w dir
  || (negb (fs_exists w dir)
      && match fst (create_directories w dir) with None => true | Some _ => false end).

Definition rename_allowed (w : World) (src dst : string) : bool :=
  match w_fails w (Rename src dst) with None => true | Some _ => false end.

(** The text of the log as the logger sees it: what the file holds
    followed by what is still in the buffer. *)
Definition log_text (st : St) : option string :=
  match stream_ (fst st), w_fs (snd st) !! logFilePath_ (fst st) with
  | Some pending, Some (File d) => Some (d +:+ pending)
  | _, _ => None
  end.

Definition moved (p : string) (st : St) : bool := fst (moveFileToFolder p st).

Definition after_move (p : string) (st : St) : World :=
  snd (snd (moveFileToFolder p st)).

(** The tree is the same away from the path [lp]. *)
Definition same_but (lp : string) (w w' : World) : Prop :=
  forall q, q <> lp -> w_fs w' !! q = w_fs w !! q.

(** A computation that prints nothing on standard output. *)
Definition silent {A : Type} (m : M A) : Prop :=
  forall st, w_out (snd (snd (m st))) = w_out (snd st).

(** The world in which the next run of the program starts: the tree
    and the environment as they were left, a later time on the clock, a
    fresh console. *)
Definition next_invocation (now : string) (w : World) : World :=
  mkWorld (w_fs w) (w_fails w) (w_scan_fault w) (w_tmpdir w) now
          (w_bufsiz w) "" "".

Definition run_start_marker (now : string) : string :=
  "--- Run started at " +:+ now +:+ " ---" +:+ nl.

(** The log file lets itself be opened in every mode. *)
Definition log_opens (w : World) : Prop :=
  w_fails w (OpenAppend (detectLogFilePath w)) = None
  /\ w_fails w (OpenTrunc (detectLogFilePath w)) = None
  /\ w_fails w (OpenRead (detectLogFilePath w)) = None
  /\ is_directory w (detectLogFilePath w) = false.

(** What the log file holds; nothing when it is not there. *)
Definition log_data (w : World) : string :=
  match w_fs w !! detectLogFilePath w with
  | Some (File d) => d
  | _ => ""
  end.

(** The marker of a run is written out at once when it alone overflows
    the buffer of the stream. *)
Definition marker_overflows (w : World) : bool :=
  (w_bufsiz w <? String.length (run_start_marker (w_now w)))%nat.

Definition put_log (data : string) (w : World) : World :=
  set_fs (<[detectLogFilePath w := File data]> (w_fs w)) w.

(** The spec's account of a batch, to compare the loops of the code
    with: the items are taken in order; each one that [select] lets through
    in the world as it then is goes to the mover once, whatever became of
    the items before it; the answers are collected. *)
Fixpoint each_once (select : World -> string -> bool) (items : list string)
  : M (list bool) :=
  match items with
  | [] => ret []
  | item :: rest =>
      w <~ get_world ;;
      if select w item then
        answer <~ moveFileToFolder item ;;
        answers <~ each_once select rest ;;
        ret (answer :: answers)
      else each_once select rest
  end.

Definition every_item : World -> string -> bool := fun _ _ => true.

Definition supported_file : World -> string -> bool :=
  fun w entry => is_regular_file w entry && isImageFile entry.

Definition any_moved (answers : list bool) : bool := existsb (fun b => b) answers.

(** The spec's account of the file mode: the pass over all the
    arguments, the closing lines, and the status by whether an answer is
    a move. *)
Definition file_batch (args : list string) : M (outcome nat) :=
  lg <~ get_logger ;;
  answers <~ each_once every_item args ;;
  (if any_moved answers then ret tt
   else cout ("No image files were processed." +:+ nl)) ;;;
  cout ("Finished processing files. Check the log for any errors: "
        +:+ logFilePath_ lg +:+ nl) ;;;
  ret (Returned (if any_moved answers then 0 else 1)).

(** The spec's account of a scan: the pass over the supported regular
    files among the entries the listing delivers; when the listing is
    read to its end, the answer is whether one of them was moved. *)
Definition folder_batch (d : string) : M (outcome bool) :=
  w <~ get_world ;;
  answers <~ each_once supported_file (scan_seen (directory_iterator w d)) ;;
  if scan_throws (directory_iterator w d) then ret Terminated
  else
    (if any_moved answers then ret tt
     else cout ("No image files found in " +:+ d +:+ nl)) ;;;
    ret (Returned (any_moved answers)).

(** How a run ends once [dispatch] is through: a normal return runs the
    logger's destructor, [std::terminate] does not. *)
Definition finish (r : outcome nat * St) : outcome nat * World :=
  match r with
  | (Returned code, st) => (Returned code, Logger_close st)
  | (Terminated, st) => (Terminated, snd st)
  end.

(** ** Sample worlds *)

Module Sample.

Definition nothing_fails : OsCall -> option string := fun _ => None.
Definition no_fault : string -> option nat := fun _ => None.

Definition make (tree : list (string * node)) (fails : OsCall -> option string)
           (fault : string -> option nat) : World :=
  mkWorld (list_to_map tree) fails fault "/tmp" "2024-05-01 10:00:00" 4096 "" "".

Definition refuse_rename (src dst : string) : OsCall -> option string :=
  fun c => match c with
           | Rename s d =>
               if String.eqb s src && String.eqb d dst
               then Some "Permission denied" else None
           | _ => None
           end.

(** A folder that holds a picture and already has the picture's
    folder, but whose entries may not be moved. *)
Definition locked_folder : World :=
  make [("/tmp", Dir); ("F", Dir); ("F/photo", Dir); ("F/photo.png", File "img")]
       (refuse_rename "F/photo.png" "F/photo/photo.png") no_fault.

(** The picture's folder already holds a file of the same name. *)
Definition taken : World :=
  make [("/tmp", Dir); ("F", Dir); ("F/photo", Dir);
        ("F/photo/photo.png", File "old"); ("F/photo.png", File "new")]
       nothing_fails no_fault.

(** A file whose whole name is an extension. *)
Definition dotfile : World :=
  make [("/tmp", Dir); ("F", Dir); ("F/.png", File "img")] nothing_fails no_fault.

(** A folder with nothing but a text file. *)
Definition only_notes : World :=
  make [("/tmp", Dir); ("F", Dir); ("F/notes.txt", File "text")] nothing_fails no_fault.

(** A folder with two pictures whose listing breaks after the first
    entry delivered. *)
Definition broken_listing : World :=
  make [("/tmp", Dir); ("F", Dir); ("F/a.png", File "a"); ("F/b.png", File "b")]
       nothing_fails
       (fun d => if String.eqb d "F" then Some 1 else None).

(** A folder that cannot be opened for listing. *)
Definition closed_folder : World :=
  make [("/tmp", Dir); ("F", Dir); ("F/a.png", File "a")]
       nothing_fails
       (fun d => if String.eqb d "F" then Some 0 else None).

(** Two pictures around a name that does not exist. *)
Definition mixed_batch : World :=
  make [("/tmp", Dir); ("F", Dir); ("F/a.png", File "a"); ("F/b.jpg", File "b")]
       nothing_fails no_fault.

(** A folder with a picture and a text file. *)
Definition picture_and_notes : World :=
  make [("/tmp", Dir); ("F", Dir); ("F/a.png", File "a"); ("F/notes.txt", File "text")]
       nothing_fails no_fault.

Definition earlier_entry : string :=
  "[2024-04-30 09:00:00] ERROR: File does not exist. | Target: x.png" +:+ nl.

(** A log with an entry of an earlier run. *)
Definition with_log : World :=
  make [("/tmp", Dir);
        ("/tmp/PushToFolders.log",
         File earlier_entry)]
       nothing_fails no_fault.

End Sample.

(** ** The Windows branch

    The helpers of the [_WIN32] arm that work on strings alone.  A wide
    string is the list of its code units.  The calls into the system
    ([fs::absolute], [FormatMessageW], [WideCharToMultiByte],
    [CommandLineToArgvW]) are parameters. *)

Module Win32.

Definition wchar : Type := N.
Definition wstring : Type := list N.

Definition backslash : wchar := 92%N.
Definition question : wchar := 63%N.
Definition quote : wchar := 34%N.
Definition carriage_return : wchar := 13%N.
Definition line_feed : wchar := 10%N.

(** [native.rfind(prefix, 0) == 0] *)
Fixpoint starts_with (prefix s : wstring) : bool :=
  match prefix, s with
  | [], _ => true
  | a :: prefix', b :: s' => N.eqb a b && starts_with prefix' s'
  | _ :: _, [] => false
  end.

(** The three literals of [toExtendedPath]. *)
Definition extended_prefix : wstring := [backslash; backslash; question; backslash].
Definition unc_prefix : wstring := [backslash; backslash].
Definition extended_unc_prefix : wstring :=
  [backslash; backslash; question; backslash; 85%N; 78%N; 67%N; backslash].

(** [absolute path] is the result of [fs::absolute(path, ec)], [None]
    when it sets [ec]. *)
Definition toExtendedPath (absolute : wstring -> option wstring) (path : wstring)
  : wstring :=
  let native := match absolute path with
                | Some absolutePath => absolutePath
                | None => path
                end in
  if starts_with extended_prefix native then native
  else if starts_with unc_prefix native
       then (extended_unc_prefix ++ skipn 2 native)%list
       else (extended_prefix ++ native)%list.

Definition is_line_end (c : wchar) : bool :=
  N.eqb c carriage_return || N.eqb c line_feed.

(** The loop of [windowsErrorMessage] that pops the last character while
    it is a carriage return or a line feed. *)
Fixpoint pop_line_ends (reversed : wstring) : wstring :=
  match reversed with
  | [] => []
  | c :: rest => if is_line_end c then pop_line_ends rest else reversed
  end.

Definition trim_line_end (message : wstring) : wstring :=
  rev (pop_line_ends (rev message)).

(** [FormatMessageW code] is the buffer the system allocates, [None] when
    it gives none; an empty message counts as none. *)
Definition windowsErrorMessage
           (FormatMessageW : N -> option wstring)
           (wideToUtf8 : wstring -> string)
           (to_string : N -> string)
           (errorCode : N) : string :=
  match FormatMessageW errorCode with
  | Some (c :: rest) => wideToUtf8 (trim_line_end (c :: rest))
  | _ => "Error code: " +:+ to_string errorCode
  end.

Definition has_quote (arg : wstring) : bool := existsb (N.eqb quote) arg.

(** [CommandLineToArgvW arg] is the expansion, [None] for a null
    result. *)
Fixpoint normaliseArguments (CommandLineToArgvW : wstring -> option (list wstring))
         (args : list wstring) : list wstring :=
  match args with
  | [] => []
  | arg :: rest =>
      ((if has_quote arg
        then match CommandLineToArgvW arg with
             | Some expanded => expanded
             | None => [arg]
             end
        else [arg])
       ++ normaliseArguments CommandLineToArgvW rest)%list
  end.

End Win32.

(** ** Further vocabulary *)

(** A computation that prints nothing on standard error. *)
Definition mute {A : Type} (m : M A) : Prop :=
  forall st, w_err (snd (snd (m st))) = w_err (snd st).

(** The way the program reports a failure: an ERROR entry in the log, a
    line on standard error, and the answer. *)
Definition report {A : Type} (target message line : string) (a : A) : M A :=
  logError target message ;;; cerr line ;;; ret a.

(** What a reported failure leaves of the state [st]: the logger on its
    file, standard output as it was, one more line on standard error,
    one more ERROR entry in the log, and a tree that differs at most by
    the text added to the log file. *)
Record failure_reported (target message line : string) (st st' : St) : Prop :=
  mkFailureReported {
  reported_path : logFilePath_ (fst st') = logFilePath_ (fst st);
  reported_out : w_out (snd st') = w_out (snd st);
  reported_err : w_err (snd st') = w_err (snd st) +:+ line;
  reported_log : forall t, log_text st = Some t ->
                 log_text st' = Some (t +:+ error_line (w_now (snd st)) target message);
  reported_tree : quiet (logFilePath_ (fst st)) nowhere (snd st) (snd st')
}.

(** What is left of the nodes that are no supported picture: a path that
    held such a node holds the same node, except that text may have been
    added at the end of the log file. *)
Definition spared (lp : string) (w w1 : World) : Prop :=
  forall q, is_Some (w_fs w !! q) -> supported_file w q = false ->
    w_fs w1 !! q = w_fs w !! q
    \/ (q = lp /\ exists d s, w_fs w !! q = Some (File d)
                             /\ w_fs w1 !! q = Some (File (d +:+ s))).

(** A computation that leaves the logger on its file and spares what is
    no supported picture. *)
Definition spares (lp : string) {A : Type} (m : M A) : Prop :=
  forall lg w, logFilePath_ lg = lp ->
    logFilePath_ (fst (snd (m (lg, w)))) = lp
    /\ spared lp w (snd (snd (m (lg, w)))).

(** The arguments are one token that clears the log. *)
Definition clears_log (args : list string) : bool :=
  match args with
  | [a] => is_clear_token a
  | _ => false
  end.

(** The paths a run is given: its arguments and, when there is one
    argument, the entries of the directory it names. *)
Definition given (args : list string) (q : string) : Prop :=
  In q args \/ exists d, args = [d] /\ is_entry_of d q = true.

(** What is left of the nodes away from the paths that [allowed] names:
    a path that held a node holds the same node, except that text may
    have been added at the end of the log file. *)
Definition confined (allowed : string -> Prop) (lp : string) (w w1 : World) : Prop :=
  forall q, is_Some (w_fs w !! q) -> ~ allowed q ->
    w_fs w1 !! q = w_fs w !! q
    \/ (q = lp /\ exists d s, w_fs w !! q = Some (File d)
                             /\ w_fs w1 !! q = Some (File (d +:+ s))).

Definition confines (allowed : string -> Prop) (lp : string) {A : Type} (m : M A)
  : Prop :=
  forall lg w, logFilePath_ lg = lp ->
    logFilePath_ (fst (snd (m (lg, w)))) = lp
    /\ confined allowed lp w (snd (snd (m (lg, w)))).

(** [main]: the arguments after the program's name go to
    [runApplication]. *)
Definition main (argv : list string) (w : World) : outcome nat * World :=
  runApplication (tl argv) w.

(** * Properties *)

(** ** Strings *)

Lemma str_app_cons (x : ascii) (a b : string) :
  String x a +:+ b = String x (a +:+ b).
Proof. reflexivity. Qed.

Lemma str_app_assoc (a b c : string) : (a +:+ b) +:+ c = a +:+ (b +:+ c).
Proof.
  induction a as [|x a IH]; [reflexivity|].
  rewrite !str_app_cons. f_equal. exact IH.
Qed.

Lemma str_app_nil_r (a : string) : a +:+ "" = a.
Proof.
  induction a as [|x a IH]; [reflexivity|].
  rewrite str_app_cons. f_equal. exact IH.
Qed.

(** ** Paths *)

Section PathFacts.

Import Path.

Lemma filename_no_sep (p : string) : has_sep (filename p) = false.
Proof.
  induction p as [|c r IH]; simpl; [reflexivity|].
  destruct (has_sep r) eqn:Hr; [exact IH|].
  destruct (is_sep c) eqn:Hc; [exact Hr|].
  simpl. rewrite Hc, Hr. reflexivity.
Qed.

Lemma filename_not_absolute (p : string) : is_absolute (filename p) = false.
Proof.
  pose proof (filename_no_sep p) as H.
  destruct (filename p) as [|c r]; simpl in *; [reflexivity|].
  apply orb_false_iff in H. tauto.
Qed.

Lemma last_dot_suffix_no_dot (s : string) :
  has_dot s = false -> last_dot_suffix s = None.
Proof.
  induction s as [|c r IH]; simpl; intros H; [reflexivity|].
  apply orb_false_iff in H as [Hc Hr].
  rewrite (IH Hr), Hc. reflexivity.
Qed.

(** A leading period followed by no other period is no extension. *)
Lemma extension_hidden (p rest : string) :
  filename p = String dot rest -> has_dot rest = false -> extension p = "".
Proof.
  intros Hf Hd. unfold extension. rewrite Hf.
  rewrite (last_dot_suffix_no_dot _ Hd).
  destruct (String.eqb (String dot rest) ".."); reflexivity.
Qed.

Lemma extension_empty_filename (p : string) :
  filename p = "" -> extension p = "".
Proof. intros H. unfold extension. rewrite H. reflexivity. Qed.

Lemma length_app (a b : string) :
  String.length (a +:+ b) = String.length a + String.length b.
Proof. induction a as [|c a IH]; simpl; [reflexivity|]. rewrite IH. reflexivity. Qed.

Lemma length_substring_le (n m : nat) (s : string) :
  String.length (substring n m s) <= String.length s.
Proof.
  revert n m. induction s as [|c r IH]; intros n m.
  - destruct n, m; simpl; lia.
  - destruct n as [|n].
    + destruct m as [|m]; simpl; [lia|]. specialize (IH 0 m). lia.
    + simpl. specialize (IH n m). lia.
Qed.

Lemma length_strip_trailing_seps (s : string) :
  String.length (strip_trailing_seps s) <= String.length s.
Proof.
  induction s as [|c r IH]; simpl; [lia|].
  destruct (strip_trailing_seps r) as [|c' r'].
  - destruct (is_sep c); simpl; lia.
  - simpl in *. lia.
Qed.

Lemma length_parent_path (p : string) :
  String.length (parent_path p) <= String.length p.
Proof.
  unfold parent_path.
  pose proof (length_substring_le 0 (String.length p - String.length (filename p)) p) as Hd.
  destruct (substring 0 (String.length p - String.length (filename p)) p) as [|c d] eqn:E.
  - simpl. lia.
  - pose proof (length_strip_trailing_seps (String c d)) as Hs.
    destruct (strip_trailing_seps (String c d)).
    + simpl in *. lia.
    + lia.
Qed.

Lemma length_substring_bound (m : nat) (s : string) :
  String.length (substring 0 m s) <= m.
Proof.
  revert m. induction s as [|c r IH]; intros m.
  - destruct m; simpl; lia.
  - destruct m as [|m]; simpl; [lia|]. specialize (IH m). lia.
Qed.

Lemma substring_whole (s : string) : substring 0 (String.length s) s = s.
Proof. induction s as [|c r IH]; simpl; [reflexivity|]. rewrite IH. reflexivity. Qed.

Lemma has_sep_not_empty (r : string) : has_sep r = true -> 0 < String.length r.
Proof. destruct r; simpl; [discriminate|lia]. Qed.

(** A path that ends in a separator loses at least it. *)
Lemma strip_trailing_seps_shorter (p : string) :
  p <> "" -> filename p = "" ->
  String.length (strip_trailing_seps p) < String.length p.
Proof.
  induction p as [|c r IH]; [congruence|]. intros _. simpl.
  destruct (has_sep r) eqn:Hr.
  - intros Hf. pose proof (has_sep_not_empty r Hr) as Hlen.
    assert (r <> "") as Hne by (destruct r; simpl in *; [lia|discriminate]).
    specialize (IH Hne Hf).
    destruct (strip_trailing_seps r) as [|c' r'].
    + destruct (is_sep c); simpl; lia.
    + simpl in *. lia.
  - destruct (is_sep c) eqn:Hc; [|discriminate].
    intros ->. simpl. rewrite ?Hc. simpl. lia.
Qed.

Lemma length_filename (p : string) : String.length (filename p) <= String.length p.
Proof.
  induction p as [|c r IH]; simpl; [lia|].
  destruct (has_sep r); [lia|]. destruct (is_sep c); simpl; lia.
Qed.

(** Only the root directory and the empty path are their own parent;
    the parent of every other path is shorter. *)
Lemma parent_path_shorter (p : string) :
  parent_path p = p \/ String.length (parent_path p) < String.length p.
Proof.
  unfold parent_path.
  destruct (filename p) as [|fc fr] eqn:Hf.
  - rewrite Nat.sub_0_r. rewrite (substring_whole p).
    destruct p as [|c r]; [left; reflexivity|].
    pose proof (strip_trailing_seps_shorter (String c r)) as Hs.
    specialize (Hs ltac:(discriminate) Hf).
    destruct (strip_trailing_seps (String c r)) as [|c' r'] eqn:E.
    + destruct r as [|c2 r2].
      * left. simpl in Hf. destruct (is_sep c) eqn:Hc; [|discriminate].
        unfold is_sep in Hc. apply Ascii.eqb_eq in Hc. subst c. reflexivity.
      * right. simpl. lia.
    + right. exact Hs.
  - right. pose proof (length_filename p) as Hle. rewrite Hf in Hle.
    pose proof (length_substring_bound
                  (String.length p - String.length (String fc fr)) p) as Hd.
    destruct (substring 0 (String.length p - String.length (String fc fr)) p)
      as [|c d] eqn:E.
    + simpl in *. lia.
    + pose proof (length_strip_trailing_seps (String c d)) as Hs.
      destruct (strip_trailing_seps (String c d)); simpl in *; lia.
Qed.

(** Appending a name makes a path longer. *)
Lemma length_append_name (d name : string) :
  is_absolute name = false -> name <> "" ->
  String.length d < String.length (d </> name).
Proof.
  intros Ha Hn. unfold append. rewrite Ha.
  assert (0 < String.length name) by (destruct name; simpl; [congruence|lia]).
  destruct (has_filename d); rewrite !length_app; simpl; lia.
Qed.

End PathFacts.

(** The path operations on the examples of the C++ standard. *)
Example path_decomposition :
  map Path.filename ["F/photo.png"; "/"; "a/"; "."; "/a/b.c"]
  = ["photo.png"; ""; ""; "."; "b.c"]
  /\ map Path.extension ["a.b.c"; "a."; ".."; "."; "..a"; "x/.a.b"; "a.b/c"; "F/.png"]
     = [".c"; "."; ""; ""; ".a"; ".b"; ""; ""]
  /\ map Path.stem ["a.b.c"; "a."; ".."; "."; "..a"; "x/.a.b"; "a.b/c"; "F/.png"]
     = ["a.b"; "a"; ".."; "."; "."; ".a"; "c"; ".png"]
  /\ map Path.parent_path ["/a"; "/"; "a"; "a/b/"; "a//b"; ""; "/a/b"]
     = ["/"; "/"; ""; "a/b"; "a"; ""; "/a"]
  /\ ["" </> "photo"; "/" </> "x"; "a" </> ""; "a/" </> "b"; "a" </> "/b"]
     = ["photo"; "/x"; "a/"; "a/b"; "/b"].
Proof. repeat split; reflexivity. Qed.

Example mover_destination :
  destinationFolder "F/photo.png" = "F/photo"
  /\ destinationFile "F/photo.png" = "F/photo/photo.png"
  /\ destinationFile "holiday.JPG" = "holiday/holiday.JPG".
Proof. repeat split; reflexivity. Qed.


(** ** Classifier *)

Lemma tolower_char (a b : ascii) :
  is_upper a = false -> (tolower b = a <-> b = a \/ capital_of b a).
Proof.
  unfold is_upper, tolower, capital_of. intros Ha.
  pose proof (nat_ascii_bounded b) as Hb.
  pose proof (nat_ascii_bounded a) as Hab.
  destruct ((65 <=? nat_of_ascii b)%nat && (nat_of_ascii b <=? 90)%nat)%bool eqn:Hu.
  - apply andb_true_iff in Hu as [H1 H2].
    apply Nat.leb_le in H1, H2. split.
    + intros <-. right. rewrite nat_ascii_embedding by lia. lia.
    + intros [->|[Hr He]].
      * rewrite (proj2 (andb_true_iff _ _)) in Ha; [discriminate|].
        split; apply Nat.leb_le; assumption.
      * rewrite He. apply ascii_nat_embedding.
  - split.
    + intros ->. left. reflexivity.
    + intros [->|[Hr He]]; [reflexivity|].
      apply andb_false_iff in Hu as [Hu|Hu]; apply Nat.leb_gt in Hu; lia.
Qed.

Lemma toLowerCopy_case_variation (e x : string) :
  no_upper e = true -> (toLowerCopy x = e <-> case_variation e x).
Proof.
  revert x. induction e as [|a e IH]; intros x Hn.
  - destruct x; simpl; split; intros H; try reflexivity; try discriminate; tauto.
  - simpl in Hn. apply andb_true_iff in Hn as [Ha He].
    apply negb_true_iff in Ha.
    destruct x as [|b x]; simpl.
    + split; [discriminate|tauto].
    + rewrite <- (IH x He), <- (tolower_char a b Ha). split.
      * intros H. injection H as H1 H2. tauto.
      * intros [H1 H2]. congruence.
Qed.

Lemma isImageFile_In (p : string) :
  isImageFile p = true <-> In (toLowerCopy (Path.extension p)) kExtensions.
Proof.
  unfold isImageFile. rewrite Nat.ltb_lt. symmetry. apply count_occ_In.
Qed.

Lemma isImageFile_has_filename (p : string) :
  isImageFile p = true -> Path.filename p <> "".
Proof.
  intros H Hf. unfold isImageFile in H.
  rewrite (extension_empty_filename p Hf) in H. discriminate.
Qed.

(** C8. The classifier accepts a path exactly when the lower-cased
    extension is one of .jpg, .jpeg, .png, .bmp, .webp, that is, exactly
    when the extension is one of the five up to the case of its letters;
    it is a total function of the path alone, and rejects everything
    else. *)
Theorem classifier_accepts_exactly (p : string) :
  (isImageFile p = true <->
     In (toLowerCopy (Path.extension p)) [".jpg"; ".jpeg"; ".png"; ".bmp"; ".webp"])
  /\ (isImageFile p = true <->
        exists e, In e [".jpg"; ".jpeg"; ".png"; ".bmp"; ".webp"]
                  /\ case_variation e (Path.extension p))
  /\ (isImageFile p = false <->
        ~ In (toLowerCopy (Path.extension p)) [".jpg"; ".jpeg"; ".png"; ".bmp"; ".webp"]).
Proof.
  pose proof (isImageFile_In p) as HI. change kExtensions
    with [".jpg"; ".jpeg"; ".png"; ".bmp"; ".webp"] in HI.
  split; [exact HI|]. split.
  - rewrite HI. split.
    + intros H. exists (toLowerCopy (Path.extension p)). split; [exact H|].
      apply toLowerCopy_case_variation; [|reflexivity].
      simpl in H. repeat (destruct H as [<-|H]; [reflexivity|]). contradiction.
    + intros [e [He Hv]].
      assert (no_upper e = true) as Hn.
      { simpl in He. repeat (destruct He as [<-|He]; [reflexivity|]). contradiction. }
      apply (toLowerCopy_case_variation e _ Hn) in Hv. rewrite Hv. exact He.
  - rewrite <- HI. destruct (isImageFile p); split; intros H; congruence.
Qed.

(** ** What logging and the console touch *)

Section Frames.

Variable lp : string.

Lemma quiet_refl (n : string -> Prop) (w : World) : quiet lp n w w.
Proof. constructor; try reflexivity. intros q. left. reflexivity. Qed.

Lemma above_refl (dir : string) : above dir dir.
Proof. exists 0. reflexivity. Qed.

Lemma above_parent (dir q : string) :
  above (Path.parent_path dir) q -> above dir q.
Proof. intros [k ->]. exists (S k). symmetry. apply Nat.iter_succ_r. Qed.

Lemma above_length (dir q : string) :
  above dir q -> String.length q <= String.length dir.
Proof.
  intros [k ->]. induction k as [|k IH]; simpl; [lia|].
  pose proof (length_parent_path (Nat.iter k Path.parent_path dir)). lia.
Qed.

Lemma above_trans (a b c : string) : above a b -> above b c -> above a c.
Proof.
  intros [j Hj] [k Hk]. exists (k + j). rewrite Nat.iter_add, <- Hj. exact Hk.
Qed.

Lemma quiet_mono (n m : string -> Prop) (w w' : World) :
  (forall q, n q -> m q) -> quiet lp n w w' -> quiet lp m w w'.
Proof.
  intros Hnm [H1 H2 H3 H4 H5 H6]. constructor; try assumption.
  intros q. destruct (H6 q) as [H|[H|(Ha & Hb & Hc)]].
  - left. exact H.
  - right. left. exact H.
  - right. right. repeat split; try assumption. apply Hnm. exact Hc.
Qed.

Lemma quiet_trans (n : string -> Prop) (w1 w2 w3 : World) :
  quiet lp n w1 w2 -> quiet lp n w2 w3 -> quiet lp n w1 w3.
Proof.
  intros [A1 A2 A3 A4 A5 A6] [B1 B2 B3 B4 B5 B6].
  constructor; try congruence.
  intros q. specialize (A6 q). specialize (B6 q). unfold path_kept in *.
  destruct B6 as [B|[(Bq & d & s & Bo & Bn)|(Bo & Bn & Bl)]].
  - rewrite B. exact A6.
  - destruct A6 as [A|[(Aq & d' & s' & Ao & An)|(Ao & An & Al)]].
    + right. left. split; [exact Bq|]. exists d, s. split; congruence.
    + right. left. split; [exact Bq|]. exists d', (s' +:+ s).
      split; [exact Ao|]. rewrite Bn. f_equal. f_equal.
      assert (d = d' +:+ s') by congruence. subst d.
      apply str_app_assoc.
    + congruence.
  - destruct A6 as [A|[(Aq & d' & s' & Ao & An)|(Ao & An & Al)]].
    + right. right. repeat split; congruence.
    + congruence.
    + congruence.
Qed.

Lemma quiet_add_out (n : string -> Prop) (s : string) (w : World) : quiet lp n w (add_out s w).
Proof. constructor; try reflexivity. intros q. left. reflexivity. Qed.

Lemma quiet_add_err (n : string -> Prop) (s : string) (w : World) : quiet lp n w (add_err s w).
Proof. constructor; try reflexivity. intros q. left. reflexivity. Qed.

Lemma quiet_write_append (n : string -> Prop) (s : string) (w : World) :
  quiet lp n w (write_append lp s w).
Proof.
  unfold write_append.
  destruct (w_fs w !! lp) as [[d|]|] eqn:E; try apply quiet_refl.
  constructor; try reflexivity.
  intros q. simpl. destruct (decide (lp = q)) as [<-|Hne].
  - right. left. split; [reflexivity|]. exists d, s.
    rewrite lookup_insert_eq. split; [exact E|reflexivity].
  - left. apply lookup_insert_ne. exact Hne.
Qed.

End Frames.

(** ** The state monad *)

Lemma bind_eq {A B : Type} (m : M A) (k : A -> M B) (st : St) :
  bind m k st = k (fst (m st)) (snd (m st)).
Proof. unfold bind. destruct (m st). reflexivity. Qed.

Section Keeps.

Variable lp : string.
Variable n : string -> Prop.

Lemma keeps_ret {A : Type} (a : A) : keeps lp n (ret a).
Proof. intros lg w H. simpl. split; [exact H|apply quiet_refl]. Qed.

Lemma keeps_bind {A B : Type} (m : M A) (k : A -> M B) :
  keeps lp n m -> (forall a, keeps lp n (k a)) -> keeps lp n (bind m k).
Proof.
  intros Hm Hk lg w H. rewrite bind_eq.
  destruct (Hm lg w H) as [H1 H2].
  destruct (m (lg, w)) as [a [lg' w']]. simpl in *.
  destruct (Hk a lg' w' H1) as [H3 H4].
  split; [exact H3|]. eapply quiet_trans; eassumption.
Qed.

Lemma keeps_get_world : keeps lp n get_world.
Proof. intros lg w H. simpl. split; [exact H|apply quiet_refl]. Qed.

Lemma keeps_get_logger : keeps lp n get_logger.
Proof. intros lg w H. simpl. split; [exact H|apply quiet_refl]. Qed.

Lemma keeps_cout (s : string) : keeps lp n (cout s).
Proof. intros lg w H. simpl. split; [exact H|apply quiet_add_out]. Qed.

Lemma keeps_cerr (s : string) : keeps lp n (cerr s).
Proof. intros lg w H. simpl. split; [exact H|apply quiet_add_err]. Qed.

Lemma keeps_stream_put (line : string) : keeps lp n (stream_put line).
Proof.
  intros lg w H. unfold stream_put.
  destruct (stream_ lg) as [pending|]; simpl.
  - destruct (w_bufsiz w <? String.length (pending +:+ line))%nat; simpl.
    + split; [exact H|]. rewrite H. apply quiet_write_append.
    + split; [exact H|apply quiet_refl].
  - split; [exact H|apply quiet_refl].
Qed.

Lemma keeps_logError (target message : string) : keeps lp n (logError target message).
Proof.
  unfold logError. apply keeps_bind; [apply keeps_get_world|].
  intros w. apply keeps_stream_put.
Qed.

Lemma keeps_logInfo (message : string) : keeps lp n (logInfo message).
Proof.
  unfold logInfo. apply keeps_bind; [apply keeps_get_world|].
  intros w. apply keeps_stream_put.
Qed.

(** The way every failure is reported: a log entry, a line on standard
    error, and the result. *)
Lemma keeps_report {A : Type} (target message line : string) (a : A) :
  keeps lp n (logError target message ;;; cerr line ;;; ret a).
Proof.
  apply keeps_bind; [apply keeps_logError|]. intros _.
  apply keeps_bind; [apply keeps_cerr|]. intros _. apply keeps_ret.
Qed.

End Keeps.

Lemma fst_report {A : Type} (target message line : string) (a : A) (st : St) :
  fst ((logError target message ;;; cerr line ;;; ret a) st) = a.
Proof. rewrite !bind_eq. reflexivity. Qed.

(** What [quiet] keeps of the tree. *)
Lemma quiet_regular (lp : string) (n : string -> Prop) (w w' : World) (p : string) :
  quiet lp n w w' -> is_regular_file w p = true -> is_regular_file w' p = true.
Proof.
  intros Hq. unfold is_regular_file, status.
  destruct (String.eqb p ""); [discriminate|].
  destruct (quiet_tree _ _ _ _ Hq p) as [->|[(_ & d & s & -> & ->)|(-> & _)]];
    [tauto|reflexivity|discriminate].
Qed.

Lemma quiet_exists_long (lp n : string) (w w' : World) (p : string) :
  quiet lp (above n) w w' -> String.length n < String.length p ->
  fs_exists w' p = fs_exists w p.
Proof.
  intros Hq Hl. unfold fs_exists, status.
  destruct (String.eqb p ""); [reflexivity|].
  destruct (quiet_tree _ _ _ _ Hq p) as [->|[(_ & d & s & -> & ->)|(_ & _ & Hn)]];
    [reflexivity|reflexivity|apply above_length in Hn; lia].
Qed.

Lemma quiet_lookup_other (lp : string) (n : string -> Prop) (w w' : World) (p : string) :
  quiet lp n w w' -> p <> lp -> is_Some (w_fs w !! p) -> w_fs w' !! p = w_fs w !! p.
Proof.
  intros Hq Hne [x Hx].
  destruct (quiet_tree _ _ _ _ Hq p) as [H|[(Hp & _)|(Ho & _)]];
    [exact H|contradiction|congruence].
Qed.

(** ** Creating directories *)

Section CreateDirectories.

Variable lp : string.

Lemma missing_dirs_above (fuel : nat) (w : World) :
  forall pp l, missing_dirs fuel w pp = inr l -> Forall (above pp) l.
Proof.
  induction fuel as [|fuel IH]; intros pp l; simpl; [discriminate|].
  set (rest := if String.eqb (Path.parent_path pp) ""
                  || String.eqb (Path.parent_path pp) pp then inr []
               else match status w (Path.parent_path pp) with
                    | Some (File _) => inl "Not a directory"
                    | Some Dir => inr []
                    | None => missing_dirs fuel w (Path.parent_path pp)
                    end).
  assert (forall l', rest = inr l' -> Forall (above pp) l') as Hrest.
  { intros l' Hl'. subst rest.
    destruct (String.eqb (Path.parent_path pp) ""
              || String.eqb (Path.parent_path pp) pp).
    - injection Hl' as <-. constructor.
    - destruct (status w (Path.parent_path pp)) as [[d|]|].
      + discriminate.
      + injection Hl' as <-. constructor.
      + apply IH in Hl'. eapply Forall_impl; [exact Hl'|].
        simpl. intros q Hq. apply above_parent. exact Hq. }
  destruct (is_dot_or_dotdot (Path.filename pp)).
  - intros H. apply Hrest. exact H.
  - destruct rest as [e|l'] eqn:E; [discriminate|].
    intros H. injection H as <-. constructor; [apply above_refl|].
    apply Hrest. reflexivity.
Qed.

(** More fuel than the path has characters changes nothing. *)
Lemma missing_dirs_fuel (w : World) (n : nat) :
  forall fuel1 fuel2 pp,
    String.length pp <= n ->
    String.length pp < fuel1 -> String.length pp < fuel2 ->
    missing_dirs fuel1 w pp = missing_dirs fuel2 w pp.
Proof.
  induction n as [|n IH]; intros fuel1 fuel2 pp Hn H1 H2;
    (destruct fuel1 as [|fuel1]; [lia|]); (destruct fuel2 as [|fuel2]; [lia|]);
    simpl.
  - destruct pp; [|simpl in Hn; lia]. reflexivity.
  - destruct (String.eqb (Path.parent_path pp) "") eqn:E1; [reflexivity|].
    destruct (String.eqb (Path.parent_path pp) pp) eqn:E2; [reflexivity|].
    apply String.eqb_neq in E2. simpl.
    destruct (parent_path_shorter pp) as [Heq|Hlt]; [congruence|].
    destruct (status w (Path.parent_path pp)) as [[d|]|]; try reflexivity.
    rewrite (IH fuel1 fuel2 (Path.parent_path pp)) by lia. reflexivity.
Qed.

Lemma create_directory_quiet (n : string) (w : World) (q : string) :
  above n q -> quiet lp (above n) w (snd (create_directory w q)).
Proof.
  intros Hq. unfold create_directory, status.
  destruct (String.eqb q "") eqn:Hempty; [apply quiet_refl|].
  destruct (w_fs w !! q) as [[d|]|] eqn:E; simpl; try apply quiet_refl.
  destruct (w_fails w (Mkdir q)); simpl; [apply quiet_refl|].
  constructor; try reflexivity. intros q'. simpl.
  destruct (decide (q = q')) as [<-|Hne].
  - right. right. rewrite lookup_insert_eq. repeat split; assumption.
  - left. apply lookup_insert_ne. exact Hne.
Qed.

Lemma create_all_quiet (n : string) (todo : list string) :
  Forall (above n) todo ->
  forall w, quiet lp (above n) w (snd (create_all todo w)).
Proof.
  induction 1 as [|q todo Hq _ IH]; intros w; simpl; [apply quiet_refl|].
  pose proof (create_directory_quiet n w q Hq) as H1.
  destruct (create_directory w q) as [[e|] w']; simpl in *; [exact H1|].
  eapply quiet_trans; [exact H1|apply IH].
Qed.

Lemma create_directories_quiet (w : World) (p : string) :
  quiet lp (above p) w (snd (create_directories w p)).
Proof.
  unfold create_directories.
  destruct (String.eqb p ""); [apply quiet_refl|].
  destruct (status w p) as [[d|]|]; try apply quiet_refl.
  set (pp := if Path.has_relative_path p && negb (Path.has_filename p)
             then Path.parent_path p else p).
  assert (above p pp) as Hpp.
  { subst pp. destruct (Path.has_relative_path p && negb (Path.has_filename p));
      [apply above_parent|]; apply above_refl. }
  destruct (missing_dirs (S (String.length pp)) w pp) as [e|missing] eqn:E;
    [apply quiet_refl|].
  destruct (1000 <? List.length missing)%nat; [apply quiet_refl|].
  apply missing_dirs_above in E.
  apply (quiet_mono lp (above pp) (above p));
    [intros q Hq; eapply above_trans; eassumption|].
  apply create_all_quiet. apply Forall_rev. exact E.
Qed.

Lemma keeps_create_directories (dir : string) :
  keeps lp (above dir) (lift_os (fun w => create_directories w dir)).
Proof.
  intros lg w H. unfold lift_os. simpl.
  pose proof (create_directories_quiet w dir) as Hq.
  destruct (create_directories w dir) as [ec w']. simpl in *.
  split; [exact H|exact Hq].
Qed.

Lemma keeps_ensureDirectory (dir : string) :
  keeps lp (above dir) (ensureDirectory dir).
Proof.
  unfold ensureDirectory.
  apply keeps_bind; [apply keeps_get_world|]. intros w.
  destruct (fs_exists w dir).
  - destruct (negb (is_directory w dir)); [apply keeps_report|apply keeps_ret].
  - apply keeps_bind; [apply keeps_create_directories|].
    intros [msg|]; [apply keeps_report|apply keeps_ret].
Qed.

End CreateDirectories.

(** [ensureDirectory] succeeds exactly when the folder is available, and
    then says nothing. *)
Lemma ensureDirectory_result (dir : string) (lg : Logger) (w : World) :
  fst (ensureDirectory dir (lg, w)) = folder_available w dir.
Proof.
  unfold ensureDirectory, folder_available. rewrite bind_eq. simpl.
  unfold is_directory, fs_exists.
  destruct (status w dir) as [[d|]|] eqn:E; simpl.
  - apply fst_report.
  - reflexivity.
  - rewrite bind_eq. unfold lift_os. simpl.
    destruct (create_directories w dir) as [[msg|] w']; simpl;
      [apply fst_report|reflexivity].
Qed.

Lemma ensureDirectory_logger (dir : string) (lg : Logger) (w : World) :
  fst (ensureDirectory dir (lg, w)) = true ->
  fst (snd (ensureDirectory dir (lg, w))) = lg.
Proof.
  unfold ensureDirectory. rewrite bind_eq. simpl.
  destruct (fs_exists w dir).
  - destruct (negb (is_directory w dir)); [rewrite fst_report; discriminate|reflexivity].
  - rewrite bind_eq. unfold lift_os. simpl.
    destruct (create_directories w dir) as [[msg|] w']; simpl;
      [rewrite fst_report; discriminate|reflexivity].
Qed.

(** ** Mover *)

Lemma destinationFile_longer (p : string) :
  isImageFile p = true ->
  String.length (destinationFolder p) < String.length (destinationFile p).
Proof.
  intros H. unfold destinationFile. apply length_append_name.
  - apply filename_not_absolute.
  - apply isImageFile_has_filename. exact H.
Qed.

Lemma regular_exists (w : World) (p : string) :
  is_regular_file w p = true -> fs_exists w p = true.
Proof. unfold is_regular_file, fs_exists. destruct (status w p) as [[d|]|]; congruence. Qed.

(** The world in which the mover looks at the destination file and
    renames: the one [ensureDirectory] leaves. *)
Lemma ensureDirectory_world (p : string) (lg : Logger) (w : World) :
  fst (ensureDirectory (destinationFolder p) (lg, w)) = true ->
  exists w1, snd (ensureDirectory (destinationFolder p) (lg, w)) = (lg, w1)
             /\ quiet (logFilePath_ lg) (above (destinationFolder p)) w w1.
Proof.
  intros H.
  pose proof (ensureDirectory_logger _ _ _ H) as Hlg.
  destruct (keeps_ensureDirectory (logFilePath_ lg) (destinationFolder p)
              lg w eq_refl) as [_ Hq].
  destruct (snd (ensureDirectory (destinationFolder p) (lg, w))) as [lg1 w1].
  simpl in *. subst lg1. exists w1. split; [reflexivity|exact Hq].
Qed.

Lemma moveFileToFolder_result (p : string) (lg : Logger) (w : World) :
  fst (moveFileToFolder p (lg, w)) =
    is_regular_file w p && isImageFile p
    && folder_available w (destinationFolder p)
    && negb (fs_exists w (destinationFile p))
    && rename_allowed w p (destinationFile p).
Proof.
  unfold moveFileToFolder. rewrite bind_eq. simpl.
  destruct (is_regular_file w p) eqn:Hreg.
  2:{ simpl. destruct (fs_exists w p); simpl; apply fst_report. }
  rewrite (regular_exists _ _ Hreg). simpl.
  destruct (isImageFile p) eqn:Himg; simpl.
  2:{ rewrite bind_eq. reflexivity. }
  rewrite bind_eq.
  pose proof (ensureDirectory_result (destinationFolder p) lg w) as Hres.
  destruct (folder_available w (destinationFolder p)) eqn:Hav; rewrite Hres; simpl.
  2:{ reflexivity. }
  destruct (ensureDirectory_world p lg w Hres) as (w1 & Hst & Hq).
  rewrite Hst. rewrite bind_eq. simpl.
  rewrite (quiet_exists_long _ _ _ _ _ Hq (destinationFile_longer p Himg)).
  destruct (fs_exists w (destinationFile p)); simpl; [apply fst_report|].
  rewrite bind_eq. unfold lift_os, rename, rename_allowed. simpl.
  pose proof (quiet_regular _ _ _ _ p Hq Hreg) as Hreg1.
  unfold is_regular_file in Hreg1.
  destruct (status w1 p) as [[d|]|]; try discriminate.
  rewrite (quiet_fails _ _ _ _ Hq).
  destruct (w_fails w (Rename p (destinationFile p))); simpl.
  - apply fst_report.
  - rewrite !bind_eq. reflexivity.
Qed.

(** When the mover answers [false], the world is [quiet]. *)
Lemma moveFileToFolder_failed (p : string) (lg : Logger) (w : World) :
  fst (moveFileToFolder p (lg, w)) = false ->
  logFilePath_ (fst (snd (moveFileToFolder p (lg, w)))) = logFilePath_ lg
  /\ quiet (logFilePath_ lg) (above (destinationFolder p)) w
           (snd (snd (moveFileToFolder p (lg, w)))).
Proof.
  set (lp := logFilePath_ lg). set (n := above (destinationFolder p)).
  unfold moveFileToFolder. rewrite bind_eq. simpl.
  destruct (negb (fs_exists w p)); [intros _; apply keeps_report; reflexivity|].
  destruct (negb (is_regular_file w p)); [intros _; apply keeps_report; reflexivity|].
  destruct (negb (isImageFile p)).
  { intros _. apply (keeps_bind lp n); [apply keeps_logInfo|intros; apply keeps_ret|reflexivity]. }
  rewrite bind_eq.
  destruct (keeps_ensureDirectory lp (destinationFolder p) lg w eq_refl)
    as [Hl1 Hq1].
  destruct (ensureDirectory (destinationFolder p) (lg, w)) as [ok [lg1 w1]].
  simpl in Hl1, Hq1. simpl.
  destruct ok; simpl; [|intros _; split; assumption].
  rewrite bind_eq. simpl.
  destruct (fs_exists w1 (destinationFile p)).
  { intros _.
    destruct (keeps_report lp n (destinationFile p) "Destination file already exists."
                ("Destination already exists: " +:+ destinationFile p +:+ nl) false
                lg1 w1 Hl1) as [Hl2 Hq2].
    split; [exact Hl2|]. eapply quiet_trans; eassumption. }
  rewrite bind_eq. unfold lift_os, rename. simpl.
  destruct (status w1 p) as [x|]; simpl.
  - destruct (w_fails w1 (Rename p (destinationFile p))) as [msg|]; simpl.
    + intros _.
      destruct (keeps_report lp n (destinationFile p) ("Failed to move file: " +:+ msg)
                  ("Failed to move '" +:+ p +:+ "': " +:+ msg +:+ nl) false
                  lg1 w1 Hl1) as [Hl2 Hq2].
      split; [exact Hl2|]. eapply quiet_trans; eassumption.
    + rewrite !bind_eq. simpl. discriminate.
  - intros _.
    destruct (keeps_report lp n (destinationFile p)
                ("Failed to move file: " +:+ "No such file or directory")
                ("Failed to move '" +:+ p +:+ "': " +:+ "No such file or directory" +:+ nl)
                false lg1 w1 Hl1) as [Hl2 Hq2].
    split; [exact Hl2|]. eapply quiet_trans; eassumption.
Qed.

Lemma status_regular (w : World) (p : string) :
  is_regular_file w p = true -> exists d, status w p = Some (File d) /\ w_fs w !! p = Some (File d).
Proof.
  unfold is_regular_file, status.
  destruct (String.eqb p ""); [discriminate|].
  destruct (w_fs w !! p) as [[d|]|]; try discriminate. intros _. exists d. split; reflexivity.
Qed.

(** When the mover answers [true], the file has left its place and is at
    the destination. *)
Lemma moveFileToFolder_moved (p : string) (lg : Logger) (w : World) :
  fst (moveFileToFolder p (lg, w)) = true ->
  w_fs (snd (snd (moveFileToFolder p (lg, w)))) !! p = None
  /\ (logFilePath_ lg <> p -> logFilePath_ lg <> destinationFile p ->
      w_fs (snd (snd (moveFileToFolder p (lg, w)))) !! destinationFile p = w_fs w !! p).
Proof.
  intros Hmoved. pose proof Hmoved as Hres.
  rewrite moveFileToFolder_result in Hres.
  repeat (apply andb_true_iff in Hres as [Hres ?]).
  rename Hres into Hreg, H into Hallowed, H0 into Hfree, H1 into Hav, H2 into Himg.
  apply negb_true_iff in Hfree.
  assert (p <> destinationFile p) as Hne.
  { intros E. rewrite <- E in Hfree.
    rewrite (regular_exists _ _ Hreg) in Hfree. discriminate. }
  revert Hmoved. unfold moveFileToFolder. rewrite bind_eq. simpl.
  rewrite (regular_exists _ _ Hreg), Hreg, Himg. simpl.
  rewrite bind_eq.
  pose proof (ensureDirectory_result (destinationFolder p) lg w) as Hok.
  rewrite Hav in Hok. rewrite Hok. simpl.
  destruct (ensureDirectory_world p lg w Hok) as (w1 & Hst & Hq).
  rewrite Hst. rewrite bind_eq. simpl.
  rewrite (quiet_exists_long _ _ _ _ _ Hq (destinationFile_longer p Himg)), Hfree.
  simpl. rewrite bind_eq. unfold lift_os, rename. simpl.
  destruct (status_regular w1 p (quiet_regular _ _ _ _ p Hq Hreg)) as (d1 & Hs1 & Hl1).
  rewrite Hs1, (quiet_fails _ _ _ _ Hq).
  unfold rename_allowed in Hallowed.
  destruct (w_fails w (Rename p (destinationFile p))); [discriminate|]. simpl.
  intros _.
  assert (keeps (logFilePath_ lg) nowhere
            (logInfo ("Moved " +:+ p +:+ " to " +:+ destinationFolder p) ;;;
             cout ("Moved '" +:+ Path.filename p +:+ "' into '"
                   +:+ Path.filename (destinationFolder p) +:+ "'" +:+ nl) ;;;
             ret true)) as Hk.
  { apply keeps_bind; [apply keeps_logInfo|]. intros _.
    apply keeps_bind; [apply keeps_cout|]. intros _. apply keeps_ret. }
  destruct (Hk lg (set_fs (<[destinationFile p := File d1]> (delete p (w_fs w1))) w1)
              eq_refl) as [_ Hq2].
  split.
  - destruct (quiet_tree _ _ _ _ Hq2 p) as [H|[(_ & d & s' & Ho & _)|(_ & _ & [])]].
    + rewrite H. simpl.
      rewrite lookup_insert_ne by congruence. apply lookup_delete_eq.
    + simpl in Ho.
      rewrite lookup_insert_ne in Ho by congruence.
      rewrite lookup_delete_eq in Ho. discriminate.
  - intros Hlp Hld.
    destruct (quiet_tree _ _ _ _ Hq2 (destinationFile p)) as [H|[(E & _)|(_ & _ & [])]].
    + rewrite H. simpl. rewrite lookup_insert_eq.
      rewrite <- Hl1.
      apply (quiet_lookup_other _ _ _ _ _ Hq); [congruence|].
      destruct (status_regular w p Hreg) as (d & _ & Hl). rewrite Hl. eexists. reflexivity.
    + congruence.
Qed.

Lemma stream_put_text (line : string) (st : St) (t : string) :
  log_text st = Some t -> log_text (snd (stream_put line st)) = Some (t +:+ line).
Proof.
  destruct st as [lg w]. unfold log_text, stream_put. simpl.
  destruct (stream_ lg) as [pending|] eqn:Hs; [|discriminate].
  destruct (w_fs w !! logFilePath_ lg) as [[d|]|] eqn:Hf; try discriminate.
  intros H. injection H as <-.
  destruct (w_bufsiz w <? String.length (pending +:+ line))%nat; simpl.
  - unfold write_append. rewrite Hf. simpl. rewrite lookup_insert_eq.
    rewrite str_app_nil_r. f_equal. symmetry. apply str_app_assoc.
  - rewrite Hf. f_equal. symmetry. apply str_app_assoc.
Qed.

Lemma logInfo_text (message : string) (st : St) (t : string) :
  log_text st = Some t ->
  log_text (snd (logInfo message st))
  = Some (t +:+ info_line (w_now (snd st)) message).
Proof. unfold logInfo. rewrite bind_eq. simpl. apply stream_put_text. Qed.

Lemma logError_text (target message : string) (st : St) (t : string) :
  log_text st = Some t ->
  log_text (snd (logError target message st))
  = Some (t +:+ error_line (w_now (snd st)) target message).
Proof. unfold logError. rewrite bind_eq. simpl. apply stream_put_text. Qed.

(** C1, as the code has it.  The mover moves the file exactly when the
    path is a regular file, its extension is supported, the destination
    folder is there as a directory or can be created, nothing is at the
    destination path, and the operating system carries out the rename.
    On every failing outcome each path of the tree holds what it held,
    except that the log file may have grown and that the destination
    folder, with the folders above it, may have been created empty; a
    source that was a regular file still is, and nothing is at the
    destination path that was not there. *)
Theorem mover_moves_exactly_when (p : string) (lg : Logger) (w : World) :
  (moved p (lg, w) = true <->
     is_regular_file w p = true
     /\ isImageFile p = true
     /\ folder_available w (destinationFolder p) = true
     /\ fs_exists w (destinationFile p) = false
     /\ rename_allowed w p (destinationFile p) = true)
  /\ (moved p (lg, w) = true ->
        w_fs (after_move p (lg, w)) !! p = None
        /\ (logFilePath_ lg <> p -> logFilePath_ lg <> destinationFile p ->
            w_fs (after_move p (lg, w)) !! destinationFile p = w_fs w !! p))
  /\ (moved p (lg, w) = false ->
        (forall q, path_kept (logFilePath_ lg) (above (destinationFolder p))
                             (w_fs w !! q) (w_fs (after_move p (lg, w)) !! q) q)
        /\ (is_regular_file w p = true ->
            is_regular_file (after_move p (lg, w)) p = true)
        /\ (isImageFile p = true ->
            fs_exists (after_move p (lg, w)) (destinationFile p)
            = fs_exists w (destinationFile p))).
Proof.
  unfold moved, after_move. split; [|split].
  - rewrite moveFileToFolder_result. rewrite !andb_true_iff, negb_true_iff. tauto.
  - apply moveFileToFolder_moved.
  - intros H. destruct (moveFileToFolder_failed p lg w H) as [_ Hq].
    split; [exact (quiet_tree _ _ _ _ Hq)|]. split.
    + apply (quiet_regular _ _ _ _ _ Hq).
    + intros Himg. apply (quiet_exists_long _ _ _ _ _ Hq).
      apply destinationFile_longer. exact Himg.
Qed.

(** C1 as stated fails: conditions (a) to (d) all hold in this world and
    the file is not moved, because the rename is refused. *)
Lemma mover_not_moved_though_abcd :
  let st := Logger_new Sample.locked_folder in
  is_regular_file (snd st) "F/photo.png" = true
  /\ isImageFile "F/photo.png" = true
  /\ is_directory (snd st) (destinationFolder "F/photo.png") = true
  /\ fs_exists (snd st) (destinationFile "F/photo.png") = false
  /\ moved "F/photo.png" st = false
  /\ w_fs (after_move "F/photo.png" st) !! "F/photo.png" = Some (File "img").
Proof. vm_compute. repeat split; reflexivity. Qed.

Lemma exists_lookup (w : World) (p : string) :
  fs_exists w p = true -> is_Some (w_fs w !! p).
Proof.
  unfold fs_exists, status. destruct (String.eqb p ""); [discriminate|].
  destruct (w_fs w !! p) as [x|]; [eexists; reflexivity|discriminate].
Qed.

(** C6. When an entry already has the destination path, the move fails
    and neither the source nor that entry is touched: both paths hold
    exactly the node they held.  When the path is a supported regular
    file and the destination folder is a directory, the failure is the
    destination conflict: nothing else is done than to log the error
    (Destination file already exists) against the destination path and
    to print the message, and no directory is created. *)
Theorem destination_conflict (p : string) (lg : Logger) (w : World) :
  fs_exists w (destinationFile p) = true ->
  moved p (lg, w) = false
  /\ (logFilePath_ lg <> p -> is_Some (w_fs w !! p) ->
      w_fs (after_move p (lg, w)) !! p = w_fs w !! p)
  /\ (logFilePath_ lg <> destinationFile p ->
      w_fs (after_move p (lg, w)) !! destinationFile p = w_fs w !! destinationFile p)
  /\ (is_regular_file w p = true -> is_regular_file (after_move p (lg, w)) p = true)
  /\ (is_regular_file w p = true -> isImageFile p = true ->
      is_directory w (destinationFolder p) = true ->
      moveFileToFolder p (lg, w)
      = (false,
         snd ((logError (destinationFile p) "Destination file already exists." ;;;
               cerr ("Destination already exists: " +:+ destinationFile p +:+ nl) ;;;
               ret false) (lg, w)))
      /\ quiet (logFilePath_ lg) nowhere w (after_move p (lg, w))).
Proof.
  intros Hdest. unfold moved, after_move.
  assert (fst (moveFileToFolder p (lg, w)) = false) as Hfalse.
  { rewrite moveFileToFolder_result, Hdest. simpl.
    rewrite andb_false_r. reflexivity. }
  destruct (moveFileToFolder_failed p lg w Hfalse) as [_ Hq].
  split; [exact Hfalse|]. split; [|split; [|split]].
  - intros Hne Hsome. apply (quiet_lookup_other _ _ _ _ _ Hq); [congruence|exact Hsome].
  - intros Hne. apply (quiet_lookup_other _ _ _ _ _ Hq); [congruence|].
    apply exists_lookup. exact Hdest.
  - apply (quiet_regular _ _ _ _ _ Hq).
  - intros Hreg Himg Hdir.
    assert (moveFileToFolder p (lg, w)
            = (false,
               snd ((logError (destinationFile p) "Destination file already exists." ;;;
                     cerr ("Destination already exists: " +:+ destinationFile p +:+ nl) ;;;
                     ret false) (lg, w)))) as Heq.
    { unfold moveFileToFolder at 1. rewrite bind_eq. simpl.
      rewrite (regular_exists _ _ Hreg), Hreg, Himg. simpl.
      rewrite bind_eq. unfold ensureDirectory at 1 2. rewrite !bind_eq. simpl.
      assert (fs_exists w (destinationFolder p) = true) as Hex.
      { unfold is_directory in Hdir. unfold fs_exists.
        destruct (status w (destinationFolder p)) as [[d|]|]; congruence. }
      rewrite Hex, Hdir. simpl. rewrite bind_eq. simpl. rewrite Hdest.
      rewrite !bind_eq. reflexivity. }
    split; [exact Heq|]. rewrite Heq. simpl.
    apply (keeps_report (logFilePath_ lg) nowhere _ _ _ false lg w eq_refl).
Qed.

Lemma destination_conflict_witness :
  let lg := fst (Logger_new Sample.taken) in
  let w := snd (Logger_new Sample.taken) in
  fs_exists w (destinationFile "F/photo.png") = true
  /\ moved "F/photo.png" (lg, w) = false
  /\ w_fs (after_move "F/photo.png" (lg, w)) !! "F/photo.png" = Some (File "new")
  /\ w_fs (after_move "F/photo.png" (lg, w)) !! destinationFile "F/photo.png"
     = Some (File "old").
Proof.
  intros lg w.
  assert (fs_exists w (destinationFile "F/photo.png") = true) as H
    by (vm_compute; reflexivity).
  split; [exact H|].
  destruct (destination_conflict "F/photo.png" lg w H) as (H1 & H2 & H3 & _).
  split; [exact H1|]. split.
  - rewrite H2; [vm_compute; reflexivity|vm_compute; discriminate|].
    vm_compute. eexists. reflexivity.
  - rewrite H3; [vm_compute; reflexivity|vm_compute; discriminate].
Defined.

(** C10. A regular file whose name is a period followed by no other
    period has an empty extension; the classifier rejects it; the mover
    answers [false] and does nothing but log the INFO line that it skips
    the file, which stays where it is. *)
Theorem dotfile_is_skipped (p rest : string) (lg : Logger) (w : World) :
  Path.filename p = String "." rest ->
  Path.has_dot rest = false ->
  is_regular_file w p = true ->
  Path.extension p = ""
  /\ isImageFile p = false
  /\ moveFileToFolder p (lg, w)
     = (false, snd (logInfo ("Skipping non-image file: " +:+ p) (lg, w)))
  /\ (forall t, log_text (lg, w) = Some t ->
        log_text (snd (moveFileToFolder p (lg, w)))
        = Some (t +:+ "[" +:+ w_now w +:+ "] INFO: Skipping non-image file: "
                  +:+ p +:+ nl))
  /\ quiet (logFilePath_ lg) nowhere w (after_move p (lg, w))
  /\ is_regular_file (after_move p (lg, w)) p = true.
Proof.
  intros Hname Hdot Hreg.
  pose proof (extension_hidden p rest Hname Hdot) as Hext.
  assert (isImageFile p = false) as Himg.
  { unfold isImageFile. rewrite Hext. reflexivity. }
  assert (moveFileToFolder p (lg, w)
          = (false, snd (logInfo ("Skipping non-image file: " +:+ p) (lg, w)))) as Heq.
  { unfold moveFileToFolder. rewrite bind_eq. simpl.
    rewrite (regular_exists _ _ Hreg), Hreg, Himg. simpl.
    rewrite bind_eq. reflexivity. }
  assert (quiet (logFilePath_ lg) nowhere w (after_move p (lg, w))) as Hq.
  { unfold after_move. rewrite Heq. simpl.
    apply (keeps_logInfo (logFilePath_ lg) nowhere _ lg w eq_refl). }
  split; [exact Hext|]. split; [exact Himg|]. split; [exact Heq|].
  split; [|split; [exact Hq|]].
  - intros t Ht. rewrite Heq. simpl.
    rewrite (logInfo_text _ _ _ Ht). unfold info_line. simpl.
    rewrite !str_app_assoc. reflexivity.
  - apply (quiet_regular _ _ _ _ _ Hq). exact Hreg.
Qed.

Lemma dotfile_is_skipped_witness :
  let lg := fst (Logger_new Sample.dotfile) in
  let w := snd (Logger_new Sample.dotfile) in
  Path.filename "F/.png" = ".png"
  /\ is_regular_file w "F/.png" = true
  /\ moved "F/.png" (lg, w) = false
  /\ log_text (snd (moveFileToFolder "F/.png" (lg, w)))
     = Some ("--- Run started at 2024-05-01 10:00:00 ---" +:+ nl
             +:+ "[2024-05-01 10:00:00] INFO: Skipping non-image file: F/.png" +:+ nl)
  /\ is_regular_file (after_move "F/.png" (lg, w)) "F/.png" = true.
Proof.
  intros lg w.
  assert (is_regular_file w "F/.png" = true) as Hreg by (vm_compute; reflexivity).
  destruct (dotfile_is_skipped "F/.png" "png" lg w eq_refl eq_refl Hreg)
    as (_ & _ & H3 & H4 & _ & H6).
  split; [reflexivity|]. split; [exact Hreg|].
  split; [unfold moved; rewrite H3; reflexivity|].
  split; [|exact H6].
  erewrite H4; [|vm_compute; reflexivity]. vm_compute. reflexivity.
Defined.

(** ** Scanner *)

(** The entries of a scan are the nodes of the tree right under the
    directory: no node deeper down, and not the directory itself. *)
Lemma entries_spec (w : World) (d e : string) :
  In e (entries w d) <->
  is_Some (w_fs w !! e) /\ Path.filename e <> "" /\ d </> Path.filename e = e.
Proof.
  unfold entries, is_entry_of. rewrite filter_In, andb_true_iff, negb_true_iff.
  rewrite String.eqb_neq, String.eqb_eq, in_map_iff. split.
  - intros [[[k x] [<- Hin]] H]. split; [|exact H].
    apply list_elem_of_In, elem_of_map_to_list in Hin. exists x. exact Hin.
  - intros [[x Hx] H]. split; [|exact H].
    exists (e, x). split; [reflexivity|].
    apply list_elem_of_In, elem_of_map_to_list. exact Hx.
Qed.

Lemma directory_exists (w : World) (d : string) :
  is_directory w d = true -> fs_exists w d = true.
Proof. unfold is_directory, fs_exists. destruct (status w d) as [[x|]|]; congruence. Qed.

(** With a clear error code the loop runs to its end: the check of [ec]
    in its body never fires. *)
Lemma scan_loop_runs_through (d : string) (seen : list string) :
  forall any st, exists b st', scan_loop None d seen any st = (LoopDone b, st').
Proof.
  induction seen as [|e rest IH]; intros any st; simpl.
  - exists any, st. reflexivity.
  - rewrite bind_eq. simpl.
    destruct (negb (is_regular_file (snd st) e)); [apply IH|].
    destruct (isImageFile e); [|apply IH].
    rewrite bind_eq. apply IH.
Qed.

Lemma scan_loop_each_once (d : string) (seen : list string) :
  forall any st,
    scan_loop None d seen any st
    = (LoopDone (any || any_moved (fst (each_once supported_file seen st))),
       snd (each_once supported_file seen st)).
Proof.
  induction seen as [|e rest IH]; intros any st; simpl.
  - rewrite orb_false_r. reflexivity.
  - rewrite ?bind_eq. simpl.
    change (supported_file (snd st) e)
      with (is_regular_file (snd st) e && isImageFile e).
    destruct (is_regular_file (snd st) e); simpl; [|apply IH].
    destruct (isImageFile e); simpl; [|apply IH].
    rewrite ?bind_eq. simpl. rewrite ?bind_eq. simpl. rewrite IH.
    destruct (fst (moveFileToFolder e st)), any; reflexivity.
Qed.

(** A listing whose constructor failed delivers nothing. *)
Lemma directory_iterator_ec (w : World) (d : string) :
  scan_ec (directory_iterator w d) = None \/ scan_seen (directory_iterator w d) = [].
Proof.
  unfold directory_iterator.
  destruct (w_scan_fault w d) as [[|k]|]; cbn [scan_ec scan_seen]; try tauto.
  destruct (S k <=? List.length (entries w d))%nat; cbn [scan_ec]; tauto.
Qed.

Lemma In_firstn_entries {A : Type} (n : nat) (l : list A) (x : A) :
  In x (firstn n l) -> In x l.
Proof.
  revert l. induction n as [|n IH]; intros l; [intros []|].
  destruct l as [|a l]; [intros []|].
  simpl. intros [H|H]; [left; exact H|right; apply IH; exact H].
Qed.

Lemma scan_seen_in_entries (w : World) (d e : string) :
  In e (scan_seen (directory_iterator w d)) -> In e (entries w d).
Proof.
  unfold directory_iterator.
  destruct (w_scan_fault w d) as [[|k]|]; cbn [scan_seen]; [intros []| |tauto].
  destruct (S k <=? List.length (entries w d))%nat; cbn [scan_seen]; [|tauto].
  apply In_firstn_entries.
Qed.

(** The scan of a directory is the pass of [folder_batch]. *)
Lemma processDirectory_folder_batch (d : string) (st : St) :
  is_directory (snd st) d = true ->
  processDirectory d st = folder_batch d st.
Proof.
  intros Hdir. unfold processDirectory, folder_batch.
  rewrite !bind_eq. cbn [get_world fst snd].
  rewrite (directory_exists _ _ Hdir), Hdir. cbn [negb orb].
  assert (scan_loop (scan_ec (directory_iterator (snd st) d)) d
            (scan_seen (directory_iterator (snd st) d)) false st
          = (LoopDone (any_moved (fst (each_once supported_file
                                         (scan_seen (directory_iterator (snd st) d)) st))),
             snd (each_once supported_file
                    (scan_seen (directory_iterator (snd st) d)) st))) as Hloop.
  { destruct (directory_iterator_ec (snd st) d) as [-> | ->].
    - apply (scan_loop_each_once d _ false st).
    - reflexivity. }
  rewrite bind_eq, Hloop. cbn [fst snd].
  destruct (scan_throws (directory_iterator (snd st) d)); [reflexivity|].
  rewrite !bind_eq.
  destruct (any_moved _); reflexivity.
Qed.

(** A pass over entries that hold no supported regular file calls the
    mover on none of them and leaves the state as it is. *)
Lemma each_once_nothing_supported (seen : list string) (st : St) :
  (forall e, In e seen -> is_regular_file (snd st) e = true -> isImageFile e = false) ->
  each_once supported_file seen st = ([], st).
Proof.
  induction seen as [|e rest IH]; intros H; simpl; [reflexivity|].
  rewrite bind_eq. cbn [get_world fst snd].
  assert (supported_file (snd st) e = false) as ->.
  { unfold supported_file. destruct (is_regular_file (snd st) e) eqn:Hreg; [|reflexivity].
    rewrite (H e (or_introl eq_refl) Hreg). reflexivity. }
  apply IH. intros x Hx. apply H. right. exact Hx.
Qed.

(** C3, as the code has it.  The scan of a directory is the pass over
    the entries its listing delivers, in order: an entry that is, when
    its turn comes, a regular file with a supported extension goes to
    the mover, once; every other entry is passed over with no call and
    no change of state.  The entries delivered are immediate entries of
    the directory, all of them when the listing does not fail.  So the
    scan of a directory whose regular files all have unsupported
    extensions makes no call of the mover and writes no log line at all,
    neither INFO nor ERROR, and, when the listing is read to its end,
    prints that no image files were found and answers [false]. *)
Theorem scan_hands_over_supported_files (d : string) (lg : Logger) (w : World) :
  is_directory w d = true ->
  (forall e, In e (scan_seen (directory_iterator w d)) -> In e (entries w d))
  /\ (w_scan_fault w d = None ->
      scan_seen (directory_iterator w d) = entries w d
      /\ scan_throws (directory_iterator w d) = false)
  /\ processDirectory d (lg, w) = folder_batch d (lg, w)
  /\ ((forall e, In e (entries w d) -> is_regular_file w e = true -> isImageFile e = false) ->
      each_once supported_file (scan_seen (directory_iterator w d)) (lg, w) = ([], (lg, w))
      /\ (scan_throws (directory_iterator w d) = false ->
          processDirectory d (lg, w)
          = (Returned false, (lg, add_out ("No image files found in " +:+ d +:+ nl) w)))).
Proof.
  intros Hdir.
  split; [intros e; apply scan_seen_in_entries|].
  split; [intros Hfault; unfold directory_iterator; rewrite Hfault; split; reflexivity|].
  split; [apply (processDirectory_folder_batch d (lg, w)); exact Hdir|].
  intros Hnone.
  assert (each_once supported_file (scan_seen (directory_iterator w d)) (lg, w)
          = ([], (lg, w))) as Hpass.
  { apply each_once_nothing_supported. intros e He.
    apply Hnone. apply scan_seen_in_entries. exact He. }
  split; [exact Hpass|]. intros Hend.
  rewrite (processDirectory_folder_batch d (lg, w) Hdir).
  unfold folder_batch. rewrite !bind_eq. cbn [get_world fst snd].
  rewrite Hpass, Hend. cbn [fst snd any_moved existsb]. rewrite !bind_eq. reflexivity.
Qed.

Lemma scan_hands_over_supported_files_witness :
  let lg := fst (Logger_new Sample.picture_and_notes) in
  let w := snd (Logger_new Sample.picture_and_notes) in
  processDirectory "F" (lg, w) = folder_batch "F" (lg, w)
  /\ fst (each_once supported_file (entries w "F") (lg, w)) = [true]
  /\ fst (processDirectory "F" (lg, w)) = Returned true
  /\ w_fs (snd (snd (processDirectory "F" (lg, w)))) !! "F/a/a.png" = Some (File "a")
  /\ w_fs (snd (snd (processDirectory "F" (lg, w)))) !! "F/notes.txt" = Some (File "text")
  /\ log_text (snd (processDirectory "F" (lg, w)))
     = Some ("--- Run started at 2024-05-01 10:00:00 ---" +:+ nl
             +:+ "[2024-05-01 10:00:00] INFO: Moved F/a.png to F/a" +:+ nl).
Proof.
  intros lg w.
  destruct (scan_hands_over_supported_files "F" lg w) as (_ & _ & Heq & _);
    [vm_compute; reflexivity|].
  split; [exact Heq|]. rewrite Heq.
  vm_compute. repeat split; reflexivity.
Defined.

(** C3 as stated fails: the folder holds one regular file with an
    unsupported extension, and after the scan the log holds the line of
    the run's start and nothing else, so no INFO line for the file. *)
Lemma scan_logs_no_skip_line :
  let w := Sample.only_notes in
  entries w "F" = ["F/notes.txt"]
  /\ is_regular_file w "F/notes.txt" = true
  /\ isImageFile "F/notes.txt" = false
  /\ fst (runApplication ["F"] w) = Returned 1
  /\ w_fs (snd (runApplication ["F"] w)) !! "/tmp/PushToFolders.log"
     = Some (File ("--- Run started at 2024-05-01 10:00:00 ---" +:+ nl)).
Proof. vm_compute. repeat split; reflexivity. Qed.

(** C5 at work in the code.  When the listing cannot be opened, the
    constructor sets [ec] and is the end iterator: the body with the
    check of [ec] never runs, the scan prints that no image files were
    found and answers [false], and nothing is logged.  When a later read
    fails, the increment throws, nothing catches it and the process
    terminates; the ERROR entry for the scan is never written. *)
Theorem scan_fault_is_not_logged (d : string) (lg : Logger) (w : World) (k : nat) :
  is_directory w d = true ->
  w_scan_fault w d = Some k ->
  k <= List.length (entries w d) ->
  match k with
  | 0 => processDirectory d (lg, w)
         = (Returned false, (lg, add_out ("No image files found in " +:+ d +:+ nl) w))
  | S _ => fst (processDirectory d (lg, w)) = Terminated
  end.
Proof.
  intros Hdir Hfault Hk. unfold processDirectory. rewrite bind_eq. simpl.
  rewrite (directory_exists _ _ Hdir), Hdir. simpl.
  unfold directory_iterator. rewrite Hfault.
  destruct k as [|k].
  - simpl. rewrite !bind_eq. reflexivity.
  - apply Nat.leb_le in Hk. rewrite Hk. simpl. rewrite bind_eq.
    destruct (scan_loop_runs_through d (firstn (S k) (entries w d)) false (lg, w))
      as (b & st' & ->).
    reflexivity.
Qed.

Lemma scan_fault_is_not_logged_witness :
  let lg := fst (Logger_new Sample.broken_listing) in
  let w := snd (Logger_new Sample.broken_listing) in
  fst (processDirectory "F" (lg, w)) = Terminated
  /\ runApplication ["F"] Sample.broken_listing
     = (Terminated, snd (snd (processDirectory "F" (lg, w))))
  /\ w_fs (snd (runApplication ["F"] Sample.broken_listing)) !! "/tmp/PushToFolders.log"
     = Some (File "")
  /\ w_err (snd (runApplication ["F"] Sample.broken_listing)) = "".
Proof.
  intros lg w. split.
  - apply (scan_fault_is_not_logged "F" lg w 1);
      [vm_compute; reflexivity|vm_compute; reflexivity|vm_compute; lia].
  - vm_compute. repeat split; reflexivity.
Defined.

(** The same for a listing that cannot be opened: the run ends as if the
    folder held no picture, and the log gets the marker of the run's
    start only. *)
Example closed_folder_scan_is_silent :
  let run := runApplication ["F"] Sample.closed_folder in
  fst run = Returned 1
  /\ w_out (snd run)
     = "No image files found in F" +:+ nl
       +:+ "Finished processing folder." +:+ nl
       +:+ "Check the log for any errors: /tmp/PushToFolders.log" +:+ nl
  /\ w_err (snd run) = ""
  /\ w_fs (snd run) !! "/tmp/PushToFolders.log"
     = Some (File ("--- Run started at 2024-05-01 10:00:00 ---" +:+ nl))
  /\ w_fs (snd run) !! "F/a.png" = Some (File "a").
Proof. vm_compute. repeat split; reflexivity. Qed.

(** ** Batches *)

Lemma files_loop_each_once (files : list string) :
  forall any st,
    files_loop files any st
    = (any || any_moved (fst (each_once every_item files st)),
       snd (each_once every_item files st)).
Proof.
  induction files as [|f rest IH]; intros any st; simpl.
  - rewrite orb_false_r. reflexivity.
  - rewrite ?bind_eq. simpl. rewrite ?bind_eq. simpl. rewrite IH.
    destruct (fst (moveFileToFolder f st)), any; reflexivity.
Qed.

Lemma each_once_every_item_length (files : list string) :
  forall st, List.length (fst (each_once every_item files st)) = List.length files.
Proof.
  induction files as [|f rest IH]; intros st; simpl; [reflexivity|].
  rewrite ?bind_eq. simpl. rewrite ?bind_eq. simpl. rewrite IH. reflexivity.
Qed.

Lemma exit_code_of_dispatch (args : list string) (w : World) (code : nat) :
  fst (dispatch args (Logger_new w)) = Returned code ->
  fst (runApplication args w) = Returned code.
Proof.
  unfold runApplication, normaliseArguments.
  destruct (dispatch args (Logger_new w)) as [[c|] st]; simpl; congruence.
Qed.

Lemma fileMode_exit (args : list string) (st : St) :
  fst (fileMode args st)
  = Returned (if any_moved (fst (each_once every_item args st)) then 0 else 1).
Proof.
  unfold fileMode, processFiles. rewrite ?bind_eq. simpl.
  rewrite files_loop_each_once. simpl. reflexivity.
Qed.

Lemma runApplication_finish (args : list string) (w : World) :
  runApplication args w = finish (dispatch args (Logger_new w)).
Proof. reflexivity. Qed.

(** The file mode is the pass of [file_batch]. *)
Lemma fileMode_file_batch (args : list string) (st : St) :
  fileMode args st = file_batch args st.
Proof.
  unfold fileMode, file_batch, processFiles.
  rewrite !bind_eq. cbn [get_logger fst snd].
  rewrite files_loop_each_once. cbn [fst snd orb].
  destruct (any_moved _); rewrite ?bind_eq; reflexivity.
Qed.

(** The listing of a scan that is cut short. *)
Lemma scan_throws_fault (w : World) (d : string) :
  scan_throws (directory_iterator w d) = true ->
  exists k, w_scan_fault w d = Some (S k)
            /\ S k <= List.length (entries w d)
            /\ scan_seen (directory_iterator w d) = firstn (S k) (entries w d).
Proof.
  unfold directory_iterator.
  destruct (w_scan_fault w d) as [[|k]|]; cbn [scan_throws]; try discriminate.
  destruct (S k <=? List.length (entries w d))%nat eqn:E; cbn [scan_throws scan_seen];
    [|discriminate].
  intros _. exists k. apply Nat.leb_le in E. repeat split. exact E.
Qed.

(** The folder mode on a directory: how it ends, and the state in which
    the process is when the listing throws. *)
Lemma folderMode_ends (d : string) (st : St) :
  is_directory (snd st) d = true ->
  fst (folderMode d st)
  = (if scan_throws (directory_iterator (snd st) d) then Terminated
     else Returned (if any_moved (fst (each_once supported_file
                                         (scan_seen (directory_iterator (snd st) d)) st))
                    then 0 else 1))
  /\ (scan_throws (directory_iterator (snd st) d) = true ->
      snd (folderMode d st)
      = snd (each_once supported_file (scan_seen (directory_iterator (snd st) d)) st)).
Proof.
  intros Hdir. unfold folderMode. rewrite !bind_eq. cbn [get_logger fst snd].
  rewrite (processDirectory_folder_batch d st Hdir).
  unfold folder_batch. rewrite !bind_eq. cbn [get_world fst snd].
  destruct (scan_throws (directory_iterator (snd st) d)).
  - split; [reflexivity|]. intros _. reflexivity.
  - split; [|discriminate]. rewrite !bind_eq.
    destruct (any_moved _); reflexivity.
Qed.

(** C7 against the code.  A batch takes every item its loop gets to,
    once and in order, whatever became of the items before it: the loop
    over an explicit file list is the pass [each_once] over all the
    arguments, and the loop of a folder scan is that pass over the
    supported regular files among the entries the listing delivers.  A
    run that returns has status 0 exactly when one of the answers of the
    pass is a move, and 1 otherwise.  But a folder scan does not always
    get to every entry: when a read of the directory fails after the
    first entries, the pass stops with those entries, the entries behind
    them are never taken, and the run ends without a status in
    [std::terminate], in the state the pass left. *)
Theorem batch_exit_status (args : list string) (w : World) :
  args <> [] ->
  (forall a, args = [a] -> is_show_token a = false /\ is_clear_token a = false) ->
  let st := Logger_new w in
  let folder := match args with
                | [a] => fs_exists (snd st) a && is_directory (snd st) a
                | _ => false
                end in
  let listing := directory_iterator (snd st) (hd "" args) in
  let items := if folder then scan_seen listing else args in
  let select := if folder then supported_file else every_item in
  let answers := fst (each_once select items st) in
  let cut_short := folder && scan_throws listing in
  (if folder
   then processDirectory (hd "" args) st = folder_batch (hd "" args) st
   else fileMode args st = file_batch args st
        /\ List.length answers = List.length args)
  /\ fst (runApplication args w)
     = (if cut_short then Terminated
        else Returned (if any_moved answers then 0 else 1))
  /\ (folder = true -> w_scan_fault (snd st) (hd "" args) = None ->
      items = entries (snd st) (hd "" args) /\ cut_short = false)
  /\ (cut_short = true ->
      snd (runApplication args w) = snd (snd (each_once select items st))
      /\ exists k, w_scan_fault (snd st) (hd "" args) = Some (S k)
                   /\ S k <= List.length (entries (snd st) (hd "" args))
                   /\ items = firstn (S k) (entries (snd st) (hd "" args))).
Proof.
  intros Hne Htok. cbv zeta.
  assert (forall files, files <> [] ->
            (forall a, files = [a] ->
               is_show_token a = false /\ is_clear_token a = false
               /\ fs_exists (snd (Logger_new w)) a && is_directory (snd (Logger_new w)) a
                  = false) ->
            fst (runApplication files w)
            = Returned (if any_moved (fst (each_once every_item files (Logger_new w)))
                        then 0 else 1)) as Hfiles.
  { intros files Hf Hone. apply exit_code_of_dispatch. unfold dispatch.
    rewrite ?bind_eq. cbn [get_logger get_world fst snd].
    destruct files as [|a [|b rest]]; [congruence| |apply fileMode_exit].
    destruct (Hone a eq_refl) as (Hs & Hc & Hd). rewrite Hs, Hc, Hd.
    apply fileMode_exit. }
  destruct args as [|a [|b rest]]; [congruence| |].
  - (* one argument *)
    destruct (Htok a eq_refl) as (Hs & Hc). cbn [hd].
    destruct (fs_exists (snd (Logger_new w)) a && is_directory (snd (Logger_new w)) a)
      eqn:Hdir.
    + (* a folder *)
      pose proof Hdir as Hboth.
      apply andb_true_iff in Hdir as [Hex Hisdir].
      destruct (folderMode_ends a (Logger_new w) Hisdir) as [Hend Hstate].
      assert (dispatch [a] (Logger_new w) = folderMode a (Logger_new w)) as Hdisp.
      { unfold dispatch. rewrite ?bind_eq. cbn [get_logger get_world fst snd].
        rewrite Hs, Hc, Hboth. reflexivity. }
      cbn [andb].
      split; [apply processDirectory_folder_batch; exact Hisdir|].
      split.
      { rewrite runApplication_finish, Hdisp.
        destruct (folderMode a (Logger_new w)) as [[code|] st1]; cbn [finish fst] in *;
          exact Hend. }
      split.
      { intros _ Hfault. unfold directory_iterator. rewrite Hfault.
        split; reflexivity. }
      intros Hcut. split.
      * rewrite runApplication_finish, Hdisp.
        specialize (Hstate Hcut). rewrite Hcut in Hend.
        destruct (folderMode a (Logger_new w)) as [[code|] st1]; cbn [finish fst snd] in *;
          [discriminate|]. rewrite Hstate. reflexivity.
      * apply scan_throws_fault. exact Hcut.
    + (* a single file *)
      cbn [andb].
      split; [split; [apply fileMode_file_batch|apply each_once_every_item_length]|].
      split.
      { apply Hfiles; [discriminate|]. intros x Hx. injection Hx as <-. tauto. }
      split; [discriminate|discriminate].
  - (* several arguments *)
    cbn [andb].
    split; [split; [apply fileMode_file_batch|apply each_once_every_item_length]|].
    split.
    { apply Hfiles; [discriminate|]. intros x Hx. discriminate Hx. }
    split; [discriminate|discriminate].
Qed.

Lemma batch_exit_status_witness :
  let w := Sample.broken_listing in
  let st := Logger_new w in
  List.length (entries (snd st) "F") = 2
  /\ fst (each_once supported_file (scan_seen (directory_iterator (snd st) "F")) st)
     = [true]
  /\ fst (runApplication ["F"] w) = Terminated
  /\ w_fs (snd (runApplication ["F"] w)) !! "F/a.png" = None
  /\ w_fs (snd (runApplication ["F"] w)) !! "F/a/a.png" = Some (File "a")
  /\ w_fs (snd (runApplication ["F"] w)) !! "F/b.png" = Some (File "b")
  /\ w_fs (snd (runApplication ["F"] w)) !! "F/b/b.png" = None.
Proof.
  intros w st.
  assert (["F"] <> []) as H1 by discriminate.
  assert (forall a, ["F"] = [a] -> is_show_token a = false /\ is_clear_token a = false)
    as H2 by (intros a Ha; injection Ha as <-; split; reflexivity).
  destruct (batch_exit_status ["F"] w H1 H2) as (_ & Hrun & _ & Hcut).
  split; [vm_compute; reflexivity|].
  split; [vm_compute; reflexivity|].
  split; [rewrite Hrun; vm_compute; reflexivity|].
  destruct Hcut as [Hstate _]; [vm_compute; reflexivity|].
  rewrite Hstate. vm_compute. repeat split; reflexivity.
Defined.

(** The same pass on an explicit file list: the missing file in the
    middle does not keep the third argument from being moved. *)
Example file_list_goes_on_after_a_failure :
  let args := ["F/a.png"; "F/missing.png"; "F/b.jpg"] in
  fst (each_once every_item args (Logger_new Sample.mixed_batch)) = [true; false; true]
  /\ fst (runApplication args Sample.mixed_batch) = Returned 0.
Proof. vm_compute. split; reflexivity. Qed.

(** ** Dispatcher *)

Section Silent.

Lemma silent_ret {A : Type} (a : A) : silent (ret a).
Proof. intros st. reflexivity. Qed.

Lemma silent_bind {A B : Type} (m : M A) (k : A -> M B) :
  silent m -> (forall a, silent (k a)) -> silent (bind m k).
Proof. intros Hm Hk st. rewrite bind_eq, Hk, Hm. reflexivity. Qed.

Lemma silent_get_world : silent get_world.
Proof. intros st. reflexivity. Qed.

Lemma silent_cerr (s : string) : silent (cerr s).
Proof. intros st. reflexivity. Qed.

Lemma w_out_write_append (p s : string) (w : World) :
  w_out (write_append p s w) = w_out w.
Proof. unfold write_append. destruct (w_fs w !! p) as [[d|]|]; reflexivity. Qed.

Lemma silent_stream_put (line : string) : silent (stream_put line).
Proof.
  intros [lg w]. unfold stream_put. simpl.
  destruct (stream_ lg) as [pending|]; [|reflexivity].
  destruct (w_bufsiz w <? String.length (pending +:+ line))%nat; simpl;
    [apply w_out_write_append|reflexivity].
Qed.

Lemma silent_logError (target message : string) : silent (logError target message).
Proof.
  unfold logError. apply silent_bind; [apply silent_get_world|].
  intros w. apply silent_stream_put.
Qed.

Lemma silent_logInfo (message : string) : silent (logInfo message).
Proof.
  unfold logInfo. apply silent_bind; [apply silent_get_world|].
  intros w. apply silent_stream_put.
Qed.

Lemma silent_report {A : Type} (target message line : string) (a : A) :
  silent (logError target message ;;; cerr line ;;; ret a).
Proof.
  apply silent_bind; [apply silent_logError|]. intros _.
  apply silent_bind; [apply silent_cerr|]. intros _. apply silent_ret.
Qed.

End Silent.

(** A path the classifier rejects: whatever is there, the mover answers
    [false], prints nothing on standard output, creates nothing and
    leaves the tree as it is, the log apart. *)
Lemma mover_rejects (lp p : string) :
  isImageFile p = false ->
  (forall st, fst (moveFileToFolder p st) = false)
  /\ silent (moveFileToFolder p)
  /\ keeps lp nowhere (moveFileToFolder p).
Proof.
  intros Himg. split; [|split].
  - intros [lg w]. rewrite moveFileToFolder_result, Himg.
    rewrite andb_false_r. reflexivity.
  - unfold moveFileToFolder. apply silent_bind; [apply silent_get_world|]. intros w.
    destruct (negb (fs_exists w p)); [apply silent_report|].
    destruct (negb (is_regular_file w p)); [apply silent_report|].
    rewrite Himg. simpl.
    apply silent_bind; [apply silent_logInfo|]. intros _. apply silent_ret.
  - unfold moveFileToFolder. apply keeps_bind; [apply keeps_get_world|]. intros w.
    destruct (negb (fs_exists w p)); [apply keeps_report|].
    destruct (negb (is_regular_file w p)); [apply keeps_report|].
    rewrite Himg. simpl.
    apply keeps_bind; [apply keeps_logInfo|]. intros _. apply keeps_ret.
Qed.

Lemma files_loop_rejects (lp : string) (files : list string) :
  Forall (fun p => isImageFile p = false) files ->
  (forall st, fst (files_loop files false st) = false)
  /\ silent (files_loop files false)
  /\ keeps lp nowhere (files_loop files false).
Proof.
  induction 1 as [|p files Hp _ IH]; simpl.
  - split; [reflexivity|]. split; [apply silent_ret|apply keeps_ret].
  - destruct (mover_rejects lp p Hp) as (M1 & M2 & M3).
    destruct IH as (I1 & I2 & I3).
    split; [|split].
    + intros st. rewrite bind_eq, M1. apply I1.
    + intros st. rewrite bind_eq, M1, I2. apply M2.
    + intros lg w Hlg. rewrite bind_eq, M1.
      destruct (M3 lg w Hlg) as [Hl1 Hq1].
      destruct (moveFileToFolder p (lg, w)) as [b [lg1 w1]]. simpl in *.
      destruct (I3 lg1 w1 Hl1) as [Hl2 Hq2].
      split; [exact Hl2|]. eapply quiet_trans; eassumption.
Qed.

Lemma quiet_same_but (lp : string) (w w' : World) :
  quiet lp nowhere w w' -> same_but lp w w'.
Proof.
  intros Hq q Hne.
  destruct (quiet_tree _ _ _ _ Hq q) as [H|[(E & _)|(_ & _ & [])]];
    [exact H|contradiction].
Qed.

Lemma same_but_trans (lp : string) (w1 w2 w3 : World) :
  same_but lp w1 w2 -> same_but lp w2 w3 -> same_but lp w1 w3.
Proof. intros H1 H2 q Hq. rewrite (H2 q Hq). apply H1. exact Hq. Qed.

Lemma same_but_write_append (lp s : string) (w : World) :
  same_but lp w (write_append lp s w).
Proof. apply quiet_same_but. apply quiet_write_append. Qed.

(** What the constructor of the logger leaves. *)
Lemma Logger_new_path (w : World) :
  logFilePath_ (fst (Logger_new w)) = detectLogFilePath w.
Proof.
  unfold Logger_new.
  destruct (open_append w (detectLogFilePath w)) as [w'|]; [|reflexivity].
  pose proof (keeps_stream_put (detectLogFilePath w) nowhere
                ("--- Run started at " +:+ timestampForLog w' +:+ " ---" +:+ nl)
                (mkLogger (detectLogFilePath w) (Some "")) w' eq_refl) as [H _].
  exact H.
Qed.

Lemma open_append_cases (w w' : World) (p : string) :
  open_append w p = Some w' ->
  (w' = w /\ exists d, w_fs w !! p = Some (File d))
  \/ (w' = set_fs (<[p := File ""]> (w_fs w)) w /\ status w p = None /\ p <> "").
Proof.
  unfold open_append. destruct (w_fails w (OpenAppend p)); [discriminate|].
  unfold status. destruct (String.eqb p "") eqn:E.
  - discriminate.
  - apply String.eqb_neq in E.
    destruct (w_fs w !! p) as [[d|]|] eqn:F; intros H; try discriminate;
      injection H as <-.
    + left. split; [reflexivity|]. exists d. reflexivity.
    + right. repeat split; assumption.
Qed.

Lemma Logger_new_same_but (w : World) :
  same_but (detectLogFilePath w) w (snd (Logger_new w))
  /\ w_out (snd (Logger_new w)) = w_out w.
Proof.
  unfold Logger_new. set (lp := detectLogFilePath w).
  destruct (open_append w lp) as [w'|] eqn:Ho.
  - pose proof (keeps_stream_put lp nowhere
                  ("--- Run started at " +:+ timestampForLog w' +:+ " ---" +:+ nl)
                  (mkLogger lp (Some "")) w' eq_refl) as [_ Hq].
    rewrite (silent_stream_put
               ("--- Run started at " +:+ timestampForLog w' +:+ " ---" +:+ nl)
               (mkLogger lp (Some ""), w')).
    cbn [snd]. apply quiet_same_but in Hq.
    destruct (open_append_cases _ _ _ Ho) as [[-> _]|(-> & _ & _)].
    + split; [exact Hq|reflexivity].
    + split; [|reflexivity].
      eapply same_but_trans; [|exact Hq].
      intros q Hne. simpl. apply lookup_insert_ne. congruence.
  - simpl. split; [intros q _; reflexivity|reflexivity].
Qed.

(** When the log file is there, the constructor only adds to it. *)
Lemma Logger_new_quiet (w : World) :
  is_Some (w_fs w !! detectLogFilePath w) ->
  quiet (detectLogFilePath w) nowhere w (snd (Logger_new w)).
Proof.
  intros [x Hx]. unfold Logger_new. set (lp := detectLogFilePath w) in *.
  destruct (open_append w lp) as [w'|] eqn:Ho.
  - pose proof (keeps_stream_put lp nowhere
                  ("--- Run started at " +:+ timestampForLog w' +:+ " ---" +:+ nl)
                  (mkLogger lp (Some "")) w' eq_refl) as [_ Hq].
    destruct (open_append_cases _ _ _ Ho) as [[-> _]|(-> & Hs & Hne)].
    + exact Hq.
    + unfold status in Hs. apply String.eqb_neq in Hne. rewrite Hne in Hs. congruence.
  - simpl. apply quiet_add_err.
Qed.

Lemma Logger_close_quiet (lg : Logger) (w : World) :
  quiet (logFilePath_ lg) nowhere w (Logger_close (lg, w))
  /\ w_out (Logger_close (lg, w)) = w_out w.
Proof.
  unfold Logger_close. destruct (stream_ lg) as [pending|].
  - split; [apply quiet_write_append|apply w_out_write_append].
  - split; [apply quiet_refl|reflexivity].
Qed.

Lemma clear_token_not_show (a : string) :
  is_clear_token a = true -> is_show_token a = false.
Proof.
  unfold is_clear_token. intros H. apply orb_true_iff in H as [H|H];
    apply String.eqb_eq in H; subst a; reflexivity.
Qed.

Lemma token_not_image (a : string) :
  is_show_token a = true \/ is_clear_token a = true -> isImageFile a = false.
Proof.
  unfold is_show_token, is_clear_token. intros [H|H];
    apply orb_true_iff in H as [H|H]; apply String.eqb_eq in H; subst a; reflexivity.
Qed.


Lemma open_trunc_same_but (w w' : World) (p : string) :
  open_trunc w p = Some w' -> same_but p w w'.
Proof.
  unfold open_trunc. destruct (w_fails w (OpenTrunc p)); [discriminate|].
  assert ((if String.eqb p "" then None
           else Some (set_fs (<[p := File ""]> (w_fs w)) w)) = Some w' ->
          same_but p w w') as Hc.
  { destruct (String.eqb p ""); [discriminate|]. intros H. injection H as <-.
    intros q Hne. simpl. apply lookup_insert_ne. congruence. }
  destruct (status w p) as [[d|]|]; [exact Hc|discriminate|exact Hc].
Qed.

Lemma clearLogCommand_state (st : St) :
  fst (snd (clearLogCommand st)) = fst st
  /\ same_but (logFilePath_ (fst st)) (snd st) (snd (snd (clearLogCommand st))).
Proof.
  unfold clearLogCommand, clearLogFile, lift_os. rewrite !bind_eq. simpl.
  destruct (open_trunc (snd st) (logFilePath_ (fst st))) as [w'|] eqn:Ho; simpl;
    rewrite ?bind_eq; simpl; (split; [reflexivity|]).
  - intros q Hq. exact (open_trunc_same_but _ _ _ Ho q Hq).
  - intros q _. reflexivity.
Qed.

Lemma Logger_close_same_but (st : St) :
  same_but (logFilePath_ (fst st)) (snd st) (Logger_close st).
Proof. destruct st as [lg w]. apply quiet_same_but. apply Logger_close_quiet. Qed.

Lemma runApplication_several (a b : string) (rest : list string) (w : World) :
  runApplication (a :: b :: rest) w
  = (fst (fileMode (a :: b :: rest) (Logger_new w)),
     Logger_close (snd (fileMode (a :: b :: rest) (Logger_new w)))).
Proof.
  unfold runApplication, normaliseArguments, dispatch. rewrite !bind_eq. simpl.
  pose proof (fileMode_exit (a :: b :: rest) (Logger_new w)) as He.
  destruct (fileMode (a :: b :: rest) (Logger_new w)) as [[c|] st']; simpl in *;
    [reflexivity|discriminate].
Qed.

(** File mode on paths the classifier rejects. *)
Lemma fileMode_rejects (args : list string) (lg : Logger) (w : World) :
  Forall (fun p => isImageFile p = false) args ->
  fst (fileMode args (lg, w)) = Returned 1
  /\ w_out (snd (snd (fileMode args (lg, w))))
     = (w_out w +:+ "No image files were processed." +:+ nl)
       +:+ "Finished processing files. Check the log for any errors: "
       +:+ logFilePath_ lg +:+ nl
  /\ logFilePath_ (fst (snd (fileMode args (lg, w)))) = logFilePath_ lg
  /\ quiet (logFilePath_ lg) nowhere w (snd (snd (fileMode args (lg, w)))).
Proof.
  intros Hrej.
  destruct (files_loop_rejects (logFilePath_ lg) args Hrej) as (F1 & F2 & F3).
  specialize (F1 (lg, w)). specialize (F2 (lg, w)).
  destruct (F3 lg w eq_refl) as [F4 F5].
  unfold fileMode, processFiles. rewrite !bind_eq. simpl.
  destruct (files_loop args false (lg, w)) as [b [lg1 w1]]. simpl in *. subst b.
  simpl. rewrite ?bind_eq. simpl.
  split; [reflexivity|]. split; [rewrite F2; reflexivity|].
  split; [exact F4|].
  eapply quiet_trans; [exact F5|].
  eapply quiet_trans; apply quiet_add_out.
Qed.



(** C2, as the code has it.  Two arguments that are log tokens are two
    file paths: both go to the mover, which moves neither; the exit
    status is 1; standard output gets the two closing lines of the file
    mode and nothing of the log; and a log file that was there keeps
    what it held, with the lines of this run after it. *)
Theorem two_log_tokens_are_file_paths (a b : string) (w : World) :
  is_show_token a = true \/ is_clear_token a = true ->
  is_show_token b = true \/ is_clear_token b = true ->
  files_loop [a; b] false (Logger_new w)
  = (false, snd (moveFileToFolder b (snd (moveFileToFolder a (Logger_new w)))))
  /\ fst (runApplication [a; b] w) = Returned 1
  /\ w_out (snd (runApplication [a; b] w))
     = (w_out w +:+ "No image files were processed." +:+ nl)
       +:+ "Finished processing files. Check the log for any errors: "
       +:+ detectLogFilePath w +:+ nl
  /\ (forall d, w_fs w !! detectLogFilePath w = Some (File d) ->
        exists s, w_fs (snd (runApplication [a; b] w)) !! detectLogFilePath w
                  = Some (File (d +:+ s))).
Proof.
  intros Ha Hb.
  pose proof (token_not_image a Ha) as Ia. pose proof (token_not_image b Hb) as Ib.
  assert (Forall (fun p => isImageFile p = false) [a; b]) as Hrej
    by (repeat constructor; assumption).
  pose proof (Logger_new_path w) as Hpath.
  destruct (fileMode_rejects [a; b] (fst (Logger_new w)) (snd (Logger_new w)) Hrej)
    as (E1 & E2 & E3 & E4).
  replace (fst (Logger_new w), snd (Logger_new w)) with (Logger_new w) in *
    by (destruct (Logger_new w); reflexivity).
  rewrite Hpath in *.
  split; [|split; [|split]].
  - simpl. rewrite !bind_eq.
    destruct (mover_rejects "" a Ia) as (Ma & _). destruct (mover_rejects "" b Ib) as (Mb & _).
    rewrite Ma, Mb. reflexivity.
  - rewrite runApplication_several. exact E1.
  - rewrite runApplication_several. simpl.
    destruct (snd (fileMode [a; b] (Logger_new w))) as [lg1 w1] eqn:Est.
    rewrite (proj2 (Logger_close_quiet lg1 w1)). simpl in E2. rewrite E2.
    rewrite (proj2 (Logger_new_same_but w)). reflexivity.
  - intros d Hd. rewrite runApplication_several. simpl.
    destruct (snd (fileMode [a; b] (Logger_new w))) as [lg1 w1] eqn:Est.
    simpl in E3, E4.
    assert (quiet (detectLogFilePath w) nowhere w (Logger_close (lg1, w1))) as Hq.
    { eapply quiet_trans; [apply Logger_new_quiet; rewrite Hd; eexists; reflexivity|].
      eapply quiet_trans; [exact E4|].
      rewrite <- E3. apply Logger_close_quiet. }
    destruct (quiet_tree _ _ _ _ Hq (detectLogFilePath w))
      as [H|[(_ & d' & s & Ho & Hn)|(Ho & _)]].
    + exists "". rewrite H, Hd, str_app_nil_r. reflexivity.
    + exists s. rewrite Hn. congruence.
    + congruence.
Qed.

Lemma two_log_tokens_are_file_paths_witness :
  let w := Sample.with_log in
  fst (runApplication ["--show-log"; "--clear-log"] w) = Returned 1
  /\ w_out (snd (runApplication ["--show-log"; "--clear-log"] w))
     = ("No image files were processed." +:+ nl)
       +:+ "Finished processing files. Check the log for any errors: "
       +:+ "/tmp/PushToFolders.log" +:+ nl.
Proof.
  intros w.
  destruct (two_log_tokens_are_file_paths "--show-log" "--clear-log" w
              (or_introl eq_refl) (or_intror eq_refl)) as (_ & H1 & H2 & _).
  split; [exact H1|]. rewrite H2. vm_compute. reflexivity.
Defined.

(** C2 as stated fails: with the show-log and the clear-log token
    together, the log is neither printed nor emptied.  Standard output
    holds the two lines of the file mode only, and the earlier entry is
    still the head of the log file, followed by the two errors for files
    that do not exist. *)
Lemma show_and_clear_together_do_neither :
  let w := Sample.with_log in
  let args := ["--show-log"; "--clear-log"] in
  fst (runApplication args w) = Returned 1
  /\ w_out (snd (runApplication args w))
     = "No image files were processed." +:+ nl
       +:+ "Finished processing files. Check the log for any errors: "
       +:+ "/tmp/PushToFolders.log" +:+ nl
  /\ w_fs (snd (runApplication args w)) !! "/tmp/PushToFolders.log"
     = Some (File (Sample.earlier_entry
                   +:+ "--- Run started at 2024-05-01 10:00:00 ---" +:+ nl
                   +:+ "[2024-05-01 10:00:00] ERROR: File does not exist. | Target: --show-log" +:+ nl
                   +:+ "[2024-05-01 10:00:00] ERROR: File does not exist. | Target: --clear-log" +:+ nl)).
Proof. vm_compute. repeat split; reflexivity. Qed.

(** ** Clearing, then showing *)

Lemma app_not_empty (a b : string) : b <> "" -> a +:+ b <> "".
Proof. destruct a; simpl; [tauto|discriminate]. Qed.

Lemma detectLogFilePath_not_empty (w : World) : detectLogFilePath w <> "".
Proof.
  unfold detectLogFilePath.
  destruct (temp_directory_path w) as [[e|] d]; [discriminate|].
  unfold Path.append. simpl.
  destruct (Path.has_filename d); apply app_not_empty; discriminate.
Qed.

Lemma status_lookup (w : World) (p : string) :
  p <> "" -> status w p = w_fs w !! p.
Proof. intros H. unfold status. apply String.eqb_neq in H. rewrite H. reflexivity. Qed.

Lemma set_fs_same (w : World) : set_fs (w_fs w) w = w.
Proof. destruct w. reflexivity. Qed.

Lemma Logger_new_opens (w : World) :
  log_opens w ->
  Logger_new w
  = if marker_overflows w
    then (mkLogger (detectLogFilePath w) (Some ""),
          put_log (log_data w +:+ run_start_marker (w_now w)) w)
    else (mkLogger (detectLogFilePath w) (Some (run_start_marker (w_now w))),
          put_log (log_data w) w).
Proof.
  intros (Ha & _ & _ & Hd).
  pose proof (detectLogFilePath_not_empty w) as Hne.
  unfold Logger_new, open_append, marker_overflows, put_log, log_data.
  set (lp := detectLogFilePath w) in *. rewrite Ha.
  unfold is_directory in Hd. rewrite (status_lookup w lp Hne) in *.
  destruct (w_fs w !! lp) as [[d|]|] eqn:E; [| discriminate |].
  - unfold stream_put, timestampForLog, run_start_marker. simpl.
    destruct (w_bufsiz w <? _)%nat; simpl.
    + unfold write_append. rewrite E. reflexivity.
    + rewrite (insert_id _ _ _ E), set_fs_same. reflexivity.
  - apply String.eqb_neq in Hne. rewrite Hne.
    unfold stream_put, timestampForLog, run_start_marker. simpl.
    destruct (w_bufsiz w <? _)%nat; simpl.
    + unfold write_append. simpl. rewrite lookup_insert_eq. simpl.
      unfold set_fs. simpl. rewrite insert_insert_eq. reflexivity.
    + reflexivity.
Qed.

Lemma is_directory_put_log (data : string) (w : World) (q : string) :
  is_directory w (detectLogFilePath w) = false ->
  is_directory (put_log data w) q = is_directory w q.
Proof.
  intros Hd. unfold is_directory, status in *. unfold put_log. simpl.
  destruct (String.eqb q ""); [reflexivity|].
  destruct (decide (detectLogFilePath w = q)) as [<-|Hne].
  - rewrite lookup_insert_eq.
    pose proof (detectLogFilePath_not_empty w) as Hn. apply String.eqb_neq in Hn.
    rewrite Hn in Hd. destruct (w_fs w !! detectLogFilePath w) as [[d|]|]; congruence.
  - rewrite lookup_insert_ne by exact Hne. reflexivity.
Qed.

Lemma detectLogFilePath_put_log (data : string) (w : World) :
  is_directory w (detectLogFilePath w) = false ->
  detectLogFilePath (put_log data w) = detectLogFilePath w.
Proof.
  intros Hd.
  assert (temp_directory_path (put_log data w) = temp_directory_path w) as Ht.
  { unfold temp_directory_path.
    change (w_tmpdir (put_log data w)) with (w_tmpdir w).
    rewrite (is_directory_put_log data w _ Hd). reflexivity. }
  unfold detectLogFilePath at 1. rewrite Ht. reflexivity.
Qed.

Lemma status_put_log (data : string) (w : World) :
  status (put_log data w) (detectLogFilePath w) = Some (File data).
Proof.
  rewrite status_lookup by apply detectLogFilePath_not_empty.
  unfold put_log. simpl. apply lookup_insert_eq.
Qed.

Lemma put_log_put_log (d1 d2 : string) (w : World) :
  set_fs (<[detectLogFilePath w := File d2]> (w_fs (put_log d1 w))) (put_log d1 w)
  = put_log d2 w.
Proof. unfold put_log, set_fs. simpl. rewrite insert_insert_eq. reflexivity. Qed.

Lemma clearLogCommand_opens (pending : option string) (data : string) (w : World) :
  w_fails w (OpenTrunc (detectLogFilePath w)) = None ->
  clearLogCommand (mkLogger (detectLogFilePath w) pending, put_log data w)
  = (0, (mkLogger (detectLogFilePath w) pending,
         add_out ("Log file cleared: " +:+ detectLogFilePath w +:+ nl) (put_log "" w))).
Proof.
  intros Ht.
  pose proof (detectLogFilePath_not_empty w) as Hne. apply String.eqb_neq in Hne.
  unfold clearLogCommand, clearLogFile, lift_os, open_trunc.
  rewrite !bind_eq. cbn [fst snd get_logger logFilePath_].
  change (w_fails (put_log data w)) with (w_fails w).
  rewrite Ht, status_put_log, Hne, put_log_put_log. reflexivity.
Qed.

Lemma showLogCommand_opens (pending : option string) (data : string) (w : World) :
  w_fails w (OpenRead (detectLogFilePath w)) = None ->
  showLogCommand (mkLogger (detectLogFilePath w) pending, put_log data w)
  = (Returned 0, (mkLogger (detectLogFilePath w) pending,
         add_out ("Log file: " +:+ detectLogFilePath w +:+ nl +:+ data) (put_log data w))).
Proof.
  intros Hr.
  unfold showLogCommand, readFileContents, open_read.
  rewrite !bind_eq. cbn [fst snd get_logger get_world logFilePath_].
  change (w_fails (put_log data w)) with (w_fails w).
  rewrite Hr, status_put_log. reflexivity.
Qed.

Lemma Logger_close_put_log (pending data line : string) (w : World) :
  Logger_close (mkLogger (detectLogFilePath w) (Some pending),
                add_out line (put_log data w))
  = add_out line (put_log (data +:+ pending) w).
Proof.
  unfold Logger_close, write_append. cbn [stream_ logFilePath_].
  change (w_fs (add_out line (put_log data w)))
    with (<[detectLogFilePath w := File data]> (w_fs w)).
  rewrite lookup_insert_eq, insert_insert_eq. reflexivity.
Qed.

Lemma run_clear (c : string) (w : World) :
  is_clear_token c = true ->
  log_opens w ->
  runApplication [c] w
  = (Returned 0,
     add_out ("Log file cleared: " +:+ detectLogFilePath w +:+ nl)
             (put_log (if marker_overflows w then "" else run_start_marker (w_now w)) w)).
Proof.
  intros Hc Ho. pose proof (clear_token_not_show c Hc) as Hs.
  pose proof Ho as (Ha & Ht & Hr & Hd).
  unfold runApplication, normaliseArguments, dispatch.
  rewrite (Logger_new_opens w Ho). rewrite !bind_eq.
  destruct (marker_overflows w); cbn [fst snd get_logger get_world]; rewrite Hs, Hc.
  all: rewrite bind_eq, (clearLogCommand_opens _ _ w Ht); cbn [fst snd ret].
  all: rewrite Logger_close_put_log; reflexivity.
Qed.

Lemma run_show (s : string) (w : World) :
  is_show_token s = true ->
  log_opens w ->
  runApplication [s] w
  = (Returned 0,
     if marker_overflows w
     then add_out ("Log file: " +:+ detectLogFilePath w +:+ nl
                   +:+ log_data w +:+ run_start_marker (w_now w))
                  (put_log (log_data w +:+ run_start_marker (w_now w)) w)
     else add_out ("Log file: " +:+ detectLogFilePath w +:+ nl +:+ log_data w)
                  (put_log (log_data w +:+ run_start_marker (w_now w)) w)).
Proof.
  intros Hs Ho. pose proof Ho as (Ha & Ht & Hr & Hd).
  unfold runApplication, normaliseArguments, dispatch.
  rewrite (Logger_new_opens w Ho). rewrite !bind_eq.
  destruct (marker_overflows w); cbn [fst snd get_logger get_world]; rewrite Hs.
  all: rewrite (showLogCommand_opens _ _ w Hr); cbn [fst snd ret].
  all: rewrite Logger_close_put_log; rewrite ?str_app_nil_r; reflexivity.
Qed.

(** C4 against the code.  When the log file can be opened, a clear-log
    run leaves a log that is not empty: the marker of the clearing run
    itself, which was still in the buffer of the stream when the file was
    emptied and reached the file when the run ended.  The show-log run
    that follows finds the log (status 0) and prints that marker.  Only
    when the marker alone overflows the buffer of the stream is it
    written before the file is emptied, and the log is left empty. *)
Theorem clear_then_show_leaves_a_marker (c s later : string) (w : World) :
  is_clear_token c = true ->
  is_show_token s = true ->
  log_opens w ->
  let w1 := next_invocation later (snd (runApplication [c] w)) in
  let left_behind := if marker_overflows w then "" else run_start_marker (w_now w) in
  fst (runApplication [c] w) = Returned 0
  /\ log_data w1 = left_behind
  /\ fst (runApplication [s] w1) = Returned 0
  /\ w_out (snd (runApplication [s] w1))
     = "Log file: " +:+ detectLogFilePath w +:+ nl +:+ left_behind
       +:+ (if marker_overflows w1 then run_start_marker later else "")
  /\ (marker_overflows w = false -> left_behind <> "").
Proof.
  intros Hc Hs Ho. pose proof Ho as (Ha & Ht & Hr & Hd).
  cbv zeta. rewrite (run_clear c w Hc Ho). cbn [fst snd].
  set (kept := if marker_overflows w then "" else run_start_marker (w_now w)).
  set (w1 := next_invocation later
               (add_out ("Log file cleared: " +:+ detectLogFilePath w +:+ nl)
                        (put_log kept w))).
  assert (detectLogFilePath w1 = detectLogFilePath w) as Hlp
    by exact (detectLogFilePath_put_log kept w Hd).
  assert (log_opens w1) as Ho1.
  { unfold log_opens. rewrite Hlp.
    change (w_fails w1) with (w_fails w).
    repeat split; try assumption.
    change (is_directory w1 (detectLogFilePath w))
      with (is_directory (put_log kept w) (detectLogFilePath w)).
    rewrite is_directory_put_log; assumption. }
  assert (log_data w1 = kept) as Hdata.
  { unfold log_data. rewrite Hlp.
    change (w_fs w1) with (<[detectLogFilePath w := File kept]> (w_fs w)).
    rewrite lookup_insert_eq. reflexivity. }
  rewrite (run_show s w1 Hs Ho1). cbn [fst snd].
  rewrite Hdata, Hlp. change (w_now w1) with later.
  split; [reflexivity|]. split; [reflexivity|]. split; [reflexivity|].
  split.
  - destruct (marker_overflows w1); cbn [w_out add_out put_log set_fs];
      rewrite ?str_app_nil_r; reflexivity.
  - intros Hov. subst kept. rewrite Hov. discriminate.
Qed.

Lemma clear_then_show_leaves_a_marker_witness :
  let w := Sample.with_log in
  let w1 := next_invocation "2024-05-01 10:00:07" (snd (runApplication ["--clear-log"] w)) in
  w_fs w1 !! "/tmp/PushToFolders.log"
  = Some (File ("--- Run started at 2024-05-01 10:00:00 ---" +:+ nl))
  /\ fst (runApplication ["--show-log"] w1) = Returned 0
  /\ w_out (snd (runApplication ["--show-log"] w1))
     = "Log file: /tmp/PushToFolders.log" +:+ nl
       +:+ "--- Run started at 2024-05-01 10:00:00 ---" +:+ nl.
Proof.
  intros w w1.
  assert (log_opens w) as Ho by (vm_compute; repeat split; reflexivity).
  destruct (clear_then_show_leaves_a_marker "--clear-log" "--show-log"
              "2024-05-01 10:00:07" w eq_refl eq_refl Ho) as (_ & _ & H3 & H4 & _).
  split; [vm_compute; reflexivity|].
  split; [exact H3|].
  subst w1. rewrite H4. vm_compute. reflexivity.
Defined.

(** The two runs on a log with an earlier entry: after the clearing run
    the showing run finds the log file (exit status 0, not the report of
    a missing log) and prints a log that is not empty. *)
Example show_after_clear_is_not_empty :
  let w := Sample.with_log in
  let w1 := snd (runApplication ["--clear-log"] w) in
  let run2 := runApplication ["--show-log"] (next_invocation "2024-05-01 10:00:07" w1) in
  fst (runApplication ["--clear-log"] w) = Returned 0
  /\ w_fs w1 !! "/tmp/PushToFolders.log"
     = Some (File ("--- Run started at 2024-05-01 10:00:00 ---" +:+ nl))
  /\ fst run2 = Returned 0
  /\ w_out (snd run2)
     = "Log file: /tmp/PushToFolders.log" +:+ nl
       +:+ "--- Run started at 2024-05-01 10:00:00 ---" +:+ nl
  /\ w_err (snd run2) = "".
Proof. vm_compute. repeat split; reflexivity. Qed.

(** * Further properties of the code *)

(** ** Where the mover puts a file *)

Lemma has_sep_app (a b : string) :
  Path.has_sep (a +:+ b) = Path.has_sep a || Path.has_sep b.
Proof.
  induction a as [|c a IH]; [reflexivity|].
  rewrite str_app_cons. simpl. rewrite IH. apply orb_assoc.
Qed.

Lemma filename_without_sep (b : string) :
  Path.has_sep b = false -> Path.filename b = b.
Proof.
  destruct b as [|c r]; simpl; [reflexivity|]. intros H.
  apply orb_false_iff in H as [Hc Hr]. rewrite Hr, Hc. reflexivity.
Qed.

Lemma filename_after_sep (a b : string) :
  Path.has_sep b = false -> Path.filename (a +:+ String Path.sep b) = b.
Proof.
  intros Hb. induction a as [|c a IH].
  - change ("" +:+ String Path.sep b) with (String Path.sep b).
    cbn [Path.filename]. rewrite Hb. reflexivity.
  - rewrite str_app_cons. simpl. rewrite has_sep_app. simpl.
    rewrite orb_true_r. exact IH.
Qed.

Lemma filename_after_folder (a b : string) :
  Path.has_filename a = false -> Path.has_sep b = false ->
  Path.filename (a +:+ b) = b.
Proof.
  intros Ha Hb. induction a as [|c a IH].
  - apply filename_without_sep. exact Hb.
  - unfold Path.has_filename in *. rewrite str_app_cons. simpl in *.
    rewrite has_sep_app, Hb, orb_false_r.
    destruct (Path.has_sep a) eqn:Hs.
    + apply IH. exact Ha.
    + destruct (Path.is_sep c) eqn:Hc.
      * destruct a; [|discriminate]. reflexivity.
      * discriminate.
Qed.

Lemma absolute_has_sep (b : string) :
  Path.has_sep b = false -> Path.is_absolute b = false.
Proof. destruct b; simpl; [reflexivity|]. intros H. apply orb_false_iff in H. tauto. Qed.

(** The last element of [d / name] is [name]. *)
Lemma filename_append (d name : string) :
  Path.has_sep name = false -> Path.filename (d </> name) = name.
Proof.
  intros Hn. unfold Path.append. rewrite (absolute_has_sep _ Hn).
  destruct (Path.has_filename d) eqn:Hd.
  - apply (filename_after_sep d name Hn).
  - apply filename_after_folder; assumption.
Qed.

Lemma last_dot_suffix_is_suffix (r e : string) :
  Path.last_dot_suffix r = Some e -> exists pre, r = pre +:+ e.
Proof.
  revert e. induction r as [|c r IH]; intros e; simpl; [discriminate|].
  destruct (Path.last_dot_suffix r) as [e'|].
  - intros H. injection H as <-. destruct (IH e' eq_refl) as [pre ->].
    exists (String c pre). reflexivity.
  - destruct (Path.is_dot c); [|discriminate]. intros H. injection H as <-.
    exists "". reflexivity.
Qed.

Lemma substring_prefix (a b : string) :
  substring 0 (String.length (a +:+ b) - String.length b) (a +:+ b) = a.
Proof.
  rewrite length_app, Nat.add_sub.
  induction a as [|c a IH].
  - simpl. destruct b; reflexivity.
  - rewrite str_app_cons. simpl. rewrite IH. reflexivity.
Qed.

(** The filename splits into a stem with at least one character and the
    extension. *)
Lemma filename_splits (p : string) :
  Path.stem p +:+ Path.extension p = Path.filename p
  /\ (Path.filename p <> "" -> Path.stem p <> "").
Proof.
  unfold Path.stem, Path.extension.
  destruct (Path.filename p) as [|c r] eqn:Hf.
  - split; [reflexivity|congruence].
  - destruct (String.eqb (String c r) "..").
    + simpl String.length. rewrite Nat.sub_0_r.
      change (S (String.length r)) with (String.length (String c r)).
      rewrite substring_whole, str_app_nil_r. split; [reflexivity|discriminate].
    + destruct (Path.last_dot_suffix r) as [e|] eqn:He.
      * destruct (last_dot_suffix_is_suffix r e He) as [pre ->].
        change (String c (pre +:+ e)) with (String c pre +:+ e).
        rewrite substring_prefix. split; [reflexivity|discriminate].
      * simpl String.length. rewrite Nat.sub_0_r.
        change (S (String.length r)) with (String.length (String c r)).
        rewrite substring_whole, str_app_nil_r. split; [reflexivity|discriminate].
Qed.

Lemma stem_without_sep (p : string) : Path.has_sep (Path.stem p) = false.
Proof.
  pose proof (filename_no_sep p) as H.
  destruct (filename_splits p) as [E _]. rewrite <- E in H.
  rewrite has_sep_app in H. apply orb_false_iff in H. tauto.
Qed.

Lemma extension_by_filename (p q : string) :
  Path.filename p = Path.filename q -> Path.extension p = Path.extension q.
Proof. intros H. unfold Path.extension. rewrite H. reflexivity. Qed.

Lemma destinationFolder_name (p : string) :
  Path.filename (destinationFolder p) = Path.stem p.
Proof. apply filename_append. apply stem_without_sep. Qed.

Lemma destinationFile_name (p : string) :
  Path.filename (destinationFile p) = Path.filename p.
Proof. apply filename_append. apply filename_no_sep. Qed.

(** X1. The mover's destination keeps the names: the folder is called
    by the stem of the file, the file keeps its name in it, stem and
    extension together are that name, and so the classifier says of the
    destination what it says of the source. *)
Theorem destination_keeps_the_names (p : string) :
  Path.filename (destinationFolder p) = Path.stem p
  /\ Path.filename (destinationFile p) = Path.filename p
  /\ Path.stem p +:+ Path.extension p = Path.filename p
  /\ isImageFile (destinationFile p) = isImageFile p.
Proof.
  split; [apply destinationFolder_name|].
  split; [apply destinationFile_name|].
  split; [apply filename_splits|].
  unfold isImageFile.
  rewrite (extension_by_filename _ _ (destinationFile_name p)). reflexivity.
Qed.

(** ** The classifier's case folding *)

Lemma tolower_idempotent (ch : ascii) : tolower (tolower ch) = tolower ch.
Proof.
  unfold tolower.
  destruct ((65 <=? nat_of_ascii ch)%nat && (nat_of_ascii ch <=? 90)%nat)%bool eqn:E;
    [|rewrite E; reflexivity].
  apply andb_true_iff in E as [H1 H2]. apply Nat.leb_le in H1, H2.
  rewrite nat_ascii_embedding by lia.
  replace ((nat_of_ascii ch + 32 <=? 90)%nat) with false
    by (symmetry; apply Nat.leb_gt; lia).
  rewrite andb_false_r. reflexivity.
Qed.

(** X2. Lower-casing keeps the length, touches nothing but the capital
    letters A to Z, and lower-casing twice is lower-casing once. *)
Theorem toLowerCopy_folds_case_once (text : string) :
  String.length (toLowerCopy text) = String.length text
  /\ toLowerCopy (toLowerCopy text) = toLowerCopy text
  /\ (no_upper text = true -> toLowerCopy text = text)
  /\ no_upper (toLowerCopy text) = true.
Proof.
  induction text as [|ch rest (IH1 & IH2 & IH3 & IH4)]; simpl.
  - repeat split; reflexivity.
  - split; [rewrite IH1; reflexivity|].
    split; [rewrite tolower_idempotent, IH2; reflexivity|].
    split.
    + intros H. apply andb_true_iff in H as [Hc Hr].
      rewrite (IH3 Hr). f_equal.
      apply negb_true_iff in Hc. unfold is_upper in Hc. unfold tolower.
      rewrite Hc. reflexivity.
    + rewrite IH4, andb_true_r. apply negb_true_iff.
      unfold is_upper, tolower.
      destruct ((65 <=? nat_of_ascii ch)%nat && (nat_of_ascii ch <=? 90)%nat)%bool eqn:E;
        [|exact E].
      apply andb_true_iff in E as [H1 H2]. apply Nat.leb_le in H1, H2.
      rewrite nat_ascii_embedding by lia.
      apply andb_false_iff. right. apply Nat.leb_gt. lia.
Qed.

(** ** What the mover reports *)

Section Mute.

Lemma mute_ret {A : Type} (a : A) : mute (ret a).
Proof. intros st. reflexivity. Qed.

Lemma mute_bind {A B : Type} (m : M A) (k : A -> M B) :
  mute m -> (forall a, mute (k a)) -> mute (bind m k).
Proof. intros Hm Hk st. rewrite bind_eq, Hk, Hm. reflexivity. Qed.

Lemma mute_get_world : mute get_world.
Proof. intros st. reflexivity. Qed.

Lemma mute_cout (s : string) : mute (cout s).
Proof. intros st. reflexivity. Qed.

Lemma w_err_write_append (p s : string) (w : World) :
  w_err (write_append p s w) = w_err w.
Proof. unfold write_append. destruct (w_fs w !! p) as [[d|]|]; reflexivity. Qed.

Lemma mute_stream_put (line : string) : mute (stream_put line).
Proof.
  intros [lg w]. unfold stream_put. simpl.
  destruct (stream_ lg) as [pending|]; [|reflexivity].
  destruct (w_bufsiz w <? String.length (pending +:+ line))%nat; simpl;
    [apply w_err_write_append|reflexivity].
Qed.

Lemma mute_logError (target message : string) : mute (logError target message).
Proof.
  unfold logError. apply mute_bind; [apply mute_get_world|].
  intros w. apply mute_stream_put.
Qed.

Lemma mute_logInfo (message : string) : mute (logInfo message).
Proof.
  unfold logInfo. apply mute_bind; [apply mute_get_world|].
  intros w. apply mute_stream_put.
Qed.

End Mute.

Lemma report_reported {A : Type} (target message line : string) (a : A) (st : St) :
  fst (report target message line a st) = a
  /\ failure_reported target message line st (snd (report target message line a st)).
Proof.
  split; [apply fst_report|]. destruct st as [lg w].
  unfold report. rewrite !bind_eq. cbn [cerr ret fst snd].
  pose proof (keeps_logError (logFilePath_ lg) nowhere target message lg w eq_refl)
    as [Hp Hq].
  constructor; cbn [fst snd].
  - exact Hp.
  - apply (silent_logError target message (lg, w)).
  - cbn [add_err w_err]. f_equal. apply (mute_logError target message (lg, w)).
  - intros t Ht. apply (logError_text target message (lg, w) t) in Ht.
    exact Ht.
  - eapply quiet_trans; [exact Hq|apply quiet_add_err].
Qed.

Lemma ensureDirectory_cases (dir : string) (lg : Logger) (w : World) :
  ensureDirectory dir (lg, w)
  = if is_directory w dir then (true, (lg, w))
    else if fs_exists w dir
         then report dir "A non-directory with the desired folder name already exists."
                     ("Cannot create folder '" +:+ dir
                      +:+ "' because a file exists with that name." +:+ nl)
                     false (lg, w)
         else match create_directories w dir with
              | (None, w1) => (true, (lg, w1))
              | (Some msg, w1) =>
                  report dir ("Failed to create folder: " +:+ msg)
                         ("Failed to create folder '" +:+ dir +:+ "': " +:+ msg +:+ nl)
                         false (lg, w1)
              end.
Proof.
  unfold ensureDirectory. rewrite bind_eq. cbn [get_world fst snd].
  unfold is_directory, fs_exists.
  destruct (status w dir) as [[d|]|]; cbn [negb]; try reflexivity.
  rewrite bind_eq. unfold lift_os. cbn [fst snd].
  destruct (create_directories w dir) as [[msg|] w1]; reflexivity.
Qed.

Lemma moveFileToFolder_after_folder (p : string) (lg : Logger) (w w1 : World) :
  is_regular_file w p = true ->
  isImageFile p = true ->
  ensureDirectory (destinationFolder p) (lg, w) = (true, (lg, w1)) ->
  moveFileToFolder p (lg, w)
  = if fs_exists w1 (destinationFile p)
    then report (destinationFile p) "Destination file already exists."
                ("Destination already exists: " +:+ destinationFile p +:+ nl)
                false (lg, w1)
    else match rename w1 p (destinationFile p) with
         | (Some msg, w2) =>
             report (destinationFile p) ("Failed to move file: " +:+ msg)
                    ("Failed to move '" +:+ p +:+ "': " +:+ msg +:+ nl)
                    false (lg, w2)
         | (None, w2) =>
             (logInfo ("Moved " +:+ p +:+ " to " +:+ destinationFolder p) ;;;
              cout ("Moved '" +:+ Path.filename p +:+ "' into '"
                    +:+ Path.filename (destinationFolder p) +:+ "'" +:+ nl) ;;;
              ret true) (lg, w2)
         end.
Proof.
  intros Hreg Himg Hdir.
  unfold moveFileToFolder. rewrite bind_eq. cbn [get_world fst snd].
  rewrite (regular_exists _ _ Hreg), Hreg, Himg. cbn [negb].
  rewrite bind_eq, Hdir. cbn [fst snd negb].
  rewrite bind_eq. cbn [get_world fst snd].
  destruct (fs_exists w1 (destinationFile p)); [reflexivity|].
  rewrite bind_eq. unfold lift_os. cbn [fst snd].
  destruct (rename w1 p (destinationFile p)) as [[msg|] w2]; reflexivity.
Qed.

Lemma mover_on_missing (p : string) (lg : Logger) (w : World) :
  fs_exists w p = false ->
  moveFileToFolder p (lg, w)
  = report p "File does not exist." ("File not found: " +:+ p +:+ nl) false (lg, w).
Proof.
  intros H. unfold moveFileToFolder. rewrite bind_eq. cbn [get_world fst snd].
  rewrite H. reflexivity.
Qed.

(** X3. A path that names nothing: the mover answers [false] and
    reports it, with the ERROR entry (File does not exist) against the
    path and the line (File not found) on standard error; nothing is
    printed on standard output and the tree is untouched. *)
Theorem missing_file_is_reported (p : string) (lg : Logger) (w : World) :
  fs_exists w p = false ->
  moved p (lg, w) = false
  /\ failure_reported p "File does not exist." ("File not found: " +:+ p +:+ nl)
                      (lg, w) (snd (moveFileToFolder p (lg, w))).
Proof.
  intros H. unfold moved. rewrite (mover_on_missing p lg w H).
  apply report_reported.
Qed.

Lemma missing_file_is_reported_witness :
  let st := Logger_new Sample.mixed_batch in
  moved "F/missing.png" (fst st, snd st) = false
  /\ w_err (snd (snd (moveFileToFolder "F/missing.png" (fst st, snd st))))
     = "File not found: F/missing.png" +:+ nl.
Proof.
  intros st.
  destruct (missing_file_is_reported "F/missing.png" (fst st) (snd st))
    as [H1 H2]; [vm_compute; reflexivity|].
  split; [exact H1|]. rewrite (reported_err _ _ _ _ _ H2). vm_compute. reflexivity.
Defined.

(** X4. A path that names a directory (anything that is there and is
    no regular file): the mover answers [false] and reports it, with the
    ERROR entry (Path is not a regular file) and the line (Not a file);
    the tree is untouched. *)
Theorem directory_is_not_moved (p : string) (lg : Logger) (w : World) :
  fs_exists w p = true ->
  is_regular_file w p = false ->
  moved p (lg, w) = false
  /\ failure_reported p "Path is not a regular file." ("Not a file: " +:+ p +:+ nl)
                      (lg, w) (snd (moveFileToFolder p (lg, w))).
Proof.
  intros He Hr.
  assert (moveFileToFolder p (lg, w)
          = report p "Path is not a regular file." ("Not a file: " +:+ p +:+ nl)
                   false (lg, w)) as E.
  { unfold moveFileToFolder. rewrite bind_eq. cbn [get_world fst snd].
    rewrite He, Hr. reflexivity. }
  unfold moved. rewrite E. apply report_reported.
Qed.

Lemma directory_is_not_moved_witness :
  let st := Logger_new Sample.mixed_batch in
  moved "F" (fst st, snd st) = false
  /\ w_err (snd (snd (moveFileToFolder "F" (fst st, snd st))))
     = "Not a file: F" +:+ nl.
Proof.
  intros st.
  destruct (directory_is_not_moved "F" (fst st) (snd st))
    as [H1 H2]; [vm_compute; reflexivity|vm_compute; reflexivity|].
  split; [exact H1|]. rewrite (reported_err _ _ _ _ _ H2). vm_compute. reflexivity.
Defined.

(** X5. A regular file with an extension the classifier rejects is
    passed over as routine: the mover answers [false], writes one INFO
    entry (Skipping non-image file) and no ERROR, prints nothing on
    either console stream, and leaves the tree alone. *)
Theorem unsupported_file_is_skipped_quietly (p : string) (lg : Logger) (w : World) :
  is_regular_file w p = true ->
  isImageFile p = false ->
  moved p (lg, w) = false
  /\ w_out (after_move p (lg, w)) = w_out w
  /\ w_err (after_move p (lg, w)) = w_err w
  /\ (forall t, log_text (lg, w) = Some t ->
        log_text (snd (moveFileToFolder p (lg, w)))
        = Some (t +:+ info_line (w_now w) ("Skipping non-image file: " +:+ p)))
  /\ quiet (logFilePath_ lg) nowhere w (after_move p (lg, w)).
Proof.
  intros Hr Hi.
  assert (moveFileToFolder p (lg, w)
          = (false, snd (logInfo ("Skipping non-image file: " +:+ p) (lg, w)))) as E.
  { unfold moveFileToFolder. rewrite bind_eq. cbn [get_world fst snd].
    rewrite (regular_exists _ _ Hr), Hr, Hi. cbn [negb].
    rewrite bind_eq. reflexivity. }
  unfold moved, after_move. rewrite E. cbn [fst snd].
  split; [reflexivity|].
  split; [apply (silent_logInfo _ (lg, w))|].
  split; [apply (mute_logInfo _ (lg, w))|].
  split; [intros t Ht; apply (logInfo_text _ (lg, w) t Ht)|].
  apply (keeps_logInfo (logFilePath_ lg) nowhere _ lg w eq_refl).
Qed.

Lemma unsupported_file_is_skipped_quietly_witness :
  let st := Logger_new Sample.only_notes in
  moved "F/notes.txt" (fst st, snd st) = false
  /\ w_err (after_move "F/notes.txt" (fst st, snd st)) = ""
  /\ log_text (snd (moveFileToFolder "F/notes.txt" (fst st, snd st)))
     = Some ("--- Run started at 2024-05-01 10:00:00 ---" +:+ nl
             +:+ "[2024-05-01 10:00:00] INFO: Skipping non-image file: F/notes.txt"
             +:+ nl).
Proof.
  intros st.
  destruct (unsupported_file_is_skipped_quietly "F/notes.txt" (fst st) (snd st))
    as (H1 & _ & H3 & H4 & _); [vm_compute; reflexivity|reflexivity|].
  split; [exact H1|]. split; [rewrite H3; vm_compute; reflexivity|].
  erewrite H4; [|vm_compute; reflexivity]. vm_compute. reflexivity.
Defined.

(** ** Creating the folder *)

Lemma create_directory_console (w : World) (q : string) :
  w_out (snd (create_directory w q)) = w_out w
  /\ w_err (snd (create_directory w q)) = w_err w.
Proof.
  unfold create_directory.
  destruct (status w q) as [[d|]|]; try (split; reflexivity).
  destruct (String.eqb q ""); [split; reflexivity|].
  destruct (w_fails w (Mkdir q)); split; reflexivity.
Qed.

Lemma create_all_console (todo : list string) :
  forall w, w_out (snd (create_all todo w)) = w_out w
            /\ w_err (snd (create_all todo w)) = w_err w.
Proof.
  induction todo as [|q todo IH]; intros w; simpl; [split; reflexivity|].
  pose proof (create_directory_console w q) as [H1 H2].
  destruct (create_directory w q) as [[e|] w']; simpl in *; [split; assumption|].
  destruct (IH w') as [H3 H4]. split; congruence.
Qed.

Lemma create_directories_console (w : World) (p : string) :
  w_out (snd (create_directories w p)) = w_out w
  /\ w_err (snd (create_directories w p)) = w_err w.
Proof.
  unfold create_directories.
  destruct (String.eqb p ""); [split; reflexivity|].
  destruct (status w p) as [[d|]|]; try (split; reflexivity).
  destruct (missing_dirs _ w _) as [e|missing]; [split; reflexivity|].
  destruct (1000 <? List.length missing)%nat; [split; reflexivity|].
  apply create_all_console.
Qed.

(** Creating directories never changes a node that is there. *)
Lemma create_directories_keeps (w : World) (p q : string) :
  is_Some (w_fs w !! q) ->
  w_fs (snd (create_directories w p)) !! q = w_fs w !! q.
Proof.
  intros Hq.
  apply (quiet_lookup_other (String "x" q) (above p));
    [apply create_directories_quiet| |exact Hq].
  intros E. apply (f_equal String.length) in E. simpl in E. lia.
Qed.

Lemma create_directory_makes (w w' : World) (q : string) :
  create_directory w q = (None, w') -> is_directory w' q = true.
Proof.
  unfold create_directory, is_directory.
  destruct (status w q) as [[d|]|] eqn:E.
  - discriminate.
  - intros H. injection H as <-. rewrite E. reflexivity.
  - destruct (String.eqb q "") eqn:Hq; [discriminate|].
    destruct (w_fails w (Mkdir q)); [discriminate|].
    intros H. injection H as <-. unfold status. rewrite Hq. simpl.
    rewrite lookup_insert_eq. reflexivity.
Qed.

Lemma create_directory_keeps_directories (w : World) (q x : string) :
  is_directory w x = true -> is_directory (snd (create_directory w q)) x = true.
Proof.
  unfold create_directory.
  destruct (status w q) as [[d|]|] eqn:E; try (simpl; tauto).
  destruct (String.eqb q "") eqn:Hq; [simpl; tauto|].
  destruct (w_fails w (Mkdir q)); [simpl; tauto|]. simpl.
  unfold is_directory, status in *. simpl.
  destruct (String.eqb x ""); [tauto|].
  destruct (decide (q = x)) as [<-|Hne].
  - rewrite lookup_insert_eq. reflexivity.
  - rewrite lookup_insert_ne by exact Hne. tauto.
Qed.

Lemma create_all_keeps_directories (todo : list string) (x : string) :
  forall w, is_directory w x = true -> is_directory (snd (create_all todo w)) x = true.
Proof.
  induction todo as [|q todo IH]; intros w H; simpl; [exact H|].
  pose proof (create_directory_keeps_directories w q x H) as H1.
  destruct (create_directory w q) as [[e|] w1]; simpl in *; [exact H1|].
  apply IH. exact H1.
Qed.

Lemma create_all_makes (todo : list string) (x : string) :
  forall w w1, create_all todo w = (None, w1) -> In x todo -> is_directory w1 x = true.
Proof.
  induction todo as [|q todo IH]; intros w w1 H Hin; [destruct Hin|].
  simpl in H. destruct (create_directory w q) as [[e|] w2] eqn:E; [discriminate|].
  destruct Hin as [<-|Hin].
  - pose proof (create_directory_makes _ _ _ E) as Hq.
    pose proof (create_all_keeps_directories todo q w2 Hq) as Hk.
    rewrite H in Hk. exact Hk.
  - eapply IH; eassumption.
Qed.

Lemma missing_dirs_head (fuel : nat) (w : World) (pp : string) (l : list string) :
  is_dot_or_dotdot (Path.filename pp) = false ->
  missing_dirs fuel w pp = inr l -> In pp l.
Proof.
  intros Hdot. destruct fuel as [|fuel]; simpl; [discriminate|].
  rewrite Hdot.
  destruct (if String.eqb (Path.parent_path pp) "" || String.eqb (Path.parent_path pp) pp
            then inr []
            else match status w (Path.parent_path pp) with
                 | Some (File _) => inl "Not a directory"
                 | Some Dir => inr []
                 | None => missing_dirs fuel w (Path.parent_path pp)
                 end) as [e|l1]; [discriminate|].
  intros H. injection H as <-. left. reflexivity.
Qed.

(** When [create_directories] reports no error for a path that ends in
    a proper name, the path is a directory afterwards. *)
Lemma create_directories_makes (w : World) (p : string) :
  Path.has_filename p = true ->
  is_dot_or_dotdot (Path.filename p) = false ->
  fst (create_directories w p) = None ->
  is_directory (snd (create_directories w p)) p = true.
Proof.
  intros Hf Hdot. unfold create_directories.
  destruct (String.eqb p ""); [discriminate|].
  destruct (status w p) as [[d|]|] eqn:E.
  - discriminate.
  - intros _. simpl. unfold is_directory. rewrite E. reflexivity.
  - rewrite Hf, andb_false_r.
    destruct (missing_dirs (S (String.length p)) w p) as [e|missing] eqn:M;
      [discriminate|].
    destruct (1000 <? List.length missing)%nat; [discriminate|].
    intros H.
    destruct (create_all (rev missing) w) as [ec w1] eqn:C.
    cbn [fst snd] in *. subst ec.
    apply (create_all_makes _ p _ _ C).
    apply in_rev. rewrite rev_involutive.
    exact (missing_dirs_head _ _ _ _ Hdot M).
Qed.

(** The folder of a supported file ends in a proper name, the stem. *)
Lemma destinationFolder_has_name (p : string) :
  isImageFile p = true -> Path.has_filename (destinationFolder p) = true.
Proof.
  intros H. unfold Path.has_filename. rewrite destinationFolder_name.
  pose proof (proj2 (filename_splits p) (isImageFile_has_filename p H)) as Hs.
  destruct (Path.stem p); [congruence|reflexivity].
Qed.

Lemma ensureDirectory_success (dir : string) (lg : Logger) (w : World) :
  fst (ensureDirectory dir (lg, w)) = true ->
  exists w1, ensureDirectory dir (lg, w) = (true, (lg, w1))
             /\ ((is_directory w dir = true /\ w1 = w)
                 \/ (fs_exists w dir = false /\ create_directories w dir = (None, w1))).
Proof.
  rewrite ensureDirectory_cases.
  destruct (is_directory w dir) eqn:Hd.
  - intros _. exists w. split; [reflexivity|]. left. split; reflexivity.
  - destruct (fs_exists w dir) eqn:He.
    + unfold report. rewrite fst_report. discriminate.
    + destruct (create_directories w dir) as [[msg|] w1] eqn:Hc.
      * unfold report. rewrite fst_report. discriminate.
      * intros _. exists w1. split; [reflexivity|]. right. split; reflexivity.
Qed.

(** X6. After a successful [ensureDirectory] the folder is a directory
    (for a path that ends in a proper name); the call has written
    nothing, neither to the log nor to the console, and every node that
    was in the tree is as it was. *)
Theorem ensureDirectory_leaves_a_directory (dir : string) (lg : Logger) (w : World) :
  Path.has_filename dir = true ->
  is_dot_or_dotdot (Path.filename dir) = false ->
  fst (ensureDirectory dir (lg, w)) = true ->
  is_directory (snd (snd (ensureDirectory dir (lg, w)))) dir = true
  /\ fst (snd (ensureDirectory dir (lg, w))) = lg
  /\ w_out (snd (snd (ensureDirectory dir (lg, w)))) = w_out w
  /\ w_err (snd (snd (ensureDirectory dir (lg, w)))) = w_err w
  /\ (forall q, is_Some (w_fs w !! q) ->
        w_fs (snd (snd (ensureDirectory dir (lg, w)))) !! q = w_fs w !! q).
Proof.
  intros Hf Hdot Hok.
  destruct (ensureDirectory_success dir lg w Hok) as (w1 & -> & [[Hd ->]|[He Hc]]);
    cbn [fst snd].
  - repeat split; try reflexivity. exact Hd.
  - pose proof (create_directories_makes w dir Hf Hdot) as Hm.
    pose proof (create_directories_console w dir) as [Ho Her].
    pose proof (create_directories_keeps w dir) as Hk.
    rewrite Hc in *. cbn [fst snd] in *.
    split; [apply Hm; reflexivity|]. repeat split; assumption.
Qed.

Lemma ensureDirectory_leaves_a_directory_witness :
  let st := Logger_new Sample.mixed_batch in
  fst (ensureDirectory "F/a" (fst st, snd st)) = true
  /\ is_directory (snd st) "F/a" = false
  /\ is_directory (snd (snd (ensureDirectory "F/a" (fst st, snd st)))) "F/a" = true.
Proof.
  intros st.
  assert (fst (ensureDirectory "F/a" (fst st, snd st)) = true) as H
    by (vm_compute; reflexivity).
  split; [exact H|]. split; [vm_compute; reflexivity|].
  apply (ensureDirectory_leaves_a_directory "F/a" (fst st) (snd st));
    [reflexivity|reflexivity|exact H].
Defined.

(** X7. The name of the folder is taken by something that is no
    directory: the mover answers [false] and reports it against the
    folder's path (a non-directory with the desired folder name already
    exists); nothing is created and the tree is untouched. *)
Theorem folder_name_taken_is_reported (p : string) (lg : Logger) (w : World) :
  is_regular_file w p = true ->
  isImageFile p = true ->
  fs_exists w (destinationFolder p) = true ->
  is_directory w (destinationFolder p) = false ->
  moved p (lg, w) = false
  /\ failure_reported (destinationFolder p)
       "A non-directory with the desired folder name already exists."
       ("Cannot create folder '" +:+ destinationFolder p
        +:+ "' because a file exists with that name." +:+ nl)
       (lg, w) (snd (moveFileToFolder p (lg, w))).
Proof.
  intros Hreg Himg Hex Hdir.
  assert (moveFileToFolder p (lg, w)
          = report (destinationFolder p)
                   "A non-directory with the desired folder name already exists."
                   ("Cannot create folder '" +:+ destinationFolder p
                    +:+ "' because a file exists with that name." +:+ nl)
                   false (lg, w)) as E.
  { unfold moveFileToFolder. rewrite bind_eq. cbn [get_world fst snd].
    rewrite (regular_exists _ _ Hreg), Hreg, Himg. cbn [negb].
    rewrite bind_eq, ensureDirectory_cases, Hdir, Hex.
    pose proof (report_reported (destinationFolder p)
                  "A non-directory with the desired folder name already exists."
                  ("Cannot create folder '" +:+ destinationFolder p
                   +:+ "' because a file exists with that name." +:+ nl)
                  false (lg, w)) as [Hf _].
    rewrite Hf. cbn [negb].
    destruct (report _ _ _ false (lg, w)) as [b st1]. cbn [fst snd] in *.
    subst b. reflexivity. }
  unfold moved. rewrite E. apply report_reported.
Qed.

Lemma folder_name_taken_is_reported_witness :
  let w := Sample.make [("/tmp", Dir); ("F", Dir); ("F/photo", File "no folder");
                        ("F/photo.png", File "img")]
                       Sample.nothing_fails Sample.no_fault in
  let st := Logger_new w in
  moved "F/photo.png" (fst st, snd st) = false
  /\ w_err (snd (snd (moveFileToFolder "F/photo.png" (fst st, snd st))))
     = "Cannot create folder 'F/photo' because a file exists with that name." +:+ nl.
Proof.
  intros w st.
  destruct (folder_name_taken_is_reported "F/photo.png" (fst st) (snd st))
    as [H1 H2]; try (vm_compute; reflexivity).
  split; [exact H1|]. rewrite (reported_err _ _ _ _ _ H2). vm_compute. reflexivity.
Defined.

(** X8. The folder cannot be created: the mover answers [false] and
    reports the system's message against the folder's path (Failed to
    create folder); the source is still a regular file, and no node that
    was in the tree has changed but for the text added to the log. *)
Theorem folder_creation_failure_is_reported
        (p msg : string) (lg : Logger) (w w1 : World) :
  is_regular_file w p = true ->
  isImageFile p = true ->
  fs_exists w (destinationFolder p) = false ->
  create_directories w (destinationFolder p) = (Some msg, w1) ->
  moved p (lg, w) = false
  /\ failure_reported (destinationFolder p) ("Failed to create folder: " +:+ msg)
       ("Failed to create folder '" +:+ destinationFolder p +:+ "': " +:+ msg +:+ nl)
       (lg, w1) (snd (moveFileToFolder p (lg, w)))
  /\ w_out w1 = w_out w /\ w_err w1 = w_err w
  /\ is_regular_file (after_move p (lg, w)) p = true
  /\ quiet (logFilePath_ lg) (above (destinationFolder p)) w (after_move p (lg, w)).
Proof.
  intros Hreg Himg Hex Hc.
  assert (is_directory w (destinationFolder p) = false) as Hdir.
  { unfold is_directory, fs_exists in *.
    destruct (status w (destinationFolder p)) as [[d|]|]; congruence. }
  assert (moveFileToFolder p (lg, w)
          = report (destinationFolder p) ("Failed to create folder: " +:+ msg)
                   ("Failed to create folder '" +:+ destinationFolder p
                    +:+ "': " +:+ msg +:+ nl) false (lg, w1)) as E.
  { unfold moveFileToFolder. rewrite bind_eq. cbn [get_world fst snd].
    rewrite (regular_exists _ _ Hreg), Hreg, Himg. cbn [negb].
    rewrite bind_eq, ensureDirectory_cases, Hdir, Hex, Hc.
    pose proof (report_reported (destinationFolder p)
                  ("Failed to create folder: " +:+ msg)
                  ("Failed to create folder '" +:+ destinationFolder p
                   +:+ "': " +:+ msg +:+ nl) false (lg, w1)) as [Hf _].
    rewrite Hf. cbn [negb].
    destruct (report _ _ _ false (lg, w1)) as [b st1]. cbn [fst snd] in *.
    subst b. reflexivity. }
  assert (moved p (lg, w) = false) as Hm.
  { unfold moved. rewrite E. apply report_reported. }
  split; [exact Hm|]. split; [rewrite E; apply report_reported|].
  pose proof (create_directories_console w (destinationFolder p)) as [Ho He].
  rewrite Hc in Ho, He. cbn [snd] in Ho, He.
  split; [exact Ho|]. split; [exact He|].
  destruct (moveFileToFolder_failed p lg w Hm) as [_ Hq].
  split; [|exact Hq].
  apply (quiet_regular _ _ _ _ _ Hq). exact Hreg.
Qed.

Lemma folder_creation_failure_is_reported_witness :
  let w := Sample.make [("/tmp", Dir); ("F", Dir); ("F/photo.png", File "img")]
                       (fun c => match c with
                                 | Mkdir _ => Some "Permission denied"
                                 | _ => None
                                 end)
                       Sample.no_fault in
  let st := Logger_new w in
  moved "F/photo.png" (fst st, snd st) = false
  /\ w_err (snd (snd (moveFileToFolder "F/photo.png" (fst st, snd st))))
     = "Failed to create folder 'F/photo': Permission denied" +:+ nl
  /\ is_regular_file (after_move "F/photo.png" (fst st, snd st)) "F/photo.png" = true.
Proof.
  intros w st.
  destruct (folder_creation_failure_is_reported "F/photo.png" "Permission denied"
              (fst st) (snd st) (snd st))
    as (H1 & H2 & _ & _ & H5 & _); try (vm_compute; reflexivity).
  split; [exact H1|]. split; [|exact H5].
  rewrite (reported_err _ _ _ _ _ H2). vm_compute. reflexivity.
Defined.

(** ** The mover, when the folder is there *)

Lemma ensureDirectory_equation (dir : string) (lg : Logger) (w : World) :
  fst (ensureDirectory dir (lg, w)) = true ->
  ensureDirectory dir (lg, w)
  = (true, (lg, snd (snd (ensureDirectory dir (lg, w))))).
Proof.
  intros H. destruct (ensureDirectory_success dir lg w H) as (w1 & E & _).
  rewrite E. reflexivity.
Qed.

Lemma ensureDirectory_made (dir : string) (lg : Logger) (w w1 : World) :
  Path.has_filename dir = true ->
  is_dot_or_dotdot (Path.filename dir) = false ->
  ensureDirectory dir (lg, w) = (true, (lg, w1)) ->
  is_directory w1 dir = true /\ w_out w1 = w_out w /\ w_err w1 = w_err w.
Proof.
  intros Hf Hdot E.
  assert (fst (ensureDirectory dir (lg, w)) = true) as Hok by (rewrite E; reflexivity).
  destruct (ensureDirectory_success dir lg w Hok) as (w2 & E2 & [[Hd ->]|[He Hc]]);
    rewrite E in E2; injection E2 as <-.
  - repeat split; try reflexivity. exact Hd.
  - pose proof (create_directories_makes w dir Hf Hdot) as Hm.
    pose proof (create_directories_console w dir) as [Ho Her].
    rewrite Hc in *. cbn [fst snd] in *.
    split; [apply Hm; reflexivity|]. split; assumption.
Qed.

Lemma not_exists_lookup (w : World) (p : string) :
  p <> "" -> fs_exists w p = false -> w_fs w !! p = None.
Proof.
  intros Hp. unfold fs_exists. rewrite (status_lookup w p Hp).
  destruct (w_fs w !! p); [discriminate|reflexivity].
Qed.

Lemma destinationFile_not_empty (p : string) :
  isImageFile p = true -> destinationFile p <> "".
Proof.
  intros H E. pose proof (destinationFile_longer p H) as L.
  rewrite E in L. simpl in L. lia.
Qed.

(** What a move that succeeds is made of. *)
Lemma moveFileToFolder_success (p : string) (lg : Logger) (w : World) :
  fst (moveFileToFolder p (lg, w)) = true ->
  exists w1 d,
    is_regular_file w p = true
    /\ isImageFile p = true
    /\ ensureDirectory (destinationFolder p) (lg, w) = (true, (lg, w1))
    /\ quiet (logFilePath_ lg) (above (destinationFolder p)) w w1
    /\ w_fs w1 !! p = Some (File d)
    /\ w_fs w1 !! destinationFile p = None
    /\ moveFileToFolder p (lg, w)
       = (logInfo ("Moved " +:+ p +:+ " to " +:+ destinationFolder p) ;;;
          cout ("Moved '" +:+ Path.filename p +:+ "' into '"
                +:+ Path.filename (destinationFolder p) +:+ "'" +:+ nl) ;;;
          ret true)
           (lg, set_fs (<[destinationFile p := File d]> (delete p (w_fs w1))) w1).
Proof.
  intros Hmoved. pose proof Hmoved as Hres.
  rewrite moveFileToFolder_result in Hres.
  repeat (apply andb_true_iff in Hres as [Hres ?]).
  rename Hres into Hreg, H2 into Himg, H1 into Hav.
  pose proof (ensureDirectory_result (destinationFolder p) lg w) as Hok.
  rewrite Hav in Hok.
  destruct (ensureDirectory_world p lg w Hok) as (w1 & Hst & Hq).
  assert (ensureDirectory (destinationFolder p) (lg, w) = (true, (lg, w1))) as E.
  { rewrite (ensureDirectory_equation _ _ _ Hok), Hst. reflexivity. }
  destruct (status_regular w1 p (quiet_regular _ _ _ _ p Hq Hreg)) as (d & Hs & Hl).
  exists w1, d. repeat (split; [assumption|]).
  rewrite (moveFileToFolder_after_folder p lg w w1 Hreg Himg E) in Hmoved |- *.
  destruct (fs_exists w1 (destinationFile p)) eqn:Hex.
  { unfold report in Hmoved. rewrite fst_report in Hmoved. discriminate. }
  split; [apply not_exists_lookup;
          [apply destinationFile_not_empty; exact Himg|exact Hex]|].
  unfold rename in *. rewrite Hs in *.
  destruct (w_fails w1 (Rename p (destinationFile p))) as [msg|].
  { unfold report in Hmoved. rewrite fst_report in Hmoved. discriminate. }
  reflexivity.
Qed.

Lemma w_fs_add_out (s : string) (w : World) : w_fs (add_out s w) = w_fs w.
Proof. reflexivity. Qed.

(** The last steps of a move: the INFO entry and the line on standard
    output. *)
Lemma announce_state (message line : string) (lg : Logger) (w : World) :
  let st := (logInfo message ;;; cout line ;;; ret true) (lg, w) in
  fst st = true
  /\ logFilePath_ (fst (snd st)) = logFilePath_ lg
  /\ w_out (snd (snd st)) = w_out w +:+ line
  /\ w_err (snd (snd st)) = w_err w
  /\ quiet (logFilePath_ lg) nowhere w (snd (snd st))
  /\ (forall t, log_text (lg, w) = Some t ->
        log_text (snd st) = Some (t +:+ info_line (w_now w) message)).
Proof.
  cbv zeta. rewrite !bind_eq. cbn [cout ret fst snd].
  pose proof (keeps_logInfo (logFilePath_ lg) nowhere message lg w eq_refl) as [Hl Hq].
  pose proof (silent_logInfo message (lg, w)) as Ho.
  pose proof (mute_logInfo message (lg, w)) as He.
  pose proof (logInfo_text message (lg, w)) as Ht.
  destruct (logInfo message (lg, w)) as [[] [lg1 w1]]. cbn [fst snd] in *.
  split; [reflexivity|]. split; [exact Hl|].
  split; [simpl; rewrite Ho; reflexivity|]. split; [exact He|].
  split.
  - eapply quiet_trans; [exact Hq|apply quiet_add_out].
  - intros t H. specialize (Ht t H). unfold log_text in *. exact Ht.
Qed.

(** X9. The operating system refuses the rename: the mover answers
    [false] and reports the system's message against the destination
    path (Failed to move file); the source is still a regular file,
    nothing is at the destination, and the folder made for the file stays
    behind as a directory. *)
Theorem refused_rename_is_reported (p msg : string) (lg : Logger) (w : World) :
  is_regular_file w p = true ->
  isImageFile p = true ->
  is_dot_or_dotdot (Path.stem p) = false ->
  folder_available w (destinationFolder p) = true ->
  fs_exists w (destinationFile p) = false ->
  w_fails w (Rename p (destinationFile p)) = Some msg ->
  moved p (lg, w) = false
  /\ failure_reported (destinationFile p) ("Failed to move file: " +:+ msg)
       ("Failed to move '" +:+ p +:+ "': " +:+ msg +:+ nl)
       (lg, snd (snd (ensureDirectory (destinationFolder p) (lg, w))))
       (snd (moveFileToFolder p (lg, w)))
  /\ w_err (after_move p (lg, w))
     = w_err w +:+ "Failed to move '" +:+ p +:+ "': " +:+ msg +:+ nl
  /\ w_out (after_move p (lg, w)) = w_out w
  /\ is_regular_file (after_move p (lg, w)) p = true
  /\ fs_exists (after_move p (lg, w)) (destinationFile p) = false
  /\ is_directory (after_move p (lg, w)) (destinationFolder p) = true.
Proof.
  intros Hreg Himg Hdot Hav Hfree Hfail.
  pose proof (ensureDirectory_result (destinationFolder p) lg w) as Hok.
  rewrite Hav in Hok.
  destruct (ensureDirectory_world p lg w Hok) as (w1 & Hst & Hq).
  assert (ensureDirectory (destinationFolder p) (lg, w) = (true, (lg, w1))) as E.
  { rewrite (ensureDirectory_equation _ _ _ Hok), Hst. reflexivity. }
  rewrite Hst. cbn [snd].
  assert (is_dot_or_dotdot (Path.filename (destinationFolder p)) = false) as Hdot1.
  { rewrite destinationFolder_name. exact Hdot. }
  destruct (ensureDirectory_made _ lg w w1 (destinationFolder_has_name p Himg) Hdot1 E)
    as (Hdir & Ho1 & He1).
  destruct (status_regular w1 p (quiet_regular _ _ _ _ p Hq Hreg)) as (d & Hs & Hl).
  assert (moveFileToFolder p (lg, w)
          = report (destinationFile p) ("Failed to move file: " +:+ msg)
                   ("Failed to move '" +:+ p +:+ "': " +:+ msg +:+ nl)
                   false (lg, w1)) as Em.
  { rewrite (moveFileToFolder_after_folder p lg w w1 Hreg Himg E).
    rewrite (quiet_exists_long _ _ _ _ _ Hq (destinationFile_longer p Himg)), Hfree.
    unfold rename. rewrite Hs, (quiet_fails _ _ _ _ Hq), Hfail. reflexivity. }
  unfold moved, after_move. rewrite Em.
  destruct (report_reported (destinationFile p) ("Failed to move file: " +:+ msg)
              ("Failed to move '" +:+ p +:+ "': " +:+ msg +:+ nl) false (lg, w1))
    as [Hf Hr].
  split; [exact Hf|]. split; [exact Hr|].
  pose proof (reported_tree _ _ _ _ _ Hr) as Hq2. cbn [fst snd] in Hq2.
  split; [rewrite (reported_err _ _ _ _ _ Hr); cbn [snd]; rewrite He1; reflexivity|].
  split; [rewrite (reported_out _ _ _ _ _ Hr); cbn [snd]; exact Ho1|].
  split; [apply (quiet_regular _ _ _ _ _ Hq2), (quiet_regular _ _ _ _ _ Hq), Hreg|].
  split.
  - assert (quiet (logFilePath_ lg) (above (destinationFolder p)) w1
              (snd (snd (report (destinationFile p) ("Failed to move file: " +:+ msg)
                           ("Failed to move '" +:+ p +:+ "': " +:+ msg +:+ nl)
                           false (lg, w1))))) as Hq3.
    { apply (quiet_mono _ nowhere); [intros q []|exact Hq2]. }
    rewrite (quiet_exists_long _ _ _ _ _ Hq3 (destinationFile_longer p Himg)).
    rewrite (quiet_exists_long _ _ _ _ _ Hq (destinationFile_longer p Himg)).
    exact Hfree.
  - revert Hdir. unfold is_directory.
    pose proof (quiet_tree _ _ _ _ Hq2 (destinationFolder p)) as Hk.
    unfold status. destruct (String.eqb (destinationFolder p) ""); [tauto|].
    destruct Hk as [->|[(_ & d0 & s & -> & _)|(_ & _ & [])]]; [tauto|discriminate].
Qed.

Lemma refused_rename_is_reported_witness :
  let st := Logger_new Sample.locked_folder in
  moved "F/photo.png" (fst st, snd st) = false
  /\ w_err (after_move "F/photo.png" (fst st, snd st))
     = w_err (snd st) +:+ "Failed to move 'F/photo.png': "
       +:+ "Permission denied" +:+ nl
  /\ is_regular_file (after_move "F/photo.png" (fst st, snd st)) "F/photo.png" = true.
Proof.
  intros st.
  destruct (refused_rename_is_reported "F/photo.png" "Permission denied"
              (fst st) (snd st))
    as (H1 & _ & H3 & _ & H5 & _); try (vm_compute; reflexivity).
  split; [exact H1|]. split; [exact H3|exact H5].
Defined.

Lemma ensureDirectory_untouched (dir : string) (lg : Logger) (w w1 : World) :
  ensureDirectory dir (lg, w) = (true, (lg, w1)) ->
  w_out w1 = w_out w /\ w_err w1 = w_err w
  /\ (forall q, is_Some (w_fs w !! q) -> w_fs w1 !! q = w_fs w !! q).
Proof.
  intros E.
  assert (fst (ensureDirectory dir (lg, w)) = true) as Hok by (rewrite E; reflexivity).
  destruct (ensureDirectory_success dir lg w Hok) as (w2 & E2 & [[Hd ->]|[He Hc]]);
    rewrite E in E2; injection E2 as <-.
  - repeat split; reflexivity.
  - pose proof (create_directories_console w dir) as [Ho Her].
    pose proof (create_directories_keeps w dir) as Hk.
    rewrite Hc in *. cbn [fst snd] in *. repeat split; assumption.
Qed.

Lemma isImageFile_destinationFile (p : string) :
  isImageFile (destinationFile p) = isImageFile p.
Proof.
  unfold isImageFile.
  rewrite (extension_by_filename _ _ (destinationFile_name p)). reflexivity.
Qed.

Lemma not_image_differs (lp p : string) :
  isImageFile lp = false -> isImageFile p = true ->
  lp <> p /\ lp <> destinationFile p.
Proof.
  intros Hl Hp. split; intros E; subst lp.
  - congruence.
  - rewrite isImageFile_destinationFile in Hl. congruence.
Qed.

(** What a move that succeeds prints. *)
Lemma moveFileToFolder_console (p : string) (lg : Logger) (w : World) :
  fst (moveFileToFolder p (lg, w)) = true ->
  w_out (snd (snd (moveFileToFolder p (lg, w))))
  = w_out w +:+ "Moved '" +:+ Path.filename p +:+ "' into '" +:+ Path.stem p
    +:+ "'" +:+ nl
  /\ w_err (snd (snd (moveFileToFolder p (lg, w)))) = w_err w.
Proof.
  intros Hm.
  destruct (moveFileToFolder_success p lg w Hm)
    as (w1 & d & Hreg & Himg & E & Hq & Hp & Hd & ->).
  destruct (ensureDirectory_untouched _ _ _ _ E) as (Ho & He & _).
  set (w2 := set_fs (<[destinationFile p := File d]> (delete p (w_fs w1))) w1).
  destruct (announce_state ("Moved " +:+ p +:+ " to " +:+ destinationFolder p)
              ("Moved '" +:+ Path.filename p +:+ "' into '"
               +:+ Path.filename (destinationFolder p) +:+ "'" +:+ nl) lg w2)
    as (_ & _ & Hout & Herr & _ & _).
  rewrite destinationFolder_name in Hout, Herr |- *.
  rewrite Hout, Herr.
  split; [unfold w2; simpl; rewrite Ho; reflexivity|].
  unfold w2. simpl. exact He.
Qed.

(** What a move that succeeds adds to the log. *)
Lemma moveFileToFolder_logged (p t : string) (lg : Logger) (w : World) :
  fst (moveFileToFolder p (lg, w)) = true ->
  isImageFile (logFilePath_ lg) = false ->
  log_text (lg, w) = Some t ->
  log_text (snd (moveFileToFolder p (lg, w)))
  = Some (t +:+ info_line (w_now w)
                  ("Moved " +:+ p +:+ " to " +:+ destinationFolder p)).
Proof.
  intros Hm Hlog Ht.
  destruct (moveFileToFolder_success p lg w Hm)
    as (w1 & d & Hreg & Himg & E & Hq & Hp & Hd & ->).
  destruct (ensureDirectory_untouched _ _ _ _ E) as (_ & _ & Hk).
  destruct (not_image_differs _ _ Hlog Himg) as [Hne1 Hne2].
  set (w2 := set_fs (<[destinationFile p := File d]> (delete p (w_fs w1))) w1).
  destruct (announce_state ("Moved " +:+ p +:+ " to " +:+ destinationFolder p)
              ("Moved '" +:+ Path.filename p +:+ "' into '"
               +:+ Path.filename (destinationFolder p) +:+ "'" +:+ nl) lg w2)
    as (_ & _ & _ & _ & _ & Htext).
  replace (w_now w) with (w_now w2) by (unfold w2; simpl; apply (quiet_now _ _ _ _ Hq)).
  apply Htext. revert Ht. unfold log_text. cbn [fst snd].
  destruct (stream_ lg) as [pending|]; [|discriminate].
  destruct (w_fs w !! logFilePath_ lg) as [x|] eqn:Hx; [|discriminate].
  unfold w2. simpl.
  rewrite lookup_insert_ne by congruence.
  rewrite lookup_delete_ne by congruence.
  rewrite (Hk (logFilePath_ lg)) by (rewrite Hx; eexists; reflexivity).
  rewrite Hx. tauto.
Qed.

(** X10. A move that succeeds is announced once: one line on standard
    output that names the file and the folder (the file's stem), one INFO
    entry at the end of the log with the path and the folder's path,
    nothing on standard error. *)
Theorem move_is_announced (p t : string) (lg : Logger) (w : World) :
  moved p (lg, w) = true ->
  isImageFile (logFilePath_ lg) = false ->
  log_text (lg, w) = Some t ->
  w_out (after_move p (lg, w))
  = w_out w +:+ "Moved '" +:+ Path.filename p +:+ "' into '" +:+ Path.stem p
    +:+ "'" +:+ nl
  /\ w_err (after_move p (lg, w)) = w_err w
  /\ log_text (snd (moveFileToFolder p (lg, w)))
     = Some (t +:+ info_line (w_now w)
                     ("Moved " +:+ p +:+ " to " +:+ destinationFolder p)).
Proof.
  unfold moved, after_move. intros Hm Hlog Ht.
  destruct (moveFileToFolder_console p lg w Hm) as [Hout Herr].
  split; [exact Hout|]. split; [exact Herr|].
  apply moveFileToFolder_logged; assumption.
Qed.

Lemma move_is_announced_witness :
  let st := Logger_new Sample.mixed_batch in
  moved "F/a.png" (fst st, snd st) = true
  /\ w_out (after_move "F/a.png" (fst st, snd st))
     = w_out (snd st) +:+ "Moved 'a.png' into 'a'" +:+ nl
  /\ w_err (after_move "F/a.png" (fst st, snd st)) = w_err (snd st).
Proof.
  intros st.
  assert (moved "F/a.png" (fst st, snd st) = true) as Hm by (vm_compute; reflexivity).
  assert (exists t, log_text (fst st, snd st) = Some t) as [t Ht]
    by (eexists; vm_compute; reflexivity).
  destruct (move_is_announced "F/a.png" t (fst st) (snd st) Hm) as (H1 & H2 & _);
    [vm_compute; reflexivity|exact Ht|].
  split; [exact Hm|]. split; [exact H1|exact H2].
Defined.

(** The frame of a move that succeeds. *)
Lemma moveFileToFolder_frame (p : string) (lg : Logger) (w : World) :
  fst (moveFileToFolder p (lg, w)) = true ->
  is_regular_file w p = true /\ isImageFile p = true
  /\ logFilePath_ (fst (snd (moveFileToFolder p (lg, w)))) = logFilePath_ lg
  /\ (forall q, is_Some (w_fs w !! q) -> q <> destinationFile p)
  /\ (forall q, q <> p -> q <> destinationFile p ->
        path_kept (logFilePath_ lg) (above (destinationFolder p))
                  (w_fs w !! q) (w_fs (snd (snd (moveFileToFolder p (lg, w)))) !! q) q).
Proof.
  intros Hm.
  destruct (moveFileToFolder_success p lg w Hm)
    as (w1 & d & Hreg & Himg & E & Hq & Hp & Hd & ->).
  set (w2 := set_fs (<[destinationFile p := File d]> (delete p (w_fs w1))) w1).
  destruct (announce_state ("Moved " +:+ p +:+ " to " +:+ destinationFolder p)
              ("Moved '" +:+ Path.filename p +:+ "' into '"
               +:+ Path.filename (destinationFolder p) +:+ "'" +:+ nl) lg w2)
    as (_ & Hlp & _ & _ & Hq2 & _).
  split; [exact Hreg|]. split; [exact Himg|]. split; [exact Hlp|]. split.
  { intros q [x Hx] ->.
    destruct (quiet_tree _ _ _ _ Hq (destinationFile p))
      as [K|[(_ & d1 & s1 & _ & K)|(K & _)]]; congruence. }
  intros q Hqp Hqd.
  assert (w_fs w2 !! q = w_fs w1 !! q) as Hw2.
  { unfold w2. simpl. rewrite lookup_insert_ne by congruence.
    apply lookup_delete_ne. congruence. }
  pose proof (quiet_tree _ _ _ _ Hq q) as K1.
  pose proof (quiet_tree _ _ _ _ Hq2 q) as K2. rewrite Hw2 in K2.
  destruct K2 as [->|[(El & d2 & s2 & Eo & ->)|(_ & _ & [])]]; [exact K1|].
  destruct K1 as [K1|[(_ & d1 & s1 & Eo1 & En1)|(_ & En1 & _)]].
  - right. left. split; [exact El|]. exists d2, s2. rewrite <- K1. tauto.
  - right. left. split; [exact El|]. exists d1, (s1 +:+ s2).
    split; [exact Eo1|]. rewrite Eo in En1. injection En1 as ->.
    rewrite str_app_assoc. reflexivity.
  - congruence.
Qed.

(** X11. A move that succeeds changes two paths of the tree, the source
    and the destination; every other path holds what it held, except that
    the log file may have grown and that the folder, with the folders
    above it, may be new and empty.  What was in the tree and is neither
    the source nor the log file is as it was. *)
Theorem move_touches_two_paths (p : string) (lg : Logger) (w : World) :
  moved p (lg, w) = true ->
  (forall q, q <> p -> q <> destinationFile p ->
     path_kept (logFilePath_ lg) (above (destinationFolder p))
               (w_fs w !! q) (w_fs (after_move p (lg, w)) !! q) q)
  /\ (forall q, is_Some (w_fs w !! q) -> q <> p -> q <> logFilePath_ lg ->
        w_fs (after_move p (lg, w)) !! q = w_fs w !! q).
Proof.
  unfold moved, after_move. intros Hm.
  destruct (moveFileToFolder_frame p lg w Hm) as (_ & _ & _ & Hfree & Hframe).
  split; [exact Hframe|].
  intros q Hx Hqp Hql.
  destruct (Hframe q Hqp (Hfree q Hx)) as [H|[(Hl & _)|(Ho & _)]];
    [exact H|contradiction|].
  destruct Hx as [x Hx]. congruence.
Qed.

Lemma move_touches_two_paths_witness :
  let st := Logger_new Sample.mixed_batch in
  moved "F/a.png" (fst st, snd st) = true
  /\ w_fs (after_move "F/a.png" (fst st, snd st)) !! "F/b.jpg"
     = w_fs (snd st) !! "F/b.jpg".
Proof.
  intros st.
  assert (moved "F/a.png" (fst st, snd st) = true) as Hm by (vm_compute; reflexivity).
  split; [exact Hm|].
  apply (proj2 (move_touches_two_paths "F/a.png" (fst st) (snd st) Hm)).
  - vm_compute. eexists. reflexivity.
  - discriminate.
  - vm_compute. discriminate.
Defined.

(** X12. The mover does not move a file twice: after a move that
    succeeded, a second call on the same path answers [false] and reports
    that the file does not exist. *)
Theorem second_move_finds_nothing (p : string) (st : St) :
  moved p st = true ->
  moved p (snd (moveFileToFolder p st)) = false
  /\ failure_reported p "File does not exist." ("File not found: " +:+ p +:+ nl)
       (snd (moveFileToFolder p st))
       (snd (moveFileToFolder p (snd (moveFileToFolder p st)))).
Proof.
  destruct st as [lg w]. unfold moved. intros Hm.
  destruct (moveFileToFolder_moved p lg w Hm) as [Hgone _].
  destruct (moveFileToFolder p (lg, w)) as [b [lg1 w1]]. cbn [fst snd] in *.
  assert (fs_exists w1 p = false) as Hex.
  { unfold fs_exists, status. destruct (String.eqb p ""); [reflexivity|].
    rewrite Hgone. reflexivity. }
  rewrite (mover_on_missing p lg1 w1 Hex). apply report_reported.
Qed.

Lemma second_move_finds_nothing_witness :
  let st := Logger_new Sample.mixed_batch in
  moved "F/a.png" st = true
  /\ moved "F/a.png" (snd (moveFileToFolder "F/a.png" st)) = false.
Proof.
  intros st.
  assert (moved "F/a.png" st = true) as Hm by (vm_compute; reflexivity).
  split; [exact Hm|].
  apply (proj1 (second_move_finds_nothing "F/a.png" st Hm)).
Defined.

(** ** What a run spares *)

Lemma supported_file_lookup (w w1 : World) (q : string) :
  w_fs w1 !! q = w_fs w !! q -> supported_file w1 q = supported_file w q.
Proof.
  intros H. unfold supported_file, is_regular_file, status. rewrite H. reflexivity.
Qed.

Lemma spared_refl (lp : string) (w : World) : spared lp w w.
Proof. intros q _ _. left. reflexivity. Qed.

Lemma spared_trans (lp : string) (w1 w2 w3 : World) :
  spared lp w1 w2 -> spared lp w2 w3 -> spared lp w1 w3.
Proof.
  intros H12 H23 q Hq Hs.
  destruct (H12 q Hq Hs) as [E|(El & d & s & Eo & En)].
  - assert (is_Some (w_fs w2 !! q)) as Hq2 by (rewrite E; exact Hq).
    assert (supported_file w2 q = false) as Hs2
      by (rewrite (supported_file_lookup _ _ _ E); exact Hs).
    destruct (H23 q Hq2 Hs2) as [E2|(El2 & d2 & s2 & Eo2 & En2)].
    + left. congruence.
    + right. split; [exact El2|]. exists d2, s2. rewrite <- E. split; assumption.
  - assert (is_Some (w_fs w2 !! q)) as Hq2 by (rewrite En; eexists; reflexivity).
    assert (supported_file w2 q = false) as Hs2.
    { revert Hs. unfold supported_file, is_regular_file, status. rewrite Eo, En.
      destruct (String.eqb q ""); tauto. }
    destruct (H23 q Hq2 Hs2) as [E2|(El2 & d2 & s2 & Eo2 & En2)].
    + right. split; [exact El|]. exists d, s. split; [exact Eo|congruence].
    + right. split; [exact El|]. exists d, (s +:+ s2). split; [exact Eo|].
      rewrite En in Eo2. injection Eo2 as <-.
      rewrite En2, str_app_assoc. reflexivity.
Qed.

Lemma quiet_spared (lp : string) (made : string -> Prop) (w w1 : World) :
  quiet lp made w w1 -> spared lp w w1.
Proof.
  intros Hq q [x Hx] _.
  destruct (quiet_tree _ _ _ _ Hq q) as [H|[(E & d & s & Ho & Hn)|(Ho & _)]].
  - left. exact H.
  - right. split; [exact E|]. exists d, s. split; assumption.
  - congruence.
Qed.

Section Spares.

Variable lp : string.

Lemma spares_ret {A : Type} (a : A) : spares lp (ret a).
Proof. intros lg w H. simpl. split; [exact H|apply spared_refl]. Qed.

Lemma spares_bind {A B : Type} (m : M A) (k : A -> M B) :
  spares lp m -> (forall a, spares lp (k a)) -> spares lp (bind m k).
Proof.
  intros Hm Hk lg w H. rewrite bind_eq.
  destruct (Hm lg w H) as [H1 H2].
  destruct (m (lg, w)) as [a [lg1 w1]]. simpl in *.
  destruct (Hk a lg1 w1 H1) as [H3 H4].
  split; [exact H3|]. eapply spared_trans; eassumption.
Qed.

Lemma keeps_spares {A : Type} (made : string -> Prop) (m : M A) :
  keeps lp made m -> spares lp m.
Proof.
  intros Hk lg w H. destruct (Hk lg w H) as [H1 H2].
  split; [exact H1|]. eapply quiet_spared. exact H2.
Qed.

Lemma spares_report {A : Type} (target message line : string) (a : A) :
  spares lp (logError target message ;;; cerr line ;;; ret a).
Proof. apply (keeps_spares nowhere). apply keeps_report. Qed.

Lemma spares_cout (s : string) : spares lp (cout s).
Proof. apply (keeps_spares nowhere). apply keeps_cout. Qed.

Lemma spares_cerr (s : string) : spares lp (cerr s).
Proof. apply (keeps_spares nowhere). apply keeps_cerr. Qed.

Lemma spares_get_world : spares lp get_world.
Proof. apply (keeps_spares nowhere). apply keeps_get_world. Qed.

Lemma spares_get_logger : spares lp get_logger.
Proof. apply (keeps_spares nowhere). apply keeps_get_logger. Qed.

Lemma spares_moveFileToFolder (p : string) : spares lp (moveFileToFolder p).
Proof.
  intros lg w H. destruct (fst (moveFileToFolder p (lg, w))) eqn:Hm.
  - destruct (moveFileToFolder_frame p lg w Hm) as (Hreg & Himg & Hlp & Hfree & Hframe).
    split; [congruence|]. intros q Hq Hs.
    assert (q <> p) as Hqp.
    { intros ->. unfold supported_file in Hs. rewrite Hreg, Himg in Hs. discriminate. }
    destruct (Hframe q Hqp (Hfree q Hq)) as [K|[(El & d & s & Eo & En)|(Eo & _)]].
    + left. exact K.
    + right. split; [congruence|]. exists d, s. split; assumption.
    + destruct Hq as [x Hx]. congruence.
  - destruct (moveFileToFolder_failed p lg w Hm) as [Hl Hq].
    split; [congruence|]. subst lp. eapply quiet_spared. exact Hq.
Qed.

Lemma spares_files_loop (files : list string) :
  forall any, spares lp (files_loop files any).
Proof.
  induction files as [|file rest IH]; intros any; simpl.
  - apply spares_ret.
  - apply spares_bind; [apply spares_moveFileToFolder|]. intros b. apply IH.
Qed.

Lemma spares_processFiles (files : list string) : spares lp (processFiles files).
Proof.
  unfold processFiles. apply spares_bind; [apply spares_files_loop|]. intros any.
  apply spares_bind; [|intros _; apply spares_ret].
  destruct (negb any); [apply spares_cout|apply spares_ret].
Qed.

Lemma spares_scan_loop (d : string) (seen : list string) :
  forall ec any, spares lp (scan_loop ec d seen any).
Proof.
  induction seen as [|e rest IH]; intros ec any; simpl.
  - apply spares_ret.
  - destruct ec as [msg|]; [apply spares_report|].
    apply spares_bind; [apply spares_get_world|]. intros w.
    destruct (negb (is_regular_file w e)); [apply IH|].
    destruct (isImageFile e); [|apply IH].
    apply spares_bind; [apply spares_moveFileToFolder|]. intros b. apply IH.
Qed.

Lemma spares_processDirectory (d : string) : spares lp (processDirectory d).
Proof.
  unfold processDirectory. apply spares_bind; [apply spares_get_world|]. intros w.
  destruct (negb (fs_exists w d) || negb (is_directory w d)); [apply spares_report|].
  apply spares_bind; [apply spares_scan_loop|]. intros [any|b]; [|apply spares_ret].
  destruct (scan_throws (directory_iterator w d)); [apply spares_ret|].
  apply spares_bind; [|intros _; apply spares_ret].
  destruct (negb any); [apply spares_cout|apply spares_ret].
Qed.

Lemma spares_folderMode (d : string) : spares lp (folderMode d).
Proof.
  unfold folderMode. apply spares_bind; [apply spares_get_logger|]. intros lg.
  apply spares_bind; [apply spares_processDirectory|]. intros [success|];
    [|apply spares_ret].
  apply spares_bind; [apply spares_cout|]. intros _.
  apply spares_bind; [apply spares_cout|]. intros _. apply spares_ret.
Qed.

Lemma spares_fileMode (args : list string) : spares lp (fileMode args).
Proof.
  unfold fileMode. apply spares_bind; [apply spares_get_logger|]. intros lg.
  apply spares_bind; [apply spares_processFiles|]. intros success.
  apply spares_bind; [apply spares_cout|]. intros _. apply spares_ret.
Qed.

Lemma spares_showLogCommand : spares lp showLogCommand.
Proof.
  unfold showLogCommand. apply spares_bind; [apply spares_get_logger|]. intros lg.
  apply spares_bind; [apply spares_get_world|]. intros w.
  destruct (readFileContents w (logFilePath_ lg)) as [[contents|]|].
  - apply spares_bind; [apply spares_cout|]. intros _. apply spares_ret.
  - apply spares_bind; [apply spares_cerr|]. intros _. apply spares_ret.
  - apply spares_ret.
Qed.

Lemma spares_dispatch (args : list string) :
  clears_log args = false -> spares lp (dispatch args).
Proof.
  intros Hc. unfold dispatch.
  apply spares_bind; [apply spares_get_logger|]. intros lg.
  apply spares_bind; [apply spares_get_world|]. intros w.
  destruct args as [|a [|b rest]].
  - apply spares_bind; [apply spares_cout|]. intros _. apply spares_ret.
  - simpl in Hc. rewrite Hc.
    destruct (is_show_token a).
    + apply spares_showLogCommand.
    + destruct (fs_exists w a && is_directory w a);
        [apply spares_folderMode|apply spares_fileMode].
  - apply spares_fileMode.
Qed.

End Spares.

Lemma Logger_new_spared (w : World) :
  spared (detectLogFilePath w) w (snd (Logger_new w)).
Proof.
  intros q Hq Hs. destruct (decide (q = detectLogFilePath w)) as [->|Hne].
  - apply (quiet_spared _ _ _ _ (Logger_new_quiet w Hq)); assumption.
  - left. apply (proj1 (Logger_new_same_but w)). exact Hne.
Qed.

Lemma runApplication_spared (args : list string) (w : World) :
  clears_log args = false ->
  spared (detectLogFilePath w) w (snd (runApplication args w)).
Proof.
  intros Hc. unfold runApplication, normaliseArguments.
  pose proof (Logger_new_spared w) as H1.
  pose proof (Logger_new_path w) as Hp.
  destruct (Logger_new w) as [lg1 w1]. cbn [fst snd] in *.
  destruct (spares_dispatch (detectLogFilePath w) args Hc lg1 w1 Hp) as [Hl H2].
  destruct (dispatch args (lg1, w1)) as [[c|] [lg2 w2]]; cbn [fst snd] in *.
  - eapply spared_trans; [exact H1|]. eapply spared_trans; [exact H2|].
    rewrite <- Hl. eapply quiet_spared. apply Logger_close_quiet.
  - eapply spared_trans; eassumption.
Qed.

Lemma runApplication_clear (c : string) (w : World) :
  is_clear_token c = true ->
  same_but (detectLogFilePath w) w (snd (runApplication [c] w)).
Proof.
  intros Hc. unfold runApplication, normaliseArguments, dispatch.
  rewrite !bind_eq. cbn [get_logger get_world fst snd].
  rewrite (clear_token_not_show c Hc), Hc. rewrite bind_eq.
  pose proof (clearLogCommand_state (Logger_new w)) as [Hlg Hsb].
  pose proof (Logger_close_same_but (snd (clearLogCommand (Logger_new w)))) as Hcl.
  rewrite Hlg in Hcl. rewrite (Logger_new_path w) in Hsb, Hcl.
  destruct (clearLogCommand (Logger_new w)) as [code st2]. cbn [fst snd ret] in *.
  eapply same_but_trans; [apply (proj1 (Logger_new_same_but w))|].
  eapply same_but_trans; [exact Hsb|exact Hcl].
Qed.

Lemma detectLogFilePath_name (w : World) :
  Path.filename (detectLogFilePath w) = "PushToFolders.log".
Proof.
  unfold detectLogFilePath.
  destruct (temp_directory_path w) as [[e|] d]; [reflexivity|].
  apply filename_append. reflexivity.
Qed.

Lemma detectLogFilePath_not_image (w : World) :
  isImageFile (detectLogFilePath w) = false.
Proof.
  unfold isImageFile.
  rewrite (extension_by_filename _ "PushToFolders.log"); [reflexivity|].
  apply detectLogFilePath_name.
Qed.

(** X13. No run of the program, whatever its arguments, touches a node
    that is not a supported picture: a path that held a directory, or a
    file the classifier rejects, and that is not the log file, holds the
    same node when the program has ended, also when it ends in
    [std::terminate]. *)
Theorem run_spares_what_is_no_picture (args : list string) (w : World) (q : string) :
  is_Some (w_fs w !! q) ->
  supported_file w q = false ->
  q <> detectLogFilePath w ->
  w_fs (snd (runApplication args w)) !! q = w_fs w !! q.
Proof.
  intros Hq Hs Hne. destruct (clears_log args) eqn:Hc.
  - destruct args as [|c [|b rest]]; try discriminate.
    apply runApplication_clear; assumption.
  - destruct (runApplication_spared args w Hc q Hq Hs) as [H|(E & _)];
      [exact H|contradiction].
Qed.

Lemma run_spares_what_is_no_picture_witness :
  w_fs (snd (runApplication ["F"] Sample.only_notes)) !! "F/notes.txt"
  = w_fs Sample.only_notes !! "F/notes.txt".
Proof.
  apply run_spares_what_is_no_picture.
  - vm_compute. eexists. reflexivity.
  - vm_compute. reflexivity.
  - vm_compute. discriminate.
Defined.

(** X14. The log is only added to: unless the arguments are one token
    that clears the log, the log file holds at the end of a run what it
    held before, followed by what the run wrote.  No run moves, removes
    or rewrites it. *)
Theorem log_is_only_added_to (args : list string) (w : World) (d : string) :
  clears_log args = false ->
  w_fs w !! detectLogFilePath w = Some (File d) ->
  exists s, w_fs (snd (runApplication args w)) !! detectLogFilePath w
            = Some (File (d +:+ s)).
Proof.
  intros Hc Hd.
  assert (supported_file w (detectLogFilePath w) = false) as Hs.
  { unfold supported_file. rewrite detectLogFilePath_not_image. apply andb_false_r. }
  destruct (runApplication_spared args w Hc (detectLogFilePath w)) as [H|(_ & d1 & s & Eo & En)];
    [rewrite Hd; eexists; reflexivity|exact Hs| |].
  - exists "". rewrite H, Hd, str_app_nil_r. reflexivity.
  - exists s. rewrite Hd in Eo. injection Eo as ->. exact En.
Qed.

Lemma log_is_only_added_to_witness :
  exists s, w_fs (snd (runApplication ["F"] Sample.with_log))
              !! detectLogFilePath Sample.with_log
            = Some (File (Sample.earlier_entry +:+ s)).
Proof.
  apply log_is_only_added_to; vm_compute; reflexivity.
Defined.

(** X15. The log file is never a picture: its name is PushToFolders.log
    wherever the temporary directory is, the classifier rejects it, and
    the mover refuses to move it in every state. *)
Theorem log_file_is_no_picture (w : World) :
  Path.filename (detectLogFilePath w) = "PushToFolders.log"
  /\ isImageFile (detectLogFilePath w) = false
  /\ forall st, moved (detectLogFilePath w) st = false.
Proof.
  split; [apply detectLogFilePath_name|].
  split; [apply detectLogFilePath_not_image|].
  intros [lg w1]. unfold moved. rewrite moveFileToFolder_result.
  rewrite detectLogFilePath_not_image. rewrite andb_false_r. reflexivity.
Qed.

(** ** How a run ends *)



Lemma Logger_new_fails (w : World) : w_fails (snd (Logger_new w)) = w_fails w.
Proof.
  unfold Logger_new. set (lp := detectLogFilePath w).
  destruct (open_append w lp) as [w1|] eqn:Ho; [|reflexivity].
  pose proof (keeps_stream_put lp nowhere
                ("--- Run started at " +:+ timestampForLog w1 +:+ " ---" +:+ nl)
                (mkLogger lp (Some "")) w1 eq_refl) as [_ Hq].
  rewrite (quiet_fails _ _ _ _ Hq).
  destruct (open_append_cases _ _ _ Ho) as [[-> _]|(-> & _ & _)]; reflexivity.
Qed.







(** The show command at work on a log path that names a directory: the
    logger warns that it cannot open its file, and the process ends in
    [std::terminate] with nothing else printed. *)
Example show_log_on_a_directory :
  let w := Sample.make [("/tmp", Dir); ("/tmp/PushToFolders.log", Dir)]
                       Sample.nothing_fails Sample.no_fault in
  fst (runApplication ["--show-log"] w) = Terminated
  /\ w_out (snd (runApplication ["--show-log"] w)) = ""
  /\ w_err (snd (runApplication ["--show-log"] w))
     = "Warning: Unable to open log file at /tmp/PushToFolders.log" +:+ nl.
Proof. vm_compute. repeat split; reflexivity. Qed.

(** ** Without arguments *)

Lemma w_out_Logger_close (st : St) : w_out (Logger_close st) = w_out (snd st).
Proof. destruct st as [lg w]. apply Logger_close_quiet. Qed.

Lemma w_err_Logger_close (st : St) : w_err (Logger_close st) = w_err (snd st).
Proof.
  destruct st as [lg w]. unfold Logger_close.
  destruct (stream_ lg); [apply w_err_write_append|reflexivity].
Qed.

(** X17. Started without arguments, the program prints the usage text
    with the path of its log file and ends with status 1; it prints
    nothing else on standard output, nothing on standard error but the
    warning of a logger that could not open its file, and no path but
    that of the log file differs afterwards. *)
Theorem no_arguments_print_usage (prog : string) (w : World) :
  fst (main [prog] w) = Returned 1
  /\ w_out (snd (main [prog] w))
     = w_out w
       +:+ ("PushToFolders - Organise images into same-named folders" +:+ nl +:+ nl
            +:+ "Usage:" +:+ nl
            +:+ "  PushToFolders " +:+ dquote +:+ "C:/path/to/folder" +:+ dquote
            +:+ "  (command line folder mode)" +:+ nl
            +:+ "  PushToFolders <image1> <image2> ...     (Explorer selection mode)" +:+ nl
            +:+ "  PushToFolders --show-log               (display error log)" +:+ nl
            +:+ "  PushToFolders --clear-log              (clear error log)" +:+ nl +:+ nl
            +:+ "Log file: " +:+ detectLogFilePath w +:+ nl)
  /\ w_err (snd (main [prog] w)) = w_err (snd (Logger_new w))
  /\ same_but (detectLogFilePath w) w (snd (main [prog] w)).
Proof.
  unfold main. cbn [tl]. unfold runApplication, normaliseArguments, dispatch.
  rewrite !bind_eq. cbn [get_logger get_world fst snd ret].
  rewrite (Logger_new_path w).
  destruct (Logger_new_same_but w) as [Hsb Hout].
  split; [reflexivity|].
  split; [rewrite w_out_Logger_close; unfold printUsage; cbn [cout snd w_out add_out];
          rewrite Hout; reflexivity|].
  split; [rewrite w_err_Logger_close; reflexivity|].
  eapply same_but_trans; [exact Hsb|].
  pose proof (Logger_close_same_but
                (snd (printUsage (detectLogFilePath w) (Logger_new w)))) as Hcl.
  unfold printUsage in *. cbn [cout fst snd] in *.
  rewrite (Logger_new_path w) in Hcl. exact Hcl.
Qed.

(** ** Showing the log *)

(** X18. A lone show token, on a log that can be opened: the program
    prints the path of the log file and then what the file held when the
    program started, ends with status 0 and prints nothing on standard
    error.  The marker of this very run is not in the output (unless it
    alone overflows the buffer of the stream), but it is in the file
    afterwards, after what the file held. *)
Theorem show_log_shows_earlier_runs (s : string) (w : World) :
  is_show_token s = true ->
  log_opens w ->
  fst (runApplication [s] w) = Returned 0
  /\ w_out (snd (runApplication [s] w))
     = w_out w +:+ "Log file: " +:+ detectLogFilePath w +:+ nl +:+ log_data w
       +:+ (if marker_overflows w then run_start_marker (w_now w) else "")
  /\ w_err (snd (runApplication [s] w)) = w_err w
  /\ w_fs (snd (runApplication [s] w)) !! detectLogFilePath w
     = Some (File (log_data w +:+ run_start_marker (w_now w)))
  /\ same_but (detectLogFilePath w) w (snd (runApplication [s] w)).
Proof.
  intros Hs Ho. rewrite (run_show s w Hs Ho). cbn [fst snd].
  split; [reflexivity|].
  destruct (marker_overflows w).
  - split; [reflexivity|]. split; [reflexivity|].
    split; [simpl; apply lookup_insert_eq|].
    intros q Hq. simpl. apply lookup_insert_ne. congruence.
  - split; [simpl; rewrite str_app_nil_r; reflexivity|]. split; [reflexivity|].
    split; [simpl; apply lookup_insert_eq|].
    intros q Hq. simpl. apply lookup_insert_ne. congruence.
Qed.

Lemma show_log_shows_earlier_runs_witness :
  w_out (snd (runApplication ["--show-log"] Sample.with_log))
  = "Log file: /tmp/PushToFolders.log" +:+ nl +:+ Sample.earlier_entry.
Proof.
  destruct (show_log_shows_earlier_runs "--show-log" Sample.with_log)
    as (_ & H & _).
  - reflexivity.
  - vm_compute. repeat split; reflexivity.
  - rewrite H. vm_compute. reflexivity.
Defined.

(** ** A scan of what is no directory *)

(** X19. [processDirectory] on a path that is no directory answers
    [false] and reports it (The supplied path is not a directory); it
    lists nothing and moves nothing. *)
Theorem not_a_folder_is_reported (d : string) (st : St) :
  is_directory (snd st) d = false ->
  fst (processDirectory d st) = Returned false
  /\ failure_reported d "The supplied path is not a directory."
       ("The path is not a folder: " +:+ d +:+ nl) st (snd (processDirectory d st)).
Proof.
  intros Hd. unfold processDirectory. rewrite bind_eq. cbn [get_world fst snd].
  rewrite Hd. cbn [negb]. rewrite orb_true_r.
  apply (report_reported d "The supplied path is not a directory."
           ("The path is not a folder: " +:+ d +:+ nl) (Returned false) st).
Qed.

Lemma not_a_folder_is_reported_witness :
  let st := Logger_new Sample.mixed_batch in
  fst (processDirectory "F/a.png" st) = Returned false
  /\ w_err (snd (snd (processDirectory "F/a.png" st)))
     = w_err (snd st) +:+ "The path is not a folder: F/a.png" +:+ nl.
Proof.
  intros st.
  destruct (not_a_folder_is_reported "F/a.png" st) as [H1 H2];
    [vm_compute; reflexivity|].
  split; [exact H1|]. exact (reported_err _ _ _ _ _ H2).
Defined.

(** ** What a run is confined to *)

Lemma confined_refl (allowed : string -> Prop) (lp : string) (w : World) :
  confined allowed lp w w.
Proof. intros q _ _. left. reflexivity. Qed.

Lemma confined_trans (allowed : string -> Prop) (lp : string) (w1 w2 w3 : World) :
  confined allowed lp w1 w2 -> confined allowed lp w2 w3 -> confined allowed lp w1 w3.
Proof.
  intros H12 H23 q Hq Hn.
  destruct (H12 q Hq Hn) as [E|(El & d & s & Eo & En)].
  - assert (is_Some (w_fs w2 !! q)) as Hq2 by (rewrite E; exact Hq).
    destruct (H23 q Hq2 Hn) as [E2|(El2 & d2 & s2 & Eo2 & En2)].
    + left. congruence.
    + right. split; [exact El2|]. exists d2, s2. rewrite <- E. split; assumption.
  - assert (is_Some (w_fs w2 !! q)) as Hq2 by (rewrite En; eexists; reflexivity).
    destruct (H23 q Hq2 Hn) as [E2|(El2 & d2 & s2 & Eo2 & En2)].
    + right. split; [exact El|]. exists d, s. split; [exact Eo|congruence].
    + right. split; [exact El|]. exists d, (s +:+ s2). split; [exact Eo|].
      rewrite En in Eo2. injection Eo2 as <-.
      rewrite En2, str_app_assoc. reflexivity.
Qed.

Lemma confined_mono (a b : string -> Prop) (lp : string) (w w1 : World) :
  (forall q, a q -> b q) -> confined a lp w w1 -> confined b lp w w1.
Proof. intros Hab H q Hq Hn. apply (H q Hq). intros Ha. apply Hn, Hab, Ha. Qed.

Lemma quiet_confined (allowed : string -> Prop) (lp : string)
      (made : string -> Prop) (w w1 : World) :
  quiet lp made w w1 -> confined allowed lp w w1.
Proof.
  intros Hq q [x Hx] _.
  destruct (quiet_tree _ _ _ _ Hq q) as [H|[(E & d & s & Ho & Hn)|(Ho & _)]].
  - left. exact H.
  - right. split; [exact E|]. exists d, s. split; assumption.
  - congruence.
Qed.

Section Confines.

Variable lp : string.

Lemma confines_ret {A : Type} (allowed : string -> Prop) (a : A) :
  confines allowed lp (ret a).
Proof. intros lg w H. simpl. split; [exact H|apply confined_refl]. Qed.

Lemma confines_bind {A B : Type} (allowed : string -> Prop) (m : M A) (k : A -> M B) :
  confines allowed lp m -> (forall a, confines allowed lp (k a)) ->
  confines allowed lp (bind m k).
Proof.
  intros Hm Hk lg w H. rewrite bind_eq.
  destruct (Hm lg w H) as [H1 H2].
  destruct (m (lg, w)) as [a [lg1 w1]]. simpl in *.
  destruct (Hk a lg1 w1 H1) as [H3 H4].
  split; [exact H3|]. eapply confined_trans; eassumption.
Qed.

Lemma confines_mono {A : Type} (a b : string -> Prop) (m : M A) :
  (forall q, a q -> b q) -> confines a lp m -> confines b lp m.
Proof.
  intros Hab Hm lg w H. destruct (Hm lg w H) as [H1 H2].
  split; [exact H1|]. eapply confined_mono; eassumption.
Qed.

Lemma keeps_confines {A : Type} (allowed made : string -> Prop) (m : M A) :
  keeps lp made m -> confines allowed lp m.
Proof.
  intros Hk lg w H. destruct (Hk lg w H) as [H1 H2].
  split; [exact H1|]. eapply quiet_confined. exact H2.
Qed.

Lemma confines_report {A : Type} (allowed : string -> Prop)
      (target message line : string) (a : A) :
  confines allowed lp (logError target message ;;; cerr line ;;; ret a).
Proof. apply (keeps_confines allowed nowhere). apply keeps_report. Qed.

Lemma confines_cout (allowed : string -> Prop) (s : string) :
  confines allowed lp (cout s).
Proof. apply (keeps_confines allowed nowhere). apply keeps_cout. Qed.

Lemma confines_cerr (allowed : string -> Prop) (s : string) :
  confines allowed lp (cerr s).
Proof. apply (keeps_confines allowed nowhere). apply keeps_cerr. Qed.

Lemma confines_get_world (allowed : string -> Prop) : confines allowed lp get_world.
Proof. apply (keeps_confines allowed nowhere). apply keeps_get_world. Qed.

Lemma confines_get_logger (allowed : string -> Prop) : confines allowed lp get_logger.
Proof. apply (keeps_confines allowed nowhere). apply keeps_get_logger. Qed.

Lemma confines_moveFileToFolder (p : string) :
  confines (eq p) lp (moveFileToFolder p).
Proof.
  intros lg w H. destruct (fst (moveFileToFolder p (lg, w))) eqn:Hm.
  - destruct (moveFileToFolder_frame p lg w Hm) as (Hreg & Himg & Hlp & Hfree & Hframe).
    split; [congruence|]. intros q Hq Hn.
    assert (q <> p) as Hqp by congruence.
    destruct (Hframe q Hqp (Hfree q Hq)) as [K|[(El & d & s & Eo & En)|(Eo & _)]].
    + left. exact K.
    + right. split; [congruence|]. exists d, s. split; assumption.
    + destruct Hq as [x Hx]. congruence.
  - destruct (moveFileToFolder_failed p lg w Hm) as [Hl Hq].
    split; [congruence|]. subst lp. eapply quiet_confined. exact Hq.
Qed.

Lemma confines_files_loop (files : list string) :
  forall any, confines (fun q => In q files) lp (files_loop files any).
Proof.
  induction files as [|file rest IH]; intros any; simpl.
  - apply confines_ret.
  - apply confines_bind.
    + apply (confines_mono (eq file)); [|apply confines_moveFileToFolder].
      intros q <-. left. reflexivity.
    + intros b. apply (confines_mono (fun q => In q rest)); [|apply IH].
      intros q Hq. right. exact Hq.
Qed.

Lemma confines_scan_loop (d : string) (seen : list string) :
  forall ec any, confines (fun q => In q seen) lp (scan_loop ec d seen any).
Proof.
  induction seen as [|e rest IH]; intros ec any; simpl.
  - apply confines_ret.
  - assert (forall ec0 any0, confines (fun q => e = q \/ In q rest) lp
                               (scan_loop ec0 d rest any0)) as IH1.
    { intros ec0 any0. apply (confines_mono (fun q => In q rest)); [|apply IH].
      intros q Hq. right. exact Hq. }
    destruct ec as [msg|]; [apply confines_report|].
    apply confines_bind; [apply confines_get_world|]. intros w.
    destruct (negb (is_regular_file w e)); [apply IH1|].
    destruct (isImageFile e); [|apply IH1].
    apply confines_bind.
    + apply (confines_mono (eq e)); [|apply confines_moveFileToFolder].
      intros q <-. left. reflexivity.
    + intros b. apply IH1.
Qed.

Lemma scan_seen_entries (w : World) (d e : string) :
  In e (scan_seen (directory_iterator w d)) -> is_entry_of d e = true.
Proof.
  assert (forall l, incl l (entries w d) -> In e l -> is_entry_of d e = true) as H.
  { intros l Hl He. apply Hl in He. unfold entries in He.
    apply filter_In in He. tauto. }
  unfold directory_iterator.
  destruct (w_scan_fault w d) as [[|k]|]; cbn [scan_seen].
  - intros [].
  - destruct (S k <=? List.length (entries w d))%nat; cbn [scan_seen].
    + apply H. intros x Hx. apply (In_firstn_entries _ _ _ Hx).
    + apply H. apply incl_refl.
  - apply H. apply incl_refl.
Qed.

Lemma confines_processDirectory (d : string) :
  confines (fun q => is_entry_of d q = true) lp (processDirectory d).
Proof.
  unfold processDirectory. apply confines_bind; [apply confines_get_world|]. intros w.
  destruct (negb (fs_exists w d) || negb (is_directory w d)); [apply confines_report|].
  apply confines_bind.
  - apply (confines_mono (fun q => In q (scan_seen (directory_iterator w d))));
      [|apply confines_scan_loop].
    intros q. apply scan_seen_entries.
  - intros [any|b]; [|apply confines_ret].
    destruct (scan_throws (directory_iterator w d)); [apply confines_ret|].
    apply confines_bind; [|intros _; apply confines_ret].
    destruct (negb any); [apply confines_cout|apply confines_ret].
Qed.

Lemma confines_fileMode (args : list string) :
  confines (fun q => In q args) lp (fileMode args).
Proof.
  unfold fileMode. apply confines_bind; [apply confines_get_logger|]. intros lg.
  apply confines_bind.
  - unfold processFiles. apply confines_bind; [apply confines_files_loop|]. intros any.
    apply confines_bind; [|intros _; apply confines_ret].
    destruct (negb any); [apply confines_cout|apply confines_ret].
  - intros success.
    apply confines_bind; [apply confines_cout|]. intros _. apply confines_ret.
Qed.

Lemma confines_dispatch (args : list string) :
  clears_log args = false -> confines (given args) lp (dispatch args).
Proof.
  intros Hc. unfold dispatch.
  apply confines_bind; [apply confines_get_logger|]. intros lg.
  apply confines_bind; [apply confines_get_world|]. intros w.
  assert (confines (given args) lp (fileMode args)) as Hfiles.
  { apply (confines_mono (fun q => In q args)); [|apply confines_fileMode].
    intros q Hq. left. exact Hq. }
  destruct args as [|a [|b rest]]; [| |exact Hfiles].
  - apply confines_bind; [apply confines_cout|]. intros _. apply confines_ret.
  - simpl in Hc. rewrite Hc.
    destruct (is_show_token a).
    + apply (keeps_confines _ nowhere).
      unfold showLogCommand. apply keeps_bind; [apply keeps_get_logger|]. intros lg0.
      apply keeps_bind; [apply keeps_get_world|]. intros w0.
      destruct (readFileContents w0 (logFilePath_ lg0)) as [[contents|]|].
      * apply keeps_bind; [apply keeps_cout|]. intros _. apply keeps_ret.
      * apply keeps_bind; [apply keeps_cerr|]. intros _. apply keeps_ret.
      * apply keeps_ret.
    + destruct (fs_exists w a && is_directory w a); [|exact Hfiles].
      unfold folderMode. apply confines_bind; [apply confines_get_logger|]. intros lg0.
      apply confines_bind.
      * apply (confines_mono (fun q => is_entry_of a q = true));
          [|apply confines_processDirectory].
        intros q Hq. right. exists a. split; [reflexivity|exact Hq].
      * intros [success|]; [|apply confines_ret].
        apply confines_bind; [apply confines_cout|]. intros _.
        apply confines_bind; [apply confines_cout|]. intros _. apply confines_ret.
Qed.

End Confines.

Lemma runApplication_confined (args : list string) (w : World) :
  clears_log args = false ->
  confined (given args) (detectLogFilePath w) w (snd (runApplication args w)).
Proof.
  intros Hc. unfold runApplication, normaliseArguments.
  assert (confined (given args) (detectLogFilePath w) w (snd (Logger_new w))) as H1.
  { intros q Hq _. destruct (decide (q = detectLogFilePath w)) as [->|Hne].
    - apply (quiet_confined (fun _ => False) _ _ _ _ (Logger_new_quiet w Hq));
        [assumption|tauto].
    - left. apply (proj1 (Logger_new_same_but w)). exact Hne. }
  pose proof (Logger_new_path w) as Hp.
  destruct (Logger_new w) as [lg1 w1]. cbn [fst snd] in *.
  destruct (confines_dispatch (detectLogFilePath w) args Hc lg1 w1 Hp) as [Hl H2].
  destruct (dispatch args (lg1, w1)) as [[c|] [lg2 w2]]; cbn [fst snd] in *.
  - eapply confined_trans; [exact H1|]. eapply confined_trans; [exact H2|].
    rewrite <- Hl. eapply quiet_confined. apply Logger_close_quiet.
  - eapply confined_trans; eassumption.
Qed.

(** X20. A run touches only what it is given: a path that is neither
    one of the arguments nor, for a single argument, an entry of the
    directory it names, and that is not the log file, holds at the end
    the node it held.  A scan does not descend: what lies in a folder of
    the scanned directory stays where it is. *)
Theorem run_touches_only_what_it_is_given (args : list string) (w : World) (q : string) :
  is_Some (w_fs w !! q) ->
  ~ given args q ->
  q <> detectLogFilePath w ->
  w_fs (snd (runApplication args w)) !! q = w_fs w !! q.
Proof.
  intros Hq Hg Hne. destruct (clears_log args) eqn:Hc.
  - destruct args as [|c [|b rest]]; try discriminate.
    apply runApplication_clear; assumption.
  - destruct (runApplication_confined args w Hc q Hq Hg) as [H|(E & _)];
      [exact H|contradiction].
Qed.

Lemma run_touches_only_what_it_is_given_witness :
  let w := Sample.make [("/tmp", Dir); ("F", Dir); ("F/a.png", File "a");
                        ("F/sub", Dir); ("F/sub/b.png", File "b")]
                       Sample.nothing_fails Sample.no_fault in
  w_fs (snd (runApplication ["F"] w)) !! "F/a.png" = None
  /\ w_fs (snd (runApplication ["F"] w)) !! "F/sub/b.png" = Some (File "b").
Proof.
  intros w. split; [vm_compute; reflexivity|].
  rewrite (run_touches_only_what_it_is_given ["F"] w "F/sub/b.png").
  - vm_compute. reflexivity.
  - vm_compute. eexists. reflexivity.
  - intros [[H|[]]|(d & E & H)]; [discriminate|].
    injection E as <-. vm_compute in H. discriminate.
  - vm_compute. discriminate.
Defined.

(** ** The Windows branch *)

Section Win32Facts.

Import Win32.

Lemma starts_with_app (prefix rest : wstring) :
  starts_with prefix (prefix ++ rest)%list = true.
Proof.
  induction prefix as [|a prefix IH]; [reflexivity|].
  simpl. rewrite N.eqb_refl. exact IH.
Qed.

Lemma toExtendedPath_extended (absolute : wstring -> option wstring) (path : wstring) :
  starts_with extended_prefix (toExtendedPath absolute path) = true.
Proof.
  unfold toExtendedPath.
  destruct (starts_with extended_prefix
              (match absolute path with Some a => a | None => path end)) eqn:E;
    [exact E|].
  destruct (starts_with unc_prefix _); [reflexivity|].
  apply starts_with_app.
Qed.

(** X21. [toExtendedPath] always gives a path with the extended-length
    prefix, and gives back a path that has it: applied to its own result
    (when [fs::absolute] fails on it, or leaves it as it is) it changes
    nothing, so the prefix is never doubled. *)
Theorem toExtendedPath_prefixes_once
        (absolute : wstring -> option wstring) (path : wstring) :
  starts_with extended_prefix (toExtendedPath absolute path) = true
  /\ toExtendedPath (fun _ => None) (toExtendedPath absolute path)
     = toExtendedPath absolute path
  /\ toExtendedPath Some (toExtendedPath absolute path)
     = toExtendedPath absolute path.
Proof.
  pose proof (toExtendedPath_extended absolute path) as H.
  split; [exact H|].
  split; unfold toExtendedPath at 1; rewrite H; reflexivity.
Qed.

Lemma pop_line_ends_split (reversed : wstring) :
  exists popped,
    reversed = (popped ++ pop_line_ends reversed)%list
    /\ forallb is_line_end popped = true
    /\ match pop_line_ends reversed with
       | [] => True
       | c :: _ => is_line_end c = false
       end.
Proof.
  induction reversed as [|c rest IH].
  - exists []. repeat split.
  - simpl. destruct (is_line_end c) eqn:E.
    + destruct IH as (popped & H1 & H2 & H3).
      exists (c :: popped). split; [simpl; f_equal; exact H1|].
      split; [simpl; rewrite E; exact H2|exact H3].
    + exists []. repeat split. exact E.
Qed.

Lemma pop_line_ends_fixed (l : wstring) :
  match l with [] => True | c :: _ => is_line_end c = false end ->
  pop_line_ends l = l.
Proof. destruct l as [|c l]; [reflexivity|]. simpl. intros ->. reflexivity. Qed.

Lemma forallb_rev {A : Type} (f : A -> bool) (l : list A) :
  forallb f l = true -> forallb f (rev l) = true.
Proof.
  rewrite !forallb_forall. intros H x Hx. apply H. apply in_rev. exact Hx.
Qed.

Lemma trim_line_end_spec (message : wstring) :
  exists tail,
    message = (trim_line_end message ++ tail)%list
    /\ forallb is_line_end tail = true
    /\ (forall body c, trim_line_end message = (body ++ [c])%list ->
          is_line_end c = false)
    /\ trim_line_end (trim_line_end message) = trim_line_end message.
Proof.
  unfold trim_line_end.
  destruct (pop_line_ends_split (rev message)) as (popped & H1 & H2 & H3).
  exists (rev popped). split; [|split; [|split]].
  - rewrite <- rev_app_distr, <- H1. symmetry. apply rev_involutive.
  - apply forallb_rev. exact H2.
  - intros body c E. apply (f_equal (@rev wchar)) in E.
    rewrite rev_involutive, rev_app_distr in E. simpl in E.
    rewrite E in H3. exact H3.
  - rewrite rev_involutive. rewrite (pop_line_ends_fixed _ H3). reflexivity.
Qed.

(** X22. What [windowsErrorMessage] returns.  When the system has a
    message for the code, it is that message without the carriage
    returns and line feeds at its end, converted: what is cut off is made
    of such characters only, and what is left does not end in one.  When
    the system has none, or an empty one, it is the text (Error code: )
    followed by the number. *)
Theorem windowsErrorMessage_cases
        (FormatMessageW : N -> option wstring) (wideToUtf8 : wstring -> string)
        (to_string : N -> string) (errorCode : N) :
  (exists message tail,
      FormatMessageW errorCode = Some (message ++ tail)%list
      /\ (message ++ tail)%list <> []
      /\ forallb is_line_end tail = true
      /\ (forall body c, message = (body ++ [c])%list -> is_line_end c = false)
      /\ windowsErrorMessage FormatMessageW wideToUtf8 to_string errorCode
         = wideToUtf8 message)
  \/ ((FormatMessageW errorCode = None \/ FormatMessageW errorCode = Some [])
      /\ windowsErrorMessage FormatMessageW wideToUtf8 to_string errorCode
         = "Error code: " +:+ to_string errorCode).
Proof.
  unfold windowsErrorMessage.
  destruct (FormatMessageW errorCode) as [[|c rest]|] eqn:E.
  - right. split; [right; reflexivity|reflexivity].
  - left. destruct (trim_line_end_spec (c :: rest)) as (tail & H1 & H2 & H3 & _).
    exists (trim_line_end (c :: rest)), tail.
    split; [f_equal; exact H1|]. split; [rewrite <- H1; discriminate|].
    split; [exact H2|]. split; [exact H3|reflexivity].
  - right. split; [left; reflexivity|reflexivity].
Qed.

Lemma normaliseArguments_app (f : wstring -> option (list wstring))
      (a b : list wstring) :
  Win32.normaliseArguments f (a ++ b)%list
  = (Win32.normaliseArguments f a ++ Win32.normaliseArguments f b)%list.
Proof.
  induction a as [|x a IH]; [reflexivity|].
  simpl. rewrite IH. apply app_assoc.
Qed.

Lemma normaliseArguments_plain (f : wstring -> option (list wstring))
      (plain : list wstring) :
  forallb (fun arg => negb (has_quote arg)) plain = true ->
  Win32.normaliseArguments f plain = plain.
Proof.
  induction plain as [|x plain IH]; [reflexivity|].
  simpl. intros H. apply andb_true_iff in H as [H1 H2].
  apply negb_true_iff in H1. rewrite H1, (IH H2). reflexivity.
Qed.

(** X23. The Windows [normaliseArguments] leaves arguments without a
    double quote as they are and where they are: a run of such arguments
    before or after other arguments comes out unchanged, whatever
    [CommandLineToArgvW] makes of the others, and the order of the
    arguments is kept. *)
Theorem normaliseArguments_keeps_plain
        (CommandLineToArgvW : wstring -> option (list wstring))
        (before plain after : list wstring) :
  forallb (fun arg => negb (has_quote arg)) plain = true ->
  Win32.normaliseArguments CommandLineToArgvW (before ++ plain ++ after)%list
  = (Win32.normaliseArguments CommandLineToArgvW before
     ++ plain
     ++ Win32.normaliseArguments CommandLineToArgvW after)%list.
Proof.
  intros H. rewrite !normaliseArguments_app.
  rewrite (normaliseArguments_plain _ _ H). reflexivity.
Qed.

End Win32Facts.

Lemma normaliseArguments_keeps_plain_witness :
  Win32.normaliseArguments (fun _ => Some [[65%N]; [66%N]])
    ([[34%N; 65%N; 32%N; 66%N; 34%N]] ++ [[67%N]; [68%N]] ++ [])%list
  = [[65%N]; [66%N]; [67%N]; [68%N]].
Proof.
  rewrite normaliseArguments_keeps_plain by reflexivity. reflexivity.
Defined.

(** ** A run on a path that names nothing *)

Lemma Logger_close_flushes (lg : Logger) (w : World) (t : string) :
  log_text (lg, w) = Some t ->
  w_fs (Logger_close (lg, w)) !! logFilePath_ lg = Some (File t).
Proof.
  unfold log_text, Logger_close, write_append. cbn [fst snd].
  destruct (stream_ lg) as [pending|]; [|discriminate].
  destruct (w_fs w !! logFilePath_ lg) as [[d|]|]; try discriminate.
  intros H. injection H as <-. simpl. apply lookup_insert_eq.
Qed.

Lemma Logger_new_log_text (w : World) :
  log_opens w ->
  log_text (Logger_new w) = Some (log_data w +:+ run_start_marker (w_now w))
  /\ w_out (snd (Logger_new w)) = w_out w
  /\ w_err (snd (Logger_new w)) = w_err w
  /\ w_now (snd (Logger_new w)) = w_now w.
Proof.
  intros Ho. rewrite (Logger_new_opens w Ho).
  destruct (marker_overflows w); unfold log_text, put_log; cbn [fst snd stream_ logFilePath_];
    simpl; rewrite lookup_insert_eq; rewrite ?str_app_nil_r; repeat split; reflexivity.
Qed.

Lemma fileMode_missing (p : string) (lg : Logger) (w : World) :
  fs_exists w p = false ->
  let st1 := snd (report p "File does not exist." ("File not found: " +:+ p +:+ nl)
                         false (lg, w)) in
  fileMode [p] (lg, w)
  = (Returned 1,
     (fst st1,
      add_out ("Finished processing files. Check the log for any errors: "
               +:+ logFilePath_ lg +:+ nl)
              (add_out ("No image files were processed." +:+ nl) (snd st1)))).
Proof.
  intros H st1. unfold fileMode, processFiles, files_loop.
  rewrite !bind_eq. cbn [get_logger fst snd].
  rewrite (mover_on_missing p lg w H).
  pose proof (proj1 (report_reported p "File does not exist."
                       ("File not found: " +:+ p +:+ nl) false (lg, w))) as Hf.
  fold st1. rewrite Hf. cbn [negb]. rewrite ?bind_eq. reflexivity.
Qed.

(** X24. A run on one path that names nothing and is not the path of
    the log file (which the logger would create before the mover looks),
    with a log that can be opened: the status is 1, standard error has
    the line (File not found), standard output the two closing lines,
    and the log file holds at the end what it held, the marker of the
    run and one ERROR entry against the path; no other path of the tree
    differs. *)
Theorem missing_file_run (p : string) (w : World) :
  log_opens w ->
  is_show_token p = false ->
  is_clear_token p = false ->
  p <> detectLogFilePath w ->
  fs_exists w p = false ->
  fst (runApplication [p] w) = Returned 1
  /\ w_err (snd (runApplication [p] w)) = w_err w +:+ "File not found: " +:+ p +:+ nl
  /\ w_out (snd (runApplication [p] w))
     = (w_out w +:+ "No image files were processed." +:+ nl)
       +:+ "Finished processing files. Check the log for any errors: "
       +:+ detectLogFilePath w +:+ nl
  /\ w_fs (snd (runApplication [p] w)) !! detectLogFilePath w
     = Some (File ((log_data w +:+ run_start_marker (w_now w))
                   +:+ error_line (w_now w) p "File does not exist."))
  /\ same_but (detectLogFilePath w) w (snd (runApplication [p] w)).
Proof.
  intros Ho Hs Hc Hne Hex.
  destruct (Logger_new_log_text w Ho) as (Ht & Hout & Herr & Hnow).
  pose proof (Logger_new_path w) as Hp.
  pose proof (proj1 (Logger_new_same_but w)) as Hsb.
  assert (fs_exists (snd (Logger_new w)) p = false) as Hex1.
  { revert Hex. unfold fs_exists, status. rewrite (Hsb p Hne). tauto. }
  unfold runApplication, normaliseArguments, dispatch.
  rewrite !bind_eq. cbn [get_logger get_world fst snd].
  rewrite Hs, Hc, Hex1. cbn [andb].
  destruct (Logger_new w) as [lg0 w0]. cbn [fst snd] in *.
  rewrite (fileMode_missing p lg0 w0 Hex1). cbv zeta.
  destruct (report_reported p "File does not exist." ("File not found: " +:+ p +:+ nl)
              false (lg0, w0)) as [_ Hr].
  destruct (snd (report p "File does not exist." ("File not found: " +:+ p +:+ nl)
                        false (lg0, w0))) as [lg1 w1].
  destruct Hr as [R1 R2 R3 R4 R5]. cbn [fst snd] in *.
  split; [reflexivity|].
  split; [rewrite w_err_Logger_close; simpl; rewrite R3, Herr; reflexivity|].
  split; [rewrite w_out_Logger_close; simpl; rewrite R2, Hout, Hp; reflexivity|].
  split.
  - specialize (R4 _ Ht). rewrite Hnow in R4.
    rewrite <- Hp, <- R1.
    apply Logger_close_flushes. exact R4.
  - eapply same_but_trans; [exact Hsb|].
    eapply same_but_trans; [apply quiet_same_but; rewrite <- Hp; exact R5|].
    intros q Hq.
    rewrite (Logger_close_same_but (lg1, _) q) by (cbn [fst]; congruence).
    reflexivity.
Qed.

Lemma missing_file_run_witness :
  fst (runApplication ["x.png"] Sample.with_log) = Returned 1
  /\ w_fs (snd (runApplication ["x.png"] Sample.with_log)) !! "/tmp/PushToFolders.log"
     = Some (File ((Sample.earlier_entry
                    +:+ run_start_marker "2024-05-01 10:00:00")
                   +:+ error_line "2024-05-01 10:00:00" "x.png" "File does not exist.")).
Proof.
  destruct (missing_file_run "x.png" Sample.with_log) as (H1 & _ & _ & H4 & _).
  - vm_compute. repeat split; reflexivity.
  - reflexivity.
  - reflexivity.
  - vm_compute. discriminate.
  - vm_compute. reflexivity.
  - split; [exact H1|]. exact H4.
Defined.

(** ** A run on one picture *)

Lemma fileMode_moved (p : string) (lg : Logger) (w : World) :
  fst (moveFileToFolder p (lg, w)) = true ->
  fileMode [p] (lg, w)
  = (Returned 0,
     (fst (snd (moveFileToFolder p (lg, w))),
      add_out ("Finished processing files. Check the log for any errors: "
               +:+ logFilePath_ lg +:+ nl)
              (snd (snd (moveFileToFolder p (lg, w)))))).
Proof.
  intros H. unfold fileMode, processFiles, files_loop.
  rewrite !bind_eq. cbn [get_logger fst snd]. rewrite H. cbn [negb].
  rewrite ?bind_eq. reflexivity.
Qed.

(** X25. A run on one picture that the mover moves, with a log that can
    be opened: the status is 0; the picture has left its place and is,
    with its contents, in the folder named by its stem; standard output
    has the line of the move and the closing line, standard error
    nothing; and the log file holds at the end what it held, the marker
    of the run and one INFO entry for the move. *)
Theorem single_picture_run (p : string) (w : World) :
  log_opens w ->
  moved p (Logger_new w) = true ->
  fst (runApplication [p] w) = Returned 0
  /\ w_fs (snd (runApplication [p] w)) !! p = None
  /\ w_fs (snd (runApplication [p] w)) !! destinationFile p = w_fs w !! p
  /\ w_out (snd (runApplication [p] w))
     = (w_out w +:+ "Moved '" +:+ Path.filename p +:+ "' into '" +:+ Path.stem p
        +:+ "'" +:+ nl)
       +:+ "Finished processing files. Check the log for any errors: "
       +:+ detectLogFilePath w +:+ nl
  /\ w_err (snd (runApplication [p] w)) = w_err w
  /\ w_fs (snd (runApplication [p] w)) !! detectLogFilePath w
     = Some (File ((log_data w +:+ run_start_marker (w_now w))
                   +:+ info_line (w_now w)
                         ("Moved " +:+ p +:+ " to " +:+ destinationFolder p))).
Proof.
  unfold moved. intros Ho Hm.
  destruct (Logger_new_log_text w Ho) as (Ht & Hout & Herr & Hnow).
  pose proof (Logger_new_path w) as Hp.
  pose proof (proj1 (Logger_new_same_but w)) as Hsb.
  unfold runApplication, normaliseArguments, dispatch.
  rewrite !bind_eq. cbn [get_logger get_world fst snd].
  destruct (Logger_new w) as [lg0 w0]. cbn [fst snd] in *.
  destruct (moveFileToFolder_frame p lg0 w0 Hm) as (Hreg & Himg & Hl1 & _ & _).
  assert (isImageFile (logFilePath_ lg0) = false) as Hlog
    by (rewrite Hp; apply detectLogFilePath_not_image).
  destruct (not_image_differs _ _ Hlog Himg) as [Hne1 Hne2].
  destruct (moveFileToFolder_console p lg0 w0 Hm) as [Ao Ae].
  pose proof (moveFileToFolder_logged p _ lg0 w0 Hm Hlog Ht) as At.
  destruct (moveFileToFolder_moved p lg0 w0 Hm) as [Hgone Hthere].
  specialize (Hthere Hne1 Hne2).
  assert (is_show_token p = false) as Hs.
  { destruct (is_show_token p) eqn:E; [|reflexivity].
    rewrite (token_not_image p (or_introl E)) in Himg. discriminate. }
  assert (is_clear_token p = false) as Hc.
  { destruct (is_clear_token p) eqn:E; [|reflexivity].
    rewrite (token_not_image p (or_intror E)) in Himg. discriminate. }
  assert (is_directory w0 p = false) as Hd.
  { revert Hreg. unfold is_regular_file, is_directory.
    destruct (status w0 p) as [[x|]|]; congruence. }
  rewrite Hs, Hc, Hd, andb_false_r.
  rewrite (fileMode_moved p lg0 w0 Hm).
  destruct (snd (moveFileToFolder p (lg0, w0))) as [lg1 w1]. cbn [fst snd] in *.
  assert (forall q, q <> detectLogFilePath w ->
            w_fs (Logger_close
                    (lg1, add_out ("Finished processing files. Check the log for any errors: "
                                   +:+ logFilePath_ lg0 +:+ nl) w1)) !! q
            = w_fs w1 !! q) as Hcl.
  { intros q Hq.
    rewrite (Logger_close_same_but (lg1, _) q) by (cbn [fst]; congruence).
    reflexivity. }
  split; [reflexivity|].
  split; [rewrite Hcl by congruence; exact Hgone|].
  split; [rewrite Hcl by congruence; rewrite Hthere; apply Hsb; congruence|].
  split; [rewrite w_out_Logger_close; simpl; rewrite Ao, Hout, Hp; reflexivity|].
  split; [rewrite w_err_Logger_close; simpl; rewrite Ae, Herr; reflexivity|].
  rewrite Hnow in At. rewrite <- Hp, <- Hl1.
  apply Logger_close_flushes. exact At.
Qed.

Lemma single_picture_run_witness :
  let w := Sample.make [("/tmp", Dir); ("F", Dir); ("F/a.png", File "a")]
                       Sample.nothing_fails Sample.no_fault in
  fst (runApplication ["F/a.png"] w) = Returned 0
  /\ w_fs (snd (runApplication ["F/a.png"] w)) !! "F/a.png" = None
  /\ w_fs (snd (runApplication ["F/a.png"] w)) !! "F/a/a.png" = Some (File "a").
Proof.
  intros w.
  destruct (single_picture_run "F/a.png" w) as (H1 & H2 & H3 & _).
  - vm_compute. repeat split; reflexivity.
  - vm_compute. reflexivity.
  - split; [exact H1|]. split; [exact H2|]. exact H3.
Defined.

(** ** The log commands, refused *)

(** X26. A lone show token when the log file cannot be opened for
    reading: the status is 1, standard error gets the line (No log file
    found at) with the path, nothing is printed on standard output, and
    no path but that of the log file differs afterwards. *)
Theorem show_log_unreadable (s e : string) (w : World) :
  is_show_token s = true ->
  w_fails w (OpenRead (detectLogFilePath w)) = Some e ->
  fst (runApplication [s] w) = Returned 1
  /\ w_out (snd (runApplication [s] w)) = w_out w
  /\ w_err (snd (runApplication [s] w))
     = w_err (snd (Logger_new w)) +:+ "No log file found at "
       +:+ detectLogFilePath w +:+ nl
  /\ same_but (detectLogFilePath w) w (snd (runApplication [s] w)).
Proof.
  intros Hs Hr.
  pose proof (Logger_new_path w) as Hp.
  pose proof (Logger_new_fails w) as Hf.
  destruct (Logger_new_same_but w) as [Hsb Hout].
  unfold runApplication, normaliseArguments, dispatch.
  rewrite !bind_eq. cbn [get_logger get_world fst snd]. rewrite Hs.
  destruct (Logger_new w) as [lg0 w0]. cbn [fst snd] in *.
  unfold showLogCommand, readFileContents, open_read.
  rewrite !bind_eq. cbn [get_logger get_world fst snd].
  rewrite Hf, Hp, Hr. rewrite !bind_eq. cbn [cerr ret fst snd].
  split; [reflexivity|].
  split; [rewrite w_out_Logger_close; exact Hout|].
  split; [rewrite w_err_Logger_close; reflexivity|].
  eapply same_but_trans; [exact Hsb|].
  intros q Hq.
  rewrite (Logger_close_same_but (lg0, _) q) by (cbn [fst]; congruence).
  reflexivity.
Qed.

Lemma show_log_unreadable_witness :
  let w := Sample.make [("/tmp", Dir); ("/tmp/PushToFolders.log", File "old")]
                       (fun c => match c with
                                 | OpenRead _ => Some "Permission denied"
                                 | _ => None
                                 end)
                       Sample.no_fault in
  fst (runApplication ["/showlog"] w) = Returned 1
  /\ w_err (snd (runApplication ["/showlog"] w))
     = "No log file found at /tmp/PushToFolders.log" +:+ nl.
Proof.
  intros w.
  destruct (show_log_unreadable "/showlog" "Permission denied" w) as (H1 & _ & H3 & _);
    [reflexivity|vm_compute; reflexivity|].
  split; [exact H1|]. rewrite H3. vm_compute. reflexivity.
Defined.

(** X27. A lone clear token when the log file cannot be opened for
    writing anew: the status is 1, standard error gets the line (Unable
    to clear log file at) with the path, nothing is printed on standard
    output, the log file keeps what it held, and no other path differs
    afterwards. *)
Theorem clear_log_refused (c e : string) (w : World) :
  is_clear_token c = true ->
  w_fails w (OpenTrunc (detectLogFilePath w)) = Some e ->
  fst (runApplication [c] w) = Returned 1
  /\ w_out (snd (runApplication [c] w)) = w_out w
  /\ w_err (snd (runApplication [c] w))
     = w_err (snd (Logger_new w)) +:+ "Unable to clear log file at "
       +:+ detectLogFilePath w +:+ nl
  /\ (forall d, w_fs w !! detectLogFilePath w = Some (File d) ->
        exists added, w_fs (snd (runApplication [c] w)) !! detectLogFilePath w
                      = Some (File (d +:+ added)))
  /\ same_but (detectLogFilePath w) w (snd (runApplication [c] w)).
Proof.
  intros Hc Hr.
  pose proof (Logger_new_path w) as Hp.
  pose proof (Logger_new_fails w) as Hf.
  pose proof (Logger_new_quiet w) as Hnq.
  destruct (Logger_new_same_but w) as [Hsb Hout].
  unfold runApplication, normaliseArguments, dispatch.
  rewrite !bind_eq. cbn [get_logger get_world fst snd].
  rewrite (clear_token_not_show c Hc), Hc.
  destruct (Logger_new w) as [lg0 w0]. cbn [fst snd] in *.
  unfold clearLogCommand, clearLogFile, lift_os, open_trunc.
  rewrite !bind_eq. cbn [get_logger fst snd].
  rewrite Hf, Hp, Hr. cbn [fst snd]. rewrite !bind_eq. cbn [cerr ret fst snd].
  split; [reflexivity|].
  split; [rewrite w_out_Logger_close; exact Hout|].
  split; [rewrite w_err_Logger_close; reflexivity|].
  split.
  - intros d Hd.
    assert (quiet (detectLogFilePath w) nowhere w
              (Logger_close
                 (lg0, add_err ("Unable to clear log file at "
                                +:+ detectLogFilePath w +:+ nl) w0))) as Hq.
    { eapply quiet_trans; [apply Hnq; rewrite Hd; eexists; reflexivity|].
      eapply quiet_trans; [apply quiet_add_err|].
      rewrite <- Hp at 1. apply Logger_close_quiet. }
    destruct (quiet_tree _ _ _ _ Hq (detectLogFilePath w))
      as [K|[(_ & d1 & s1 & Eo & En)|(Eo & _)]].
    + exists "". rewrite K, Hd, str_app_nil_r. reflexivity.
    + exists s1. rewrite Hd in Eo. injection Eo as ->. exact En.
    + congruence.
  - eapply same_but_trans; [exact Hsb|].
    intros q Hq.
    rewrite (Logger_close_same_but (lg0, _) q) by (cbn [fst]; congruence).
    reflexivity.
Qed.

Lemma clear_log_refused_witness :
  let w := Sample.make [("/tmp", Dir); ("/tmp/PushToFolders.log", File "old")]
                       (fun c => match c with
                                 | OpenTrunc _ => Some "Permission denied"
                                 | _ => None
                                 end)
                       Sample.no_fault in
  fst (runApplication ["--clear-log"] w) = Returned 1
  /\ w_err (snd (runApplication ["--clear-log"] w))
     = "Unable to clear log file at /tmp/PushToFolders.log" +:+ nl.
Proof.
  intros w.
  destruct (clear_log_refused "--clear-log" "Permission denied" w) as (H1 & _ & H3 & _);
    [reflexivity|vm_compute; reflexivity|].
  split; [exact H1|]. rewrite H3. vm_compute. reflexivity.
Defined.
